(** * VERAOS vision core: tracker association, lifecycle and geometry

    A shallow embedding of [src/components/VisionSystem.tsx] (the tracking
    core of the [VisionSystem] component) together with the properties the
    specification states about it.

    Modelling conventions.

    - A JavaScript [number] is a value of [number]: a rational for every
      finite value, plus [+Infinity], [-Infinity] and [NaN].  Arithmetic on
      finite values is exact (binary64 rounding and overflow are not
      modelled, and there is a single zero); the special values follow the
      IEEE-754 rules JavaScript uses (division by zero, [NaN] propagation,
      comparisons with [NaN] are false).
    - [Math.sqrt] and [Math.tan] are platform functions: they are Section
      variables, so every theorem holds for whatever implementation is
      supplied.  [Math.pow (x, 2)] is [x * x].
    - [Date.now ()] is an integer number of milliseconds ([Z]); track ids
      are the integers produced by [nextIdRef.current++] ([N]).
    - [trackersRef.current] is a JavaScript [Map]: it is a list of tracker
      records in insertion order, keyed by [id].  [labelsRef.current] is
      represented by the list of ids that own a label group (the THREE.js
      objects themselves are rendering state).
    - A JavaScript string is the sequence of its UTF-16 code units; a
      [string] holds code units below 256 (ASCII and Latin-1), which covers
      every label of the detector.  Strings are compared by code unit, as
      [Array.prototype.sort] and [===] do.
    - An object literal used as a map is the list of its own properties in
      creation order, read through the properties it inherits from
      [Object.prototype].
    - The handlers run with the props of the render that installed them:
      [worker.onmessage] is set once, by an effect without dependencies, and
      [renderLoop] is started once and re-schedules itself.  The
      [analysisMode] and [localObjects] they read are arguments of the
      model, so every theorem holds for whatever values the closures hold.
    - Fields that only feed label rendering ([rotationOffset],
      [lastLabelUpdate], [displayDist]) are left out, and so is the second
      loop of [updateVisualsAndPhysics], which only touches them and the
      THREE.js scene graph. *)

From Stdlib Require Import QArith Qabs ZArith NArith Lia Lqa List String Ascii Bool.
From Stdlib Require Import DecimalString Qround Permutation Sorted.
Import ListNotations.

Set Implicit Arguments.

(* ================================================================== *)
(** * JavaScript numbers *)
(* ================================================================== *)

Module JS.

Inductive number : Type :=
| Fin (q : Q)
| PInf
| NInf
| NaN.

Definition Qltb (a b : Q) : bool := negb (Qle_bool b a).

Definition Qsgn (q : Q) : Z := Z.sgn (Qnum q).

(** Sign of a number: [1], [0] or [-1]; [NaN] has none ([0] here, and
    every caller handles [NaN] first). *)
Definition sgn (x : number) : Z :=
  match x with
  | Fin q => Qsgn q
  | PInf => 1
  | NInf => (-1)
  | NaN => 0
  end.

Definition inf_of_sign (s : Z) : number :=
  match s with
  | Z0 => NaN
  | Zpos _ => PInf
  | Zneg _ => NInf
  end.

Definition neg (x : number) : number :=
  match x with
  | Fin q => Fin (- q)
  | PInf => NInf
  | NInf => PInf
  | NaN => NaN
  end.

Definition add (x y : number) : number :=
  match x, y with
  | NaN, _ | _, NaN => NaN
  | Fin a, Fin b => Fin (a + b)
  | PInf, NInf | NInf, PInf => NaN
  | PInf, _ | _, PInf => PInf
  | NInf, _ | _, NInf => NInf
  end.

Definition sub (x y : number) : number := add x (neg y).

Definition mul (x y : number) : number :=
  match x, y with
  | NaN, _ | _, NaN => NaN
  | Fin a, Fin b => Fin (a * b)
  | _, _ => inf_of_sign (sgn x * sgn y)
  end.

(** [x / y].  A finite non-zero value divided by zero is an infinity of the
    sign of the numerator, [0 / 0] is [NaN], a finite value divided by an
    infinity is zero. *)
Definition div (x y : number) : number :=
  match x, y with
  | NaN, _ | _, NaN => NaN
  | Fin a, Fin b => if Qeq_bool b 0 then inf_of_sign (Qsgn a) else Fin (a / b)
  | Fin _, _ => Fin 0
  | _, Fin b => inf_of_sign (sgn x * (if Qeq_bool b 0 then 1 else Qsgn b))
  | _, _ => NaN
  end.

(** [x < y]; false as soon as one side is [NaN]. *)
Definition ltb (x y : number) : bool :=
  match x, y with
  | NaN, _ | _, NaN => false
  | Fin a, Fin b => Qltb a b
  | NInf, NInf => false
  | NInf, _ => true
  | _, NInf => false
  | PInf, _ => false
  | Fin _, PInf => true
  end.

(** [x > y]. *)
Definition gtb (x y : number) : bool := ltb y x.

(** [x <= y]; false as soon as one side is [NaN]. *)
Definition leb (x y : number) : bool :=
  match x, y with
  | NaN, _ | _, NaN => false
  | Fin a, Fin b => Qle_bool a b
  | NInf, _ => true
  | _, PInf => true
  | _, _ => false
  end.

(** [x === y] on numbers; [NaN] equals nothing. *)
Definition eqb (x y : number) : bool :=
  match x, y with
  | Fin a, Fin b => Qeq_bool a b
  | PInf, PInf | NInf, NInf => true
  | _, _ => false
  end.

Definition isNaN (x : number) : bool :=
  match x with NaN => true | _ => false end.

(** [Math.max (x, y)] and [Math.min (x, y)]: [NaN] if an argument is. *)
Definition Math_max (x y : number) : number :=
  if isNaN x || isNaN y then NaN else if ltb x y then y else x.

Definition Math_min (x y : number) : number :=
  if isNaN x || isNaN y then NaN else if ltb y x then y else x.

Definition Math_abs (x : number) : number :=
  match x with
  | Fin q => Fin (Qabs q)
  | PInf | NInf => PInf
  | NaN => NaN
  end.

(** [Math.pow (x, 2)]. *)
Definition Math_pow2 (x : number) : number := mul x x.

(** [Math.PI], the binary64 value to sixteen digits. *)
Definition Math_PI : number := Fin 3.141592653589793.

(** ToBoolean on a number: [0] and [NaN] are falsy. *)
Definition truthy (x : number) : bool :=
  match x with
  | Fin q => negb (Qeq_bool q 0)
  | NaN => false
  | _ => true
  end.

(** [x || d] on numbers. *)
Definition or_else (x d : number) : number := if truthy x then x else d.

(** [THREE.MathUtils.degToRad]: [degrees * (Math.PI / 180)]. *)
Definition degToRad (degrees : number) : number :=
  mul degrees (div Math_PI (Fin 180)).

End JS.

Import JS.

Declare Scope js_scope.
Delimit Scope js_scope with js.
Bind Scope js_scope with number.
Infix "+" := add : js_scope.
Infix "-" := sub : js_scope.
Infix "*" := mul : js_scope.
Infix "/" := div : js_scope.
Infix "<?" := ltb : js_scope.
Infix ">?" := gtb : js_scope.
Notation "- x" := (neg x) : js_scope.

(* ================================================================== *)
(** * Strings *)
(* ================================================================== *)

(** [String.prototype.toLowerCase] on a code unit below 256: the capital
    letters of ASCII ([A]-[Z]) and of Latin-1 (U+00C0-U+00DE but the
    multiplication sign U+00D7) move up by 32; every other code unit is its
    own lower case. *)
Definition lower_ascii (c : ascii) : ascii :=
  let n := nat_of_ascii c in
  if ((Nat.leb 65 n && Nat.leb n 90) ||
      (Nat.leb 192 n && Nat.leb n 222 && negb (Nat.eqb n 215)))%bool
  then ascii_of_nat (n + 32) else c.

Fixpoint toLowerCase (s : string) : string :=
  match s with
  | EmptyString => EmptyString
  | String c s' => String (lower_ascii c) (toLowerCase s')
  end.

(** The own property [k] of an object literal, if it has one. *)
Fixpoint lookup {A : Type} (k : string) (m : list (string * A)) : option A :=
  match m with
  | [] => None
  | (k', v) :: m' => if String.eqb k k' then Some v else lookup k m'
  end.

(** What every object literal inherits from [Object.prototype]: the
    built-in methods (the property [constructor] is the function [Object],
    every other method is named as its property) and the accessor
    [__proto__], whose getter returns [Object.prototype] itself and whose
    setter ignores a value that is neither an object nor [null]. *)
Inductive Inherited : Type :=
| InheritedFunction (name : string)
| InheritedPrototype.

Definition objectPrototype : list (string * Inherited) :=
  [ ("constructor", InheritedFunction "Object");
    ("__defineGetter__", InheritedFunction "__defineGetter__");
    ("__defineSetter__", InheritedFunction "__defineSetter__");
    ("hasOwnProperty", InheritedFunction "hasOwnProperty");
    ("__lookupGetter__", InheritedFunction "__lookupGetter__");
    ("__lookupSetter__", InheritedFunction "__lookupSetter__");
    ("isPrototypeOf", InheritedFunction "isPrototypeOf");
    ("propertyIsEnumerable", InheritedFunction "propertyIsEnumerable");
    ("toString", InheritedFunction "toString");
    ("valueOf", InheritedFunction "valueOf");
    ("toLocaleString", InheritedFunction "toLocaleString");
    ("__proto__", InheritedPrototype) ]%string.

(* ================================================================== *)
(** * Data model *)
(* ================================================================== *)

Record Vector3 : Type := mkVector3 { vx : number; vy : number; vz : number }.

(** [[x, y, w, h]]: the projections are the array indices. *)
Record Box : Type := mkBox { box0 : number; box1 : number; box2 : number; box3 : number }.

Record PhysicsState : Type := mkPhysics {
  current : Vector3;
  target : Vector3;
  velocity : Vector3;
  scale : number
}.

Record TrackerState : Type := mkTracker {
  id : N;
  class : string;
  isRemote : bool;
  color : N;
  lastSeenTime : Z;
  consecutiveMisses : N;
  opacity : number;
  lockedBox : Box;
  physics : PhysicsState;
  scanProgress : number;
  hasLidarScan : bool;
  gesture : option string
}.

(** One element of the [predictions] array posted by the worker. *)
Record Prediction : Type := mkPrediction {
  pred_class : string;
  pred_score : number;
  pred_bbox : Box;
  pred_gesture : option string
}.

Inductive DepthSource : Type := AI_ESTIMATE | LIDAR_FUSION.

Inductive AnalysisMode : Type := AUTO | DETAILED | SILENT.

(** [TrackedObject] of [types.ts], with the fields the tick fills in. *)
Record TrackedObject : Type := mkObject {
  obj_id : N;
  obj_class : string;
  obj_confidence : number;
  obj_bbox : Box;
  obj_position3D : Vector3;
  obj_distance : number;
  obj_lastSeen : Z;
  obj_isOccluded : bool;
  obj_isSelected : bool;
  obj_depthSource : DepthSource;
  obj_gesture : option string;
  obj_scanProgress : number
}.

(** The refs of the component that the tracking core reads and writes. *)
Record VisionState : Type := mkState {
  trackers : list TrackerState;      (* trackersRef.current, insertion order *)
  labels : list N;                   (* keys of labelsRef.current *)
  nextId : N;                        (* nextIdRef.current *)
  lastObjectSet : string;            (* lastObjectSetRef.current *)
  lastAnalysisTime : Z;              (* lastAnalysisTimeRef.current *)
  isMovingFast : bool;               (* isMovingFastRef.current *)
  processingInterval : number;       (* processingIntervalRef.current *)
  isLidarAvailable : bool;           (* isLidarAvailableRef.current *)
  fov : number                       (* cameraRef.current.fov *)
}.

Definition initialState : VisionState :=
  {| trackers := []; labels := []; nextId := 1;
     lastObjectSet := EmptyString; lastAnalysisTime := 0;
     isMovingFast := false; processingInterval := Fin 200;
     isLidarAvailable := false; fov := Fin 75 |}.

(* ================================================================== *)
(** * Map and Set operations *)
(* ================================================================== *)

(** [Map.prototype.get]. *)
Fixpoint Map_get (m : list TrackerState) (k : N) : option TrackerState :=
  match m with
  | [] => None
  | t :: m' => if N.eqb (id t) k then Some t else Map_get m' k
  end.

(** [Map.prototype.set]: an existing key keeps its position, a new key goes
    last. *)
Fixpoint Map_set (m : list TrackerState) (k : N) (v : TrackerState) : list TrackerState :=
  match m with
  | [] => [v]
  | t :: m' => if N.eqb (id t) k then v :: m' else t :: Map_set m' k v
  end.

(** [Map.prototype.delete]. *)
Definition Map_delete (m : list TrackerState) (k : N) : list TrackerState :=
  filter (fun t => negb (N.eqb (id t) k)) m.

(** [Map.prototype.keys]. *)
Definition Map_keys (m : list TrackerState) : list N := map id m.

Definition Set_has (s : list N) (k : N) : bool := existsb (N.eqb k) s.

(** [Set.prototype.add]. *)
Definition Set_add (s : list N) (k : N) : list N :=
  if Set_has s k then s else s ++ [k].

(** [Set.prototype.delete]. *)
Definition Set_delete (s : list N) (k : N) : list N :=
  filter (fun k' => negb (N.eqb k' k)) s.

(* ================================================================== *)
(** * The tracking core *)
(* ================================================================== *)

(** The per-class reference heights of [getRealWorldHeight]. *)
Definition heightTable : list (string * number) :=
  [ ("person", Fin 1.70); ("cup", Fin 0.15); ("bottle", Fin 0.25);
    ("wine_glass", Fin 0.20); ("bowl", Fin 0.15); ("chair", Fin 1.0);
    ("couch", Fin 0.9); ("potted_plant", Fin 0.5); ("tv", Fin 0.7);
    ("laptop", Fin 0.3); ("mouse", Fin 0.05); ("remote", Fin 0.15);
    ("keyboard", Fin 0.05); ("cell_phone", Fin 0.15); ("book", Fin 0.25);
    ("vase", Fin 0.3); ("hand", Fin 0.20) ]%string.

(** [map[cls.toLowerCase ()] || 0.5].  An own height is a non-zero number
    and is returned; a key that is no property at all reads [undefined] and
    gives the default.  A key that names an inherited property
    ([constructor], [__proto__]) reads a function or [Object.prototype]: an
    object is truthy, so [||] returns it, and the arithmetic of
    [calculate3DPosition], its only caller, converts it to [NaN]. *)
Definition getRealWorldHeight (cls : string) : number :=
  let key := toLowerCase cls in
  match lookup key heightTable with
  | Some v => or_else v (Fin 0.5)
  | None =>
      match lookup key objectPrototype with
      | Some _ => NaN
      | None => Fin 0.5
      end
  end.

(** Whether [map[cls.toLowerCase ()]] reads an inherited property. *)
Definition inheritedClass (cls : string) : bool :=
  match lookup (toLowerCase cls) heightTable, lookup (toLowerCase cls) objectPrototype with
  | None, Some _ => true
  | _, _ => false
  end.

(** [current += (target - current) * speed]. *)
Definition lerp (cur tgt speed : number) : number :=
  (cur + (tgt - cur) * speed)%js.

(** The scene message handed to [onSceneChange]: the per-class summary, or
    the scanning placeholder when the summary is empty. *)
Inductive SceneMessage : Type :=
| Dynamics (summary : string)
| Scanning.

(** [String.prototype.toUpperCase] on a code unit below 256: the small
    letters of ASCII and of Latin-1 (U+00E0-U+00FE but the division sign
    U+00F7) move down by 32, and the sharp s U+00DF becomes [SS].  The
    micro sign U+00B5 and U+00FF are the two code units whose upper case
    (U+039C, U+0178) lies above 255; they are left in place. *)
Definition upper_ascii (c : ascii) : string :=
  let n := nat_of_ascii c in
  if ((Nat.leb 97 n && Nat.leb n 122) ||
      (Nat.leb 224 n && Nat.leb n 254 && negb (Nat.eqb n 247)))%bool
  then String (ascii_of_nat (n - 32)) EmptyString
  else if Nat.eqb n 223 then "SS"%string
  else String c EmptyString.

Fixpoint toUpperCase (s : string) : string :=
  match s with
  | EmptyString => EmptyString
  | String c s' => (upper_ascii c ++ toUpperCase s')%string
  end.

(** [Array.prototype.sort] without comparator, on strings: stable insertion
    by code-unit order. *)
Fixpoint insert_sorted (s : string) (l : list string) : list string :=
  match l with
  | [] => [s]
  | s' :: l' => if String.ltb s' s then s' :: insert_sorted s l' else s :: l
  end.

Fixpoint sort_strings (l : list string) : list string :=
  match l with
  | [] => []
  | s :: l' => insert_sorted s (sort_strings l')
  end.

(** ** The per-class counts of the scene summary *)

(** A value held by the [counts] object: a number, or the string that [+]
    produces once [counts[c]] has read something that is not a number. *)
Inductive CountValue : Type :=
| CountNumber (n : N)
| CountString (s : string).

(** [Function.prototype.toString] of a built-in function.  The standard
    fixes the form [function name() { [native code] }] up to white space;
    this is the text V8 and JavaScriptCore print. *)
Definition nativeSource (name : string) : string :=
  ("function " ++ name ++ "() { [native code] }")%string.

(** [(counts[c] || 0) + 1].  An own count is read back; a class that names
    an inherited property reads that property, which is truthy, and [+]
    concatenates its string form with ["1"]; any other class reads
    [undefined]. *)
Definition nextCount (c : string) (counts : list (string * CountValue)) : CountValue :=
  match lookup c counts with
  | Some (CountNumber n) => CountNumber (n + 1)
  | Some (CountString s) =>
      if String.eqb s EmptyString then CountNumber 1 else CountString (s ++ "1")
  | None =>
      match lookup c objectPrototype with
      | Some (InheritedFunction name) => CountString (nativeSource name ++ "1")
      | Some InheritedPrototype => CountString "[object Object]1"
      | None => CountNumber 1
      end
  end.

(** [counts[c] = v] for a key other than [__proto__]: the own property is
    overwritten in place, or created after the existing ones. *)
Fixpoint setOwn (c : string) (v : CountValue) (counts : list (string * CountValue))
    : list (string * CountValue) :=
  match counts with
  | [] => [(c, v)]
  | (k, w) :: counts' =>
      if String.eqb k c then (k, v) :: counts' else (k, w) :: setOwn c v counts'
  end.

(** [counts[c] = (counts[c] || 0) + 1].  For the class [__proto__] the
    assignment runs the inherited setter with a string, which does
    nothing. *)
Definition count_add (c : string) (counts : list (string * CountValue))
    : list (string * CountValue) :=
  if String.eqb c "__proto__" then counts else setOwn c (nextCount c counts) counts.

Definition count_classes (classes : list string) : list (string * CountValue) :=
  fold_left (fun counts c => count_add c counts) classes [].

(** The array index a property key denotes: the key is the canonical
    decimal form of an integer below [2^32 - 1]. *)
Definition arrayIndex (k : string) : option N :=
  match NilEmpty.uint_of_string k with
  | Some d =>
      let n := N.of_uint d in
      if (String.eqb (NilZero.string_of_uint (N.to_uint n)) k && (n <? 4294967295)%N)%bool
      then Some n else None
  | None => None
  end.

Fixpoint insertIndexed (e : N * (string * CountValue))
    (l : list (N * (string * CountValue))) : list (N * (string * CountValue)) :=
  match l with
  | [] => [e]
  | e' :: l' => if (fst e' <? fst e)%N then e' :: insertIndexed e l' else e :: l
  end.

Definition indexedEntries (counts : list (string * CountValue))
    : list (N * (string * CountValue)) :=
  fold_right (fun kv acc => match arrayIndex (fst kv) with
                            | Some n => insertIndexed (n, kv) acc
                            | None => acc
                            end) [] counts.

(** [Object.entries]: the own properties, those whose key is an array index
    first, by ascending index, then the others in creation order. *)
Definition Object_entries (counts : list (string * CountValue))
    : list (string * CountValue) :=
  map snd (indexedEntries counts) ++
  filter (fun kv => match arrayIndex (fst kv) with Some _ => false | None => true end)
         counts.

(** [`${v}`] for a count. *)
Definition countText (v : CountValue) : string :=
  match v with
  | CountNumber n => NilZero.string_of_uint (N.to_uint n)
  | CountString s => s
  end.

(** [`${k.toUpperCase ()} x${v}`]. *)
Definition summary_entry (kv : string * CountValue) : string :=
  (toUpperCase (fst kv) ++ " x" ++ countText (snd kv))%string.

Definition sceneSummary (classes : list string) : string :=
  String.concat ", " (map summary_entry (Object_entries (count_classes classes))).

Section Model.

(** [Math.sqrt] and [Math.tan]. *)
Variable Math_sqrt : number -> number.
Variable Math_tan : number -> number.

Definition calculate3DPosition (camera_fov : number) (bbox : Box) (cls : string)
    (videoW videoH screenW screenH : number) : Vector3 :=
  let x := box0 bbox in
  let y := box1 bbox in
  let w := box2 bbox in
  let h := box3 bbox in
  let videoRatio := (videoW / videoH)%js in
  let screenRatio := (screenW / screenH)%js in
  let '(renderW, renderH, offsetX, offsetY) :=
    if (screenRatio >? videoRatio)%js
    then (screenW, (screenW / videoRatio)%js, Fin 0,
          ((screenH - screenW / videoRatio) / Fin 2)%js)
    else ((screenH * videoRatio)%js, screenH,
          ((screenW - screenH * videoRatio) / Fin 2)%js, Fin 0) in
  let scaleX := (renderW / videoW)%js in
  let scaleY := (renderH / videoH)%js in
  let screenBoxCenterX := ((x * scaleX + offsetX) + (w * scaleX) / Fin 2)%js in
  let screenBoxCenterY := ((y * scaleY + offsetY) + (h * scaleY) / Fin 2)%js in
  let ndcX := ((screenBoxCenterX / screenW) * Fin 2 - Fin 1)%js in
  let ndcY := (- (screenBoxCenterY / screenH) * Fin 2 + Fin 1)%js in
  let realHeight := getRealWorldHeight cls in
  let projectedHeight := (h * scaleY)%js in
  let screenHeightFraction := (projectedHeight / screenH)%js in
  let fovRad := degToRad (or_else camera_fov (Fin 75)) in
  let z := ((realHeight / screenHeightFraction) / (Fin 2 * Math_tan (fovRad / Fin 2)))%js in
  let z := Math_max (Fin 1.5) (Math_min (Fin 50.0) z) in
  let z := (- z)%js in
  let visibleHeightAtZ := (Fin 2 * Math_abs z * Math_tan (fovRad / Fin 2))%js in
  let visibleWidthAtZ := (visibleHeightAtZ * (screenW / screenH))%js in
  let worldX := ((ndcX * visibleWidthAtZ) / Fin 2)%js in
  let worldY := ((ndcY * visibleHeightAtZ) / Fin 2)%js in
  {| vx := worldX; vy := worldY; vz := z |}.

(** The locals of [calculate3DPosition] by name, for the statements about
    it: the rendered rectangle [(renderW, renderH, offsetX, offsetY)], the
    fraction of the viewport height the box covers, the box centre in
    normalized device coordinates, and the depth before the clamp. *)
Definition renderRect (videoW videoH screenW screenH : number)
    : number * number * number * number :=
  let videoRatio := (videoW / videoH)%js in
  let screenRatio := (screenW / screenH)%js in
  if (screenRatio >? videoRatio)%js
  then (screenW, (screenW / videoRatio)%js, Fin 0,
        ((screenH - screenW / videoRatio) / Fin 2)%js)
  else ((screenH * videoRatio)%js, screenH,
        ((screenW - screenH * videoRatio) / Fin 2)%js, Fin 0).

Definition screenHeightFraction (bbox : Box) (videoW videoH screenW screenH : number)
    : number :=
  let '(_, renderH, _, _) := renderRect videoW videoH screenW screenH in
  ((box3 bbox * (renderH / videoH)) / screenH)%js.

Definition ndcCenter (bbox : Box) (videoW videoH screenW screenH : number)
    : number * number :=
  let '(renderW, renderH, offsetX, offsetY) :=
    renderRect videoW videoH screenW screenH in
  let scaleX := (renderW / videoW)%js in
  let scaleY := (renderH / videoH)%js in
  let screenBoxCenterX :=
    ((box0 bbox * scaleX + offsetX) + (box2 bbox * scaleX) / Fin 2)%js in
  let screenBoxCenterY :=
    ((box1 bbox * scaleY + offsetY) + (box3 bbox * scaleY) / Fin 2)%js in
  (((screenBoxCenterX / screenW) * Fin 2 - Fin 1)%js,
   (- (screenBoxCenterY / screenH) * Fin 2 + Fin 1)%js).

(** [Math.tan (fovRad / 2)] for the camera's field of view. *)
Definition tanHalfFov (camera_fov : number) : number :=
  Math_tan (degToRad (or_else camera_fov (Fin 75)) / Fin 2)%js.

Definition rawDepth (camera_fov : number) (bbox : Box) (cls : string)
    (videoW videoH screenW screenH : number) : number :=
  ((getRealWorldHeight cls / screenHeightFraction bbox videoW videoH screenW screenH)
   / (Fin 2 * tanHalfFov camera_fov))%js.

(** [Math.max (1.5, Math.min (50.0, z))]. *)
Definition clampDepth (z : number) : number :=
  Math_max (Fin 1.5) (Math_min (Fin 50.0) z).

(** ** Scene-change detection *)

(** [checkSceneChange]; [now] is its own [Date.now ()] and [mode] the
    [analysisMode] its closure holds.  The result carries the argument of
    the [onSceneChange] call made by the callback that [setTimeout] defers,
    if that callback makes one. *)
Definition checkSceneChange (st : VisionState) (now : Z) (mode : AnalysisMode)
    (classes : list string) : VisionState * option SceneMessage :=
  if (now - lastAnalysisTime st <? 2000)%Z then (st, None)
  else
    let sorted := sort_strings classes in
    let currentSetSig := String.concat "," sorted in
    if negb (String.eqb currentSetSig (lastObjectSet st)) then
      let summary := sceneSummary sorted in
      let msg :=
        match mode with
        | AUTO | DETAILED =>
            Some (if String.eqb summary EmptyString then Scanning else Dynamics summary)
        | SILENT => None
        end in
      ({| trackers := trackers st; labels := labels st; nextId := nextId st;
          lastObjectSet := currentSetSig; lastAnalysisTime := now;
          isMovingFast := isMovingFast st;
          processingInterval := processingInterval st;
          isLidarAvailable := isLidarAvailable st; fov := fov st |}, msg)
    else
      ({| trackers := trackers st; labels := labels st; nextId := nextId st;
          lastObjectSet := lastObjectSet st; lastAnalysisTime := now;
          isMovingFast := isMovingFast st;
          processingInterval := processingInterval st;
          isLidarAvailable := isLidarAvailable st; fov := fov st |}, None).

(** ** Association *)

Definition scaleBox (b : Box) (scaleFactor : number) : Box :=
  {| box0 := (box0 b * scaleFactor)%js; box1 := (box1 b * scaleFactor)%js;
     box2 := (box2 b * scaleFactor)%js; box3 := (box3 b * scaleFactor)%js |}.

(** Distance between the top-left corners of the scaled detection box and a
    tracker's box. *)
Definition cornerDist (scaledBbox lockedBox : Box) : number :=
  Math_sqrt (Math_pow2 (box0 scaledBbox - box0 lockedBox)
             + Math_pow2 (box1 scaledBbox - box1 lockedBox))%js.

(** Body of [availableTrackers.forEach]: [best] is [(bestId, bestDist)].
    The lookup cannot fail: [availableTrackers] only holds keys of the map
    (lemma [findBest_lookup]). *)
Definition bestStep (trs : list TrackerState) (cls : string) (scaledBbox : Box)
    (best : option N * number) (tid : N) : option N * number :=
  match Map_get trs tid with
  | None => best
  | Some t =>
      if negb (String.eqb (class t) cls) then best
      else
        let dist := cornerDist scaledBbox (lockedBox t) in
        if (dist <? snd best)%js then (Some tid, dist) else best
  end.

Definition findBest (trs : list TrackerState) (availableTrackers : list N)
    (cls : string) (scaledBbox : Box) : option N * number :=
  fold_left (bestStep trs cls scaledBbox) availableTrackers (None, Fin 200).

(** The locals and refs the [predictions.forEach] callback works on. *)
Record AssocState : Type := mkAssoc {
  a_trackers : list TrackerState;
  a_labels : list N;
  a_nextId : N;
  availableTrackers : list N;
  currentClasses : list string;
  activeIds : list N
}.

Definition matchUpdate (now : Z) (lerpFactor : number) (scaledBbox : Box)
    (pred : Prediction) (t : TrackerState) : TrackerState :=
  {| id := id t; class := class t; isRemote := isRemote t; color := color t;
     lastSeenTime := now;
     consecutiveMisses := 0;
     opacity := Fin 1.0;
     lockedBox :=
       {| box0 := lerp (box0 (lockedBox t)) (box0 scaledBbox) lerpFactor;
          box1 := lerp (box1 (lockedBox t)) (box1 scaledBbox) lerpFactor;
          box2 := lerp (box2 (lockedBox t)) (box2 scaledBbox) lerpFactor;
          box3 := lerp (box3 (lockedBox t)) (box3 scaledBbox) lerpFactor |};
     physics := physics t; scanProgress := scanProgress t;
     hasLidarScan := hasLidarScan t;
     gesture := pred_gesture pred |}.

Definition newTracker (now : Z) (lidar : bool) (newId : N) (scaledBbox : Box)
    (pred : Prediction) : TrackerState :=
  {| id := newId; class := pred_class pred; isRemote := false;
     color := if String.eqb (pred_class pred) "hand" then 16766720%N else 65280%N;
     lastSeenTime := now; consecutiveMisses := 0;
     opacity := Fin 1.0;
     lockedBox := scaledBbox;
     physics :=
       {| current := {| vx := Fin 0; vy := Fin 0; vz := Fin (-10) |};
          target := {| vx := Fin 0; vy := Fin 0; vz := Fin (-10) |};
          velocity := {| vx := Fin 0; vy := Fin 0; vz := Fin 0 |};
          scale := Fin 0.1 |};
     scanProgress := Fin 0; hasLidarScan := lidar;
     gesture := pred_gesture pred |}.

(** [if (bestId)]: [null] and [0] are falsy. *)
Definition truthyId (bestId : option N) : option N :=
  match bestId with
  | Some tid => if N.eqb tid 0 then None else Some tid
  | None => None
  end.

(** Body of [predictions.forEach].  The lookup of a truthy [bestId] cannot
    fail (lemma [findBest_lookup]); its [None] branch is there for
    totality. *)
Definition processPrediction (now : Z) (interval : number) (lidar : bool)
    (scaleFactor : number) (a : AssocState) (pred : Prediction) : AssocState :=
  if (pred_score pred <? Fin 0.2)%js then a
  else
    let classes := currentClasses a ++ [pred_class pred] in
    let scaledBbox := scaleBox (pred_bbox pred) scaleFactor in
    let bestId :=
      fst (findBest (a_trackers a) (availableTrackers a) (pred_class pred) scaledBbox) in
    match truthyId bestId with
    | Some tid =>
        match Map_get (a_trackers a) tid with
        | Some t =>
            let lerpFactor := if (interval >? Fin 300)%js then Fin 0.5 else Fin 0.4 in
            {| a_trackers :=
                 Map_set (a_trackers a) tid (matchUpdate now lerpFactor scaledBbox pred t);
               a_labels := a_labels a; a_nextId := a_nextId a;
               availableTrackers := Set_delete (availableTrackers a) tid;
               currentClasses := classes;
               activeIds := Set_add (activeIds a) tid |}
        | None => a
        end
    | None =>
        let newId := a_nextId a in
        {| a_trackers :=
             Map_set (a_trackers a) newId (newTracker now lidar newId scaledBbox pred);
           a_labels := Set_add (a_labels a) newId;
           a_nextId := (a_nextId a + 1)%N;
           availableTrackers := availableTrackers a;
           currentClasses := classes;
           activeIds := Set_add (activeIds a) newId |}
    end.

Definition startAssoc (st : VisionState) : AssocState :=
  {| a_trackers := trackers st; a_labels := labels st; a_nextId := nextId st;
     availableTrackers := Map_keys (trackers st);
     currentClasses := []; activeIds := [] |}.

Definition associate (st : VisionState) (now : Z) (predictions : list Prediction)
    (scaleFactor : number) : AssocState :=
  fold_left (processPrediction now (processingInterval st) (isLidarAvailable st) scaleFactor)
            predictions (startAssoc st).

(** [handleWorkerPredictions]; [now] is the value of [Date.now ()] at entry
    and [nowCheck] its value inside [checkSceneChange].  The result carries
    the argument of the deferred [onSceneChange] call, if there is one. *)
Definition handleWorkerPredictions (st : VisionState) (now nowCheck : Z)
    (mode : AnalysisMode) (predictions : list Prediction) (scaleFactor : number)
    : VisionState * option SceneMessage :=
  if isMovingFast st then (st, None)
  else
    let a := associate st now predictions scaleFactor in
    checkSceneChange
      {| trackers := a_trackers a; labels := a_labels a; nextId := a_nextId a;
         lastObjectSet := lastObjectSet st; lastAnalysisTime := lastAnalysisTime st;
         isMovingFast := isMovingFast st;
         processingInterval := processingInterval st;
         isLidarAvailable := isLidarAvailable st; fov := fov st |}
      nowCheck mode (currentClasses a).

(** ** The render tick *)

(** [now - tracker.lastSeenTime > 500]. *)
Definition isLost (now : Z) (tracker : TrackerState) : bool :=
  (now - lastSeenTime tracker >? 500)%Z.

(** The tracker after the statements of the loop body that precede the
    eviction test: new physics target, smoothed position, faded opacity. *)
Definition advanceTracker (st : VisionState) (now : Z)
    (videoW videoH width height : number) (tracker : TrackerState) : TrackerState :=
  let calc :=
    calculate3DPosition (fov st) (lockedBox tracker) (class tracker)
                        videoW videoH width height in
  let speed := if isMovingFast st then Fin 0.9 else Fin 0.2 in
  let cur := current (physics tracker) in
  {| id := id tracker; class := class tracker; isRemote := isRemote tracker;
     color := color tracker; lastSeenTime := lastSeenTime tracker;
     consecutiveMisses := consecutiveMisses tracker;
     opacity :=
       if isLost now tracker then (opacity tracker - Fin 0.05)%js else opacity tracker;
     lockedBox := lockedBox tracker;
     physics :=
       {| current :=
            {| vx := lerp (vx cur) (vx calc) speed;
               vy := lerp (vy cur) (vy calc) speed;
               vz := lerp (vz cur) (vz calc) speed |};
          target := {| vx := vx calc; vy := vy calc; vz := vz calc |};
          velocity := velocity (physics tracker);
          scale := scale (physics tracker) |};
     scanProgress := scanProgress tracker;
     hasLidarScan := hasLidarScan tracker;
     gesture := gesture tracker |}.

(** [tracker.opacity < 0.05 && isLost], on the advanced tracker. *)
Definition evicts (now : Z) (tracker : TrackerState) : bool :=
  (opacity tracker <? Fin 0.05)%js && isLost now tracker.

Definition advanceScan (tracker : TrackerState) : TrackerState :=
  let sp := scanProgress tracker in
  let sp' :=
    if (sp >? Fin 0)%js && (sp <? Fin 1)%js then
      let sp1 := (sp + Fin 0.01)%js in
      if (sp1 >? Fin 1)%js then Fin 1 else sp1
    else sp in
  {| id := id tracker; class := class tracker; isRemote := isRemote tracker;
     color := color tracker; lastSeenTime := lastSeenTime tracker;
     consecutiveMisses := consecutiveMisses tracker;
     opacity := opacity tracker; lockedBox := lockedBox tracker;
     physics := physics tracker; scanProgress := sp';
     hasLidarScan := hasLidarScan tracker; gesture := gesture tracker |}.

(** [localObjects.find (o => o.id === tracker.id)?.isSelected || false]. *)
Definition selectedIn (localObjects : list TrackedObject) (tid : N) : bool :=
  match find (fun o => N.eqb (obj_id o) tid) localObjects with
  | Some o => obj_isSelected o
  | None => false
  end.

(** The object pushed on [nextLocalObjects]. *)
Definition toObject (st : VisionState) (now : Z) (localObjects : list TrackedObject)
    (tracker : TrackerState) : TrackedObject :=
  {| obj_id := id tracker; obj_class := class tracker;
     obj_confidence := Fin 1;
     obj_bbox := lockedBox tracker;
     obj_position3D := current (physics tracker);
     obj_distance := Math_abs (vz (current (physics tracker)));
     obj_lastSeen := now;
     obj_isOccluded := false;
     obj_isSelected := selectedIn localObjects (id tracker);
     obj_depthSource := if isLidarAvailable st then LIDAR_FUSION else AI_ESTIMATE;
     obj_gesture := gesture tracker;
     obj_scanProgress := scanProgress tracker |}.

(** The part of the component a tick rewrites, and its output so far. *)
Record TickState : Type := mkTick {
  k_trackers : list TrackerState;
  k_labels : list N;
  nextLocalObjects : list TrackedObject
}.

(** [removeTracker]: the label group is disposed of and both maps forget
    the id. *)
Definition removeTracker (k : TickState) (tid : N) : TickState :=
  {| k_trackers := Map_delete (k_trackers k) tid;
     k_labels := Set_delete (k_labels k) tid;
     nextLocalObjects := nextLocalObjects k |}.

(** Body of [trackers.forEach]; the tracker is mutated in place, so its
    entry of the map is rewritten at its position. *)
Definition tickTracker (st : VisionState) (now : Z)
    (videoW videoH width height : number) (localObjects : list TrackedObject)
    (k : TickState) (tracker : TrackerState) : TickState :=
  let t1 := advanceTracker st now videoW videoH width height tracker in
  if evicts now t1 then
    removeTracker
      {| k_trackers := Map_set (k_trackers k) (id t1) t1;
         k_labels := k_labels k; nextLocalObjects := nextLocalObjects k |}
      (id t1)
  else
    let t2 := advanceScan t1 in
    {| k_trackers := Map_set (k_trackers k) (id t2) t2;
       k_labels := k_labels k;
       nextLocalObjects := nextLocalObjects k ++ [toObject st now localObjects t2] |}.

(** [nextLocalObjects.sort ((a, b) => b.position3D.z - a.position3D.z)]:
    stable insertion, [o'] goes first when the comparator is positive. *)
Fixpoint insertObject (o : TrackedObject) (l : list TrackedObject) : list TrackedObject :=
  match l with
  | [] => [o]
  | o' :: l' =>
      if ((vz (obj_position3D o') - vz (obj_position3D o)) >? Fin 0)%js
      then o' :: insertObject o l'
      else o :: l
  end.

Fixpoint sortObjects (l : list TrackedObject) : list TrackedObject :=
  match l with
  | [] => []
  | o :: l' => insertObject o (sortObjects l')
  end.

(** [updateVisualsAndPhysics]: the new state and the list handed to
    [onUpdateLocalObjects]. *)
Definition updateVisualsAndPhysics (st : VisionState) (now : Z)
    (videoWidth videoHeight innerWidth innerHeight : number)
    (localObjects : list TrackedObject) : VisionState * list TrackedObject :=
  let videoW := or_else videoWidth (Fin 1280) in
  let videoH := or_else videoHeight (Fin 720) in
  let k :=
    fold_left (tickTracker st now videoW videoH innerWidth innerHeight localObjects)
              (trackers st)
              {| k_trackers := trackers st; k_labels := labels st;
                 nextLocalObjects := [] |} in
  ({| trackers := k_trackers k; labels := k_labels k; nextId := nextId st;
      lastObjectSet := lastObjectSet st; lastAnalysisTime := lastAnalysisTime st;
      isMovingFast := isMovingFast st;
      processingInterval := processingInterval st;
      isLidarAvailable := isLidarAvailable st; fov := fov st |},
   sortObjects (nextLocalObjects k)).

(** What one tick does to a single tracker: [None] when it is evicted,
    the rewritten tracker otherwise. *)
Definition tickResult (st : VisionState) (now : Z)
    (videoW videoH width height : number) (tracker : TrackerState)
    : option TrackerState :=
  let t1 := advanceTracker st now videoW videoH width height tracker in
  if evicts now t1 then None else Some (advanceScan t1).

Definition survivors (st : VisionState) (now : Z)
    (videoW videoH width height : number) (trs : list TrackerState)
    : list TrackerState :=
  flat_map (fun t => match tickResult st now videoW videoH width height t with
                     | Some t' => [t']
                     | None => []
                     end) trs.

Definition evictedIds (st : VisionState) (now : Z)
    (videoW videoH width height : number) (trs : list TrackerState) : list N :=
  flat_map (fun t => match tickResult st now videoW videoH width height t with
                     | Some _ => []
                     | None => [id t]
                     end) trs.

(** ** The component as a transition system *)

(** What can happen to the tracking core: a [result] message of the worker,
    an animation frame, or the rest of the component overwriting one of the
    refs the core only reads (motion flag, processing interval, lidar flag,
    camera field of view).

    [mode] is the [analysisMode] held by the closure of [worker.onmessage],
    and [localObjects] the prop held by the closure of [renderLoop].  Both
    closures are created once ([useEffect] with no dependencies, and
    [startLoops] behind [!sceneRef.current]), so in a running component
    they keep the values of the render that created them: under [App.tsx]
    the mode ['AUTO'] and the empty list.  The events leave both free. *)
Inductive Event : Type :=
| WorkerResult (now nowCheck : Z) (mode : AnalysisMode)
    (predictions : list Prediction) (scaleFactor : number)
| AnimationFrame (now : Z) (videoWidth videoHeight innerWidth innerHeight : number)
    (localObjects : list TrackedObject)
| Environment (moving : bool) (interval : number) (lidar : bool) (camera_fov : number).

Inductive Output : Type :=
| SceneOut (msg : option SceneMessage)
| ObjectsOut (objects : list TrackedObject)
| NoOut.

Definition step (st : VisionState) (ev : Event) : VisionState * Output :=
  match ev with
  | WorkerResult now nowCheck mode predictions scaleFactor =>
      let '(st', msg) :=
        handleWorkerPredictions st now nowCheck mode predictions scaleFactor in
      (st', SceneOut msg)
  | AnimationFrame now videoWidth videoHeight innerWidth innerHeight localObjects =>
      let '(st', objs) :=
        updateVisualsAndPhysics st now videoWidth videoHeight innerWidth innerHeight
                                localObjects in
      (st', ObjectsOut objs)
  | Environment moving interval lidar camera_fov =>
      ({| trackers := trackers st; labels := labels st; nextId := nextId st;
          lastObjectSet := lastObjectSet st; lastAnalysisTime := lastAnalysisTime st;
          isMovingFast := moving; processingInterval := interval;
          isLidarAvailable := lidar; fov := camera_fov |}, NoOut)
  end.

(** The state after a sequence of events and the outputs it produced. *)
Fixpoint run (st : VisionState) (evs : list Event) : VisionState * list Output :=
  match evs with
  | [] => (st, [])
  | ev :: evs' =>
      let '(st1, o) := step st ev in
      let '(st2, os) := run st1 evs' in
      (st2, o :: os)
  end.

(** The objects an output carries, and their ids. *)
Definition outputObjects (o : Output) : list TrackedObject :=
  match o with
  | ObjectsOut objects => objects
  | _ => []
  end.

Definition outputIds (o : Output) : list N := map obj_id (outputObjects o).

End Model.

(* ================================================================== *)
(** * Ordinary magnitudes *)
(* ================================================================== *)




(* ================================================================== *)
(** * Invariants *)
(* ================================================================== *)

(** The opacity of a live track is a finite value of [[0.05, 1]]. *)
Definition opacity_ok (t : TrackerState) : Prop :=
  exists q, opacity t = Fin q /\ (0.05 <= q <= 1)%Q.

(** Well-formed states: the registry holds one entry per id, the counter is positive, every id was
    handed out by it (and is not [0]), every live track has a
    bounded opacity, and the label map has exactly the ids of the
    registry. *)
Definition wf (st : VisionState) : Prop :=
  (0 < nextId st)%N /\
  NoDup (Map_keys (trackers st)) /\
  Forall (fun t => (0 < id t < nextId st)%N /\ opacity_ok t) (trackers st) /\
  (forall k, In k (labels st) <-> In k (Map_keys (trackers st))).

(** The same for the locals of an association pass; in addition the
    available trackers are the registry keys, in registry order, that the
    pass has not matched or created so far. *)
Definition assoc_inv (a : AssocState) : Prop :=
  (0 < a_nextId a)%N /\
  NoDup (Map_keys (a_trackers a)) /\
  Forall (fun t => (0 < id t < a_nextId a)%N /\ opacity_ok t) (a_trackers a) /\
  (forall k, In k (a_labels a) <-> In k (Map_keys (a_trackers a))) /\
  availableTrackers a =
    filter (fun k => negb (Set_has (activeIds a) k)) (Map_keys (a_trackers a)) /\
  (forall k, In k (activeIds a) -> In k (Map_keys (a_trackers a))).

(** An id that was handed out and is neither in the registry nor in the
    label map. *)
Definition absent (i : N) (st : VisionState) : Prop :=
  (i < nextId st)%N /\ ~ In i (Map_keys (trackers st)) /\ ~ In i (labels st).

(** The objects of the detector that the worker forwards
    ([videoWorkerScript], [objects.forEach]): persons, and what scores above
    [0.3]. *)
Definition workerForwards (obj : Prediction) : bool :=
  String.eqb (pred_class obj) "person" || (pred_score obj >? Fin 0.3)%js.

(** The detections that pass the confidence floor. *)
Definition accepted (pred : Prediction) : bool :=
  negb (pred_score pred <? Fin 0.2)%js.

(** [new] lies between [cur] and [tgt] and is no farther from [cur] than
    [tgt] is, when [cur] and [tgt] are finite. *)
Definition toward (cur tgt new : number) : Prop :=
  forall c g, cur = Fin c -> tgt = Fin g ->
    exists r, new = Fin r /\
              ((c <= r <= g)%Q \/ (g <= r <= c)%Q) /\
              (Qabs (r - c) <= Qabs (g - c))%Q.

Definition towardV (cur tgt new : Vector3) : Prop :=
  toward (vx cur) (vx tgt) (vx new) /\
  toward (vy cur) (vy tgt) (vy new) /\
  toward (vz cur) (vz tgt) (vz new).

Definition towardBox (cur tgt new : Box) : Prop :=
  toward (box0 cur) (box0 tgt) (box0 new) /\
  toward (box1 cur) (box1 tgt) (box1 new) /\
  toward (box2 cur) (box2 tgt) (box2 new) /\
  toward (box3 cur) (box3 tgt) (box3 new).

(** [lerp] on every coordinate. *)
Definition lerpV (cur tgt : Vector3) (speed : number) : Vector3 :=
  {| vx := lerp (vx cur) (vx tgt) speed;
     vy := lerp (vy cur) (vy tgt) speed;
     vz := lerp (vz cur) (vz tgt) speed |}.

Definition lerpBox (cur tgt : Box) (speed : number) : Box :=
  {| box0 := lerp (box0 cur) (box0 tgt) speed;
     box1 := lerp (box1 cur) (box1 tgt) speed;
     box2 := lerp (box2 cur) (box2 tgt) speed;
     box3 := lerp (box3 cur) (box3 tgt) speed |}.

(** States the component can be in. *)
Inductive reachable (Math_sqrt Math_tan : number -> number) : VisionState -> Prop :=
| reachable_init : reachable Math_sqrt Math_tan initialState
| reachable_step st ev :
    reachable Math_sqrt Math_tan st ->
    reachable Math_sqrt Math_tan (fst (step Math_sqrt Math_tan st ev)).

(* ================================================================== *)
(** * Running the model *)
(* ================================================================== *)

(** Executable stand-ins for the two platform functions, used to evaluate
    the model on concrete inputs. *)

(** [Math.sqrt] to six decimals (rounded down). *)
Definition sqrt_fixed (x : number) : number :=
  match x with
  | Fin q =>
      if Qltb q 0 then NaN
      else Fin (Z.sqrt (Qfloor (q * 1000000000000)) # 1000000)
  | PInf => PInf
  | NInf => NaN
  | NaN => NaN
  end.

(** [Math.tan] by Lambert's continued fraction
    [x / (1 - x^2 / (3 - x^2 / (5 - ...)))], cut after [fuel] levels;
    [tan 37.5deg = 0.767326...] and [tan 75deg = 3.732050...]. *)
Fixpoint lambert_den (fuel : nat) (k x2 : Q) : Q :=
  match fuel with
  | O => k
  | S fuel' => k - x2 / lambert_den fuel' (k + 2) x2
  end.

Definition tan_lambert (x : number) : number :=
  match x with
  | Fin q => Fin (Qred (q / lambert_den 8 1 (q * q)))
  | _ => NaN
  end.

(** The rational [tan_lambert] gives for half the camera's field of view. *)
Definition sampleTan (camera_fov : number) : Q :=
  match tanHalfFov tan_lambert camera_fov with
  | Fin q => q
  | _ => 0
  end.

(** The rational height fraction of a box on a 1280x720 video shown in a
    1280x720 viewport. *)
Definition sampleFraction (bbox : Box) : Q :=
  match screenHeightFraction bbox (Fin 1280) (Fin 720) (Fin 1280) (Fin 720) with
  | Fin q => q
  | _ => 0
  end.

(** The box [[x, y, w, h]]. *)
Definition boxOf (x y w h : Q) : Box :=
  {| box0 := Fin x; box1 := Fin y; box2 := Fin w; box3 := Fin h |}.

(** A detection of class [cls] with score [score] and box [[x, y, w, h]]. *)
Definition detection (cls : string) (score x y w h : Q) : Prediction :=
  {| pred_class := cls; pred_score := Fin score;
     pred_bbox := {| box0 := Fin x; box1 := Fin y; box2 := Fin w; box3 := Fin h |};
     pred_gesture := None |}.

(** A worker result at time [now] in [AUTO] mode with scale factor [1]. *)
Definition resultAt (now : Z) (predictions : list Prediction) : Event :=
  WorkerResult now now AUTO predictions (Fin 1).

(** An animation frame at time [now] on a 1280x720 video in a 1280x720
    window, nothing selected. *)
Definition frameAt (now : Z) : Event :=
  AnimationFrame now (Fin 1280) (Fin 720) (Fin 1280) (Fin 720) [].

(** A tracker with id [i], class [cls], last seen at [seen], of opacity
    [op] and box [[x, y, w, h]], its position still the placeholder. *)
Definition trackAt (i : N) (cls : string) (seen : Z) (op x y w h : Q) : TrackerState :=
  {| id := i; class := cls; isRemote := false; color := 65280%N;
     lastSeenTime := seen; consecutiveMisses := 0; opacity := Fin op;
     lockedBox := {| box0 := Fin x; box1 := Fin y; box2 := Fin w; box3 := Fin h |};
     physics :=
       {| current := {| vx := Fin 0; vy := Fin 0; vz := Fin (-10) |};
          target := {| vx := Fin 0; vy := Fin 0; vz := Fin (-10) |};
          velocity := {| vx := Fin 0; vy := Fin 0; vz := Fin 0 |};
          scale := Fin 0.1 |};
     scanProgress := Fin 0; hasLidarScan := false; gesture := None |}.

(** The state whose registry is [trs], every tracker with its label, the
    next id being [next]; the other refs as at start. *)
Definition stateOf (trs : list TrackerState) (next : N) : VisionState :=
  {| trackers := trs; labels := map id trs; nextId := next;
     lastObjectSet := EmptyString; lastAnalysisTime := 0;
     isMovingFast := false; processingInterval := Fin 200;
     isLidarAvailable := false; fov := Fin 75 |}.

Definition runSample (evs : list Event) : VisionState * list Output :=
  run sqrt_fixed tan_lambert initialState evs.


(* ================================================================== *)
(** * Around the tracking core *)
(* ================================================================== *)

(** The functions the core works with: the rest of
    [src/components/VisionSystem.tsx] (network statistics, frame capture,
    motion detection, label display), the detection worker
    ([videoWorkerScript]) and the zoom and selection handlers of
    [src/App.tsx].  An image patch ([Uint8ClampedArray]) is a list of
    bytes, and a function that can throw returns an [option], [None]
    standing for the exception. *)

(** ** Adaptive cadence ([updateNetworkStats], [sendFrame]) *)

(** [updateNetworkStats]: the new [(networkQualityRef, processingIntervalRef)].
    [downlink] is [None] when [navigator.connection] is missing, and the
    downlink it reports otherwise ([NaN] when it reports none). *)
Definition updateNetworkStats (isMobile : bool) (downlink : option number)
    (networkQuality : number) : number * number :=
  let baseInterval := if isMobile then Fin 300 else Fin 150 in
  match downlink with
  | Some down =>
      if (down <? Fin 2)%js then (Fin 0.3, (baseInterval * Fin 2)%js)
      else if (down <? Fin 5)%js then (Fin 0.6, (baseInterval * Fin 1.5)%js)
      else (Fin 0.8, baseInterval)
  | None => (networkQuality, baseInterval)
  end.

(** [ANALYSIS_WIDTH] of [sendFrame]. *)
Definition ANALYSIS_WIDTH (isMobile : bool) (networkQuality : number) : number :=
  let qualityMultiplier := if (networkQuality <? Fin 0.5)%js then Fin 0.7 else Fin 1.0 in
  if isMobile then Fin 240 else (Fin 320 * qualityMultiplier)%js.

(** The [scaleFactor] posted with a frame: [video.videoWidth / ANALYSIS_WIDTH]. *)
Definition frameScaleFactor (videoWidth : number) (isMobile : bool)
    (networkQuality : number) : number :=
  (videoWidth / ANALYSIS_WIDTH isMobile networkQuality)%js.

(** ** Motion detection ([detectMotion]) *)

(** [data[i]] of a [Uint8ClampedArray], as a number: [undefined], hence
    [NaN] in arithmetic, past the end. *)
Definition byteAt (data : list Byte.byte) (i : nat) : number :=
  match nth_error data i with
  | Some b => Fin (inject_Z (Z.of_N (Byte.to_N b)))
  | None => NaN
  end.

(** Body of the loop [for (i = 0; i < centerData.length; i += 16)], at its
    iteration [k], where [i = 16 * k]. *)
Definition addDiff (centerData previous : list Byte.byte) (diff : number) (k : nat)
    : number :=
  (diff + Math_abs (byteAt centerData (16 * k) - byteAt previous (16 * k)))%js.

Definition frameDiff (centerData previous : list Byte.byte) : number :=
  fold_left (addDiff centerData previous)
            (seq 0 ((List.length centerData + 15) / 16))
            (Fin 0).

(** [detectMotion] on the centre patch [centerData]: the verdict and the
    new [previousFrameDataRef.current]. *)
Definition detectMotion (previousFrameData : option (list Byte.byte))
    (centerData : list Byte.byte) : bool * option (list Byte.byte) :=
  match previousFrameData with
  | Some previous =>
      if (frameDiff centerData previous >? Fin 50000)%js
      then (true, Some previous)
      else (false, Some centerData)
  | None => (false, Some centerData)
  end.

(** ** The worker ([videoWorkerScript]) *)

Record Keypoint : Type := mkKeypoint { kp_x : number; kp_y : number }.

Record Hand : Type := mkHand { hand_score : number; hand_keypoints : list Keypoint }.

(** [keypoints[tipIdx].y < keypoints[dipIdx].y]; reading [.y] of a missing
    keypoint throws, which is [None]. *)
Definition isFingerUp (keypoints : list Keypoint) (tipIdx dipIdx : nat) : option bool :=
  match nth_error keypoints tipIdx, nth_error keypoints dipIdx with
  | Some tip, Some dip => Some (kp_y tip <? kp_y dip)%js
  | _, _ => None
  end.

(** [recognizeGesture]; [None] when it throws. *)
Definition recognizeGesture (keypoints : list Keypoint) : option string :=
  match isFingerUp keypoints 4 3, isFingerUp keypoints 8 6,
        isFingerUp keypoints 12 10, isFingerUp keypoints 16 14,
        isFingerUp keypoints 20 18 with
  | Some thumbUp, Some indexUp, Some middleUp, Some ringUp, Some pinkyUp =>
      let upCount :=
        ((if indexUp then 1 else 0) + (if middleUp then 1 else 0)
         + (if ringUp then 1 else 0) + (if pinkyUp then 1 else 0))%nat in
      Some
        (if Nat.eqb upCount 4 && thumbUp then "OPEN PALM"
         else if Nat.eqb upCount 0 && negb thumbUp then "FIST"
         else if indexUp && negb middleUp && negb ringUp && negb pinkyUp then "POINTING"
         else if indexUp && middleUp && negb ringUp && negb pinkyUp then "VICTORY"
         else if thumbUp && negb indexUp && negb middleUp && negb ringUp && negb pinkyUp
              then "THUMBS UP"
         else "UNKNOWN")%string
  | _, _, _, _, _ => None
  end.

(** The running [(minX, minY, maxX, maxY)] of the keypoint loop. *)
Definition extendBounds (b : number * number * number * number) (kp : Keypoint)
    : number * number * number * number :=
  let '(minX, minY, maxX, maxY) := b in
  let minX := if (kp_x kp <? minX)%js then kp_x kp else minX in
  let minY := if (kp_y kp <? minY)%js then kp_y kp else minY in
  let maxX := if (kp_x kp >? maxX)%js then kp_x kp else maxX in
  let maxY := if (kp_y kp >? maxY)%js then kp_y kp else maxY in
  (minX, minY, maxX, maxY).

Definition keypointBounds (keypoints : list Keypoint)
    : number * number * number * number :=
  fold_left extendBounds keypoints (Fin 10000, Fin 10000, Fin 0, Fin 0).

(** [[minX, minY, width, height]]. *)
Definition handBox (keypoints : list Keypoint) : Box :=
  let '(minX, minY, maxX, maxY) := keypointBounds keypoints in
  {| box0 := minX; box1 := minY; box2 := (maxX - minX)%js; box3 := (maxY - minY)%js |}.

(** The prediction pushed for a hand that scores above [0.5]; [None] when
    the callback throws (no first keypoint to destructure, or
    [recognizeGesture] throws). *)
Definition handPrediction (hand : Hand) : option Prediction :=
  match hand_keypoints hand with
  | [] => None
  | _ :: _ =>
      match recognizeGesture (hand_keypoints hand) with
      | Some gesture =>
          Some {| pred_class := "hand"; pred_score := hand_score hand;
                  pred_bbox := handBox (hand_keypoints hand);
                  pred_gesture := Some gesture |}
      | None => None
      end
  end.

(** [hands.forEach]: the predictions of the hands that score above [0.5],
    or [None] as soon as one of them throws. *)
Fixpoint handPredictions (hands : list Hand) : option (list Prediction) :=
  match hands with
  | [] => Some []
  | hand :: hands' =>
      if (hand_score hand >? Fin 0.5)%js then
        match handPrediction hand, handPredictions hands' with
        | Some p, Some ps => Some (p :: ps)
        | _, _ => None
        end
      else handPredictions hands'
  end.

(** The [predictions] of a [detect] message, from what the two models
    return; [None] when the [try] block ends in [catch] and nothing is
    posted. *)
Definition collectPredictions (objects : list Prediction) (hands : list Hand)
    : option (list Prediction) :=
  match handPredictions hands with
  | Some ps => Some (filter workerForwards objects ++ ps)
  | None => None
  end.

(** ** Zoom ([handleManualZoom] and [setZoomInterest] of the application, the
    zoom effect of the component) *)

(** [Math.max (0.5, Math.min (4, level))]. *)
Definition clampZoom (level : number) : number :=
  Math_max (Fin 0.5) (Math_min (Fin 4) level).

Definition handleManualZoom (level delta : number) : number :=
  clampZoom (level + delta)%js.

(** [cameraRef.current.fov = 75 / zoomState.level]. *)
Definition zoomFov (level : number) : number := (Fin 75 / level)%js.

(** ** Target selection (the [selectTarget] tool call of the application) *)







(** ** Label display (second loop of [updateVisualsAndPhysics]) *)

(** [tracker.displayDist ? tracker.displayDist * 0.9 + dist * 0.1 : dist]. *)
Definition smoothDisplayDist (displayDist dist : number) : number :=
  if truthy displayDist then (displayDist * Fin 0.9 + dist * Fin 0.1)%js else dist.

(** [Math.max (0.4, dist / 6)]. *)
Definition labelScale (dist : number) : number :=
  Math_max (Fin 0.4) (dist / Fin 6)%js.

(** The colour of the brackets of a label: the tracker's own, unless the
    object is selected ([0xFF0000]), a hand ([0xFFD700]) or measured with
    lidar ([0x00FFFF]). *)
Definition labelColor (tracker : TrackerState) (obj : TrackedObject) (lidar : bool) : N :=
  if obj_isSelected obj then 16711680%N
  else if String.eqb (obj_class obj) "hand" then 16766720%N
  else if lidar then 65535%N
  else color tracker.

(* ================================================================== *)
(** * More invariants and sample data *)
(* ================================================================== *)

(** The fields nothing ever moves from the values [newTracker] gives
    them. *)
Definition pristine (t : TrackerState) : Prop :=
  scanProgress t = Fin 0 /\ consecutiveMisses t = 0%N /\ isRemote t = false /\
  velocity (physics t) = {| vx := Fin 0; vy := Fin 0; vz := Fin 0 |} /\
  scale (physics t) = Fin 0.1 /\
  color t = (if String.eqb (class t) "hand" then 16766720%N else 65280%N).

(** [b] is not nearer to the camera than [a]: the camera looks down the
    negative [z] axis, so the greater [z] is the nearer one. *)
Definition nearerFirst (a b : TrackedObject) : Prop :=
  leb (vz (obj_position3D b)) (vz (obj_position3D a)) = true.

Definition finiteDepth (o : TrackedObject) : Prop :=
  exists q, vz (obj_position3D o) = Fin q.

(** The times ([Date.now ()] inside [checkSceneChange]) of the worker
    results of a run that made an [onSceneChange] call, given the events
    and the outputs of the run. *)
Fixpoint emissionTimes (evs : list Event) (outs : list Output) : list Z :=
  match evs, outs with
  | WorkerResult _ nowCheck _ _ _ :: evs', SceneOut (Some _) :: outs' =>
      nowCheck :: emissionTimes evs' outs'
  | _ :: evs', _ :: outs' => emissionTimes evs' outs'
  | _, _ => []
  end.

(** The iterations of the loop of [detectMotion] at which the two patches
    do not hold the same byte (or one of them holds none). *)
Definition changedSamples (centerData previous : list Byte.byte) : list nat :=
  filter (fun k =>
            match nth_error centerData (16 * k), nth_error previous (16 * k) with
            | Some a, Some b => negb (Byte.eqb a b)
            | _, _ => true
            end)
         (seq 0 ((List.length centerData + 15) / 16)).

(** Finite numbers, positive finite numbers, boxes of finite numbers. *)
Definition isFinite (x : number) : bool :=
  match x with Fin _ => true | _ => false end.

Definition isPositive (x : number) : bool :=
  match x with Fin q => Qltb 0 q | _ => false end.

Definition finiteBox (b : Box) : bool :=
  isFinite (box0 b) && isFinite (box1 b) && isFinite (box2 b) && isFinite (box3 b).

(** The boolean forms of [moderate], [pixels] and [moderateTan]. *)
Definition isModerate (x : number) : bool :=
  match x with
  | Fin q => Qle_bool (- (1000000)) q && Qle_bool q 1000000
  | _ => false
  end.

Definition isPixels (x : number) : bool :=
  match x with
  | Fin q => Qle_bool 1 q && Qle_bool q 1000000
  | _ => false
  end.

Definition isModerateTan (x : number) : bool :=
  match x with
  | Fin q => Qle_bool (1 # 1000) q && Qle_bool q 1000
  | _ => false
  end.

Definition moderateBox (b : Box) : bool :=
  isModerate (box0 b) && isModerate (box1 b) && isModerate (box2 b) && isModerate (box3 b).

(** A prediction with a box of ordinary magnitude and a class that does
    not name an inherited property. *)
Definition orderlyPrediction (p : Prediction) : bool :=
  moderateBox (pred_bbox p) && negb (inheritedClass (pred_class p)).

(** The events of an orderly environment: worker results whose predictions
    are orderly, with a scale factor of ordinary magnitude; frames whose
    video and window dimensions are between one pixel and a million;
    fields of view whose half has a tangent between a thousandth and a
    thousand. *)
Definition orderly (Math_tan : number -> number) (ev : Event) : bool :=
  match ev with
  | WorkerResult _ _ _ predictions scaleFactor =>
      isModerate scaleFactor && forallb orderlyPrediction predictions
  | AnimationFrame _ videoWidth videoHeight innerWidth innerHeight _ =>
      isPixels (or_else videoWidth (Fin 1280)) &&
      isPixels (or_else videoHeight (Fin 720)) &&
      isPixels innerWidth && isPixels innerHeight
  | Environment _ _ _ camera_fov => isModerateTan (tanHalfFov Math_tan camera_fov)
  end.

(** A track whose class does not name an inherited property, with a finite
    box and a finite position at a depth in [[1.5, 50]]. *)
Definition placed (t : TrackerState) : Prop :=
  inheritedClass (class t) = false /\
  finiteBox (lockedBox t) = true /\
  exists x y z, current (physics t) = {| vx := Fin x; vy := Fin y; vz := Fin z |} /\
                (-50 <= z <= -1.5)%Q.


(** A keypoint at [(x, y)]. *)
Definition keypointAt (x y : Q) : Keypoint := {| kp_x := Fin x; kp_y := Fin y |}.

(** Twenty-one keypoints, all at height [200] except the tips of the index
    and of the middle finger, at height [100]. *)
Definition victoryHand : list Keypoint :=
  map (fun i => keypointAt (100 + inject_Z (Z.of_nat i))
                           (if Nat.eqb i 8 || Nat.eqb i 12 then 100 else 200))
      (seq 0 21).
(* ================================================================== *)
(** * Facts about numbers *)
(* ================================================================== *)

Lemma Qltb_lt (a b : Q) : Qltb a b = true <-> (a < b)%Q.
Proof.
  unfold Qltb. rewrite negb_true_iff.
  split; intros H.
  - apply Qnot_le_lt. intros Hle. apply Qle_bool_iff in Hle. congruence.
  - apply not_true_is_false. intros Hle. apply Qle_bool_iff in Hle.
    apply (Qlt_not_le _ _ H Hle).
Qed.

Lemma Qltb_ge (a b : Q) : Qltb a b = false <-> (b <= a)%Q.
Proof.
  unfold Qltb. rewrite negb_false_iff. apply Qle_bool_iff.
Qed.

Lemma Qleb_gt (a b : Q) : Qle_bool a b = false <-> (b < a)%Q.
Proof.
  split; intros H.
  - apply Qnot_le_lt. intros Hle. apply Qle_bool_iff in Hle. congruence.
  - apply not_true_is_false. intros Hle. apply Qle_bool_iff in Hle.
    apply (Qlt_not_le _ _ H Hle).
Qed.

Ltac num_cases :=
  repeat match goal with
         | x : number |- _ => destruct x
         end;
  simpl in *; try discriminate; try reflexivity.

Ltac q_bools :=
  repeat match goal with
         | H : Qltb _ _ = true |- _ => apply Qltb_lt in H
         | H : Qltb _ _ = false |- _ => apply Qltb_ge in H
         | H : Qle_bool _ _ = true |- _ => apply Qle_bool_iff in H
         | H : Qle_bool _ _ = false |- _ => apply Qleb_gt in H
         | |- Qltb _ _ = true => apply Qltb_lt
         | |- Qltb _ _ = false => apply Qltb_ge
         | |- Qle_bool _ _ = true => apply Qle_bool_iff
         | |- Qle_bool _ _ = false => apply Qleb_gt
         end.

Lemma ltb_irrefl (x : number) : (x <? x)%js = false.
Proof. num_cases. q_bools. lra. Qed.

Lemma ltb_trans (x y z : number) :
  (x <? y)%js = true -> (y <? z)%js = true -> (x <? z)%js = true.
Proof. intros H1 H2. num_cases. q_bools. lra. Qed.

Lemma leb_ltb_trans (x y z : number) :
  leb x y = true -> (y <? z)%js = true -> (x <? z)%js = true.
Proof. intros H1 H2. num_cases. q_bools. lra. Qed.

Lemma ltb_leb (x y : number) : (x <? y)%js = true -> leb x y = true.
Proof. intros H. num_cases. q_bools. lra. Qed.


(* ================================================================== *)
(** * Facts about the registry *)
(* ================================================================== *)

Lemma Map_get_In m k t : Map_get m k = Some t -> In t m /\ id t = k.
Proof.
  induction m as [|u m IH]; simpl; [discriminate|].
  destruct (N.eqb_spec (id u) k) as [E|E]; intros H.
  - inversion H; subst. auto.
  - destruct (IH H); auto.
Qed.

Lemma Map_get_None m k : Map_get m k = None <-> ~ In k (Map_keys m).
Proof.
  induction m as [|u m IH]; simpl; [tauto|].
  destruct (N.eqb_spec (id u) k) as [E|E].
  - split; [discriminate|]. intros H; exfalso; apply H; auto.
  - rewrite IH. tauto.
Qed.

Lemma In_Map_get m t : NoDup (Map_keys m) -> In t m -> Map_get m (id t) = Some t.
Proof.
  induction m as [|u m IH]; simpl; [tauto|]. intros Hnd [E|Hin].
  - subst. now rewrite N.eqb_refl.
  - inversion Hnd as [|? ? Hni Hnd']; subst.
    destruct (N.eqb_spec (id u) (id t)) as [E|E].
    + exfalso. apply Hni. rewrite E. now apply in_map.
    + auto.
Qed.

Lemma Map_set_fresh m k v : ~ In k (Map_keys m) -> Map_set m k v = m ++ [v].
Proof.
  induction m as [|u m IH]; simpl; [reflexivity|]. intros H.
  destruct (N.eqb_spec (id u) k) as [E|E]; [tauto|].
  rewrite IH; tauto.
Qed.

Lemma Map_set_split pre t rest v :
  ~ In (id t) (Map_keys pre) ->
  Map_set (pre ++ t :: rest) (id t) v = pre ++ v :: rest.
Proof.
  induction pre as [|u pre IH]; simpl; intros H.
  - now rewrite N.eqb_refl.
  - destruct (N.eqb_spec (id u) (id t)) as [E|E]; [tauto|].
    rewrite IH; tauto.
Qed.

Lemma Map_delete_split pre t rest :
  ~ In (id t) (Map_keys pre) -> ~ In (id t) (Map_keys rest) ->
  Map_delete (pre ++ t :: rest) (id t) = pre ++ rest.
Proof.
  intros Hp Hr. unfold Map_delete. rewrite filter_app. simpl.
  rewrite N.eqb_refl. simpl.
  assert (Hf : forall l, ~ In (id t) (Map_keys l) ->
                         filter (fun t0 => negb (id t0 =? id t)%N) l = l).
  { induction l as [|u l IH]; simpl; [reflexivity|]. intros H.
    destruct (N.eqb_spec (id u) (id t)) as [E|E]; [tauto|].
    simpl. rewrite IH; tauto. }
  now rewrite !Hf.
Qed.

Lemma Map_get_set_same m k v : id v = k -> Map_get (Map_set m k v) k = Some v.
Proof.
  intros Hv. induction m as [|u m IH]; simpl.
  - rewrite Hv. now rewrite N.eqb_refl.
  - destruct (N.eqb_spec (id u) k) as [E|E]; simpl.
    + rewrite Hv. now rewrite N.eqb_refl.
    + destruct (N.eqb_spec (id u) k); [contradiction|assumption].
Qed.

Lemma Map_get_set_other m k k' v :
  id v = k -> k' <> k -> Map_get (Map_set m k v) k' = Map_get m k'.
Proof.
  intros Hv Hk. induction m as [|u m IH]; simpl.
  - destruct (N.eqb_spec (id v) k'); [congruence|reflexivity].
  - destruct (N.eqb_spec (id u) k) as [E|E]; simpl.
    + destruct (N.eqb_spec (id v) k'); [congruence|].
      destruct (N.eqb_spec (id u) k'); [congruence|reflexivity].
    + destruct (N.eqb_spec (id u) k'); [reflexivity|assumption].
Qed.


Lemma Set_has_In s k : Set_has s k = true <-> In k s.
Proof.
  unfold Set_has. rewrite existsb_exists. split.
  - intros [x [Hx E]]. apply N.eqb_eq in E. now subst.
  - intros H. exists k. split; [assumption|apply N.eqb_refl].
Qed.

Lemma Set_delete_In s k x : In x (Set_delete s k) <-> In x s /\ x <> k.
Proof.
  unfold Set_delete. rewrite filter_In, negb_true_iff, N.eqb_neq. tauto.
Qed.

Lemma fold_Set_delete_In ks : forall s x,
  In x (fold_left Set_delete ks s) <-> In x s /\ ~ In x ks.
Proof.
  induction ks as [|k ks IH]; intros s x; simpl.
  - tauto.
  - rewrite IH, Set_delete_In. intuition.
Qed.

(* ================================================================== *)
(** * One tick, tracker by tracker *)
(* ================================================================== *)

Section Tick.

Variable Math_tan : number -> number.
Variables (st : VisionState) (now : Z) (videoW videoH width height : number).
Variable localObjects : list TrackedObject.

Lemma tickResult_id t t' :
  tickResult Math_tan st now videoW videoH width height t = Some t' -> id t' = id t.
Proof.
  unfold tickResult. destruct (evicts _ _); [discriminate|].
  intros H; inversion H. reflexivity.
Qed.

Lemma survivors_In trs t' :
  In t' (survivors Math_tan st now videoW videoH width height trs) <->
  exists t, In t trs /\ tickResult Math_tan st now videoW videoH width height t = Some t'.
Proof.
  unfold survivors. rewrite in_flat_map. split.
  - intros [t [Hin H]]. exists t. split; [assumption|].
    destruct (tickResult _ _ _ _ _ _ _ t); simpl in H; [|tauto].
    destruct H as [H|[]]. now subst.
  - intros [t [Hin H]]. exists t. split; [assumption|]. rewrite H. now left.
Qed.

Lemma evictedIds_In trs k :
  In k (evictedIds Math_tan st now videoW videoH width height trs) <->
  exists t, In t trs /\ id t = k /\
            tickResult Math_tan st now videoW videoH width height t = None.
Proof.
  unfold evictedIds. rewrite in_flat_map. split.
  - intros [t [Hin H]]. exists t. split; [assumption|].
    destruct (tickResult _ _ _ _ _ _ _ t); simpl in H; [tauto|].
    destruct H as [H|[]]. auto.
  - intros [t [Hin [E H]]]. exists t. split; [assumption|]. rewrite H. now left.
Qed.


Lemma survivors_keys_incl trs k :
  In k (Map_keys (survivors Math_tan st now videoW videoH width height trs)) ->
  In k (Map_keys trs).
Proof.
  unfold Map_keys. rewrite !in_map_iff. intros [t' [E Hin]].
  apply survivors_In in Hin. destruct Hin as [t [Hin Hr]].
  exists t. split; [|assumption]. rewrite <- E. symmetry. eapply tickResult_id; eauto.
Qed.

Lemma survivors_NoDup trs :
  NoDup (Map_keys trs) ->
  NoDup (Map_keys (survivors Math_tan st now videoW videoH width height trs)).
Proof.
  induction trs as [|t trs IH]; simpl; intros Hnd; [constructor|].
  inversion Hnd as [|? ? Hni Hnd']; subst.
  destruct (tickResult _ _ _ _ _ _ _ t) eqn:E; simpl; [|auto].
  constructor; [|auto].
  intros Hin. apply survivors_keys_incl in Hin.
  apply tickResult_id in E. rewrite E in Hin. contradiction.
Qed.

Lemma tick_fold rest : forall pre lbls out,
  NoDup (Map_keys (pre ++ rest)) ->
  fold_left (tickTracker Math_tan st now videoW videoH width height localObjects) rest
            {| k_trackers := pre ++ rest; k_labels := lbls; nextLocalObjects := out |}
  = {| k_trackers := pre ++ survivors Math_tan st now videoW videoH width height rest;
       k_labels :=
         fold_left Set_delete
                   (evictedIds Math_tan st now videoW videoH width height rest) lbls;
       nextLocalObjects :=
         out ++ map (toObject st now localObjects)
                    (survivors Math_tan st now videoW videoH width height rest) |}.
Proof.
  induction rest as [|t rest IH]; intros pre lbls out Hnd; simpl.
  - now rewrite !app_nil_r.
  - unfold Map_keys in Hnd. rewrite map_app in Hnd. simpl in Hnd.
    pose proof (NoDup_remove_2 _ _ _ Hnd) as Hni.
    pose proof (NoDup_remove_1 _ _ _ Hnd) as Hnd'.
    rewrite in_app_iff in Hni.
    unfold tickTracker at 2. unfold tickResult. cbv zeta.
    set (t1 := advanceTracker Math_tan st now videoW videoH width height t).
    cbn [k_trackers k_labels nextLocalObjects].
    change (id t1) with (id t).
    destruct (evicts now t1) eqn:Ev.
    + unfold removeTracker. cbn [k_trackers k_labels nextLocalObjects].
      rewrite Map_set_split by tauto.
      change (id t) with (id t1) at 1.
      rewrite Map_delete_split by (change (id t1) with (id t); tauto).
      rewrite IH by (unfold Map_keys; rewrite map_app; exact Hnd').
      simpl. reflexivity.
    + change (id (advanceScan t1)) with (id t).
      rewrite Map_set_split by tauto.
      change (pre ++ advanceScan t1 :: rest) with (pre ++ [advanceScan t1] ++ rest).
      rewrite app_assoc.
      rewrite IH.
      * simpl. rewrite <- !app_assoc. reflexivity.
      * unfold Map_keys. rewrite !map_app. simpl. rewrite <- app_assoc. simpl. exact Hnd.
Qed.

End Tick.

(** The tick on a registry without duplicate keys: every tracker is
    rewritten or evicted on its own. *)
Lemma tick_spec Math_tan st now videoWidth videoHeight width height localObjects :
  NoDup (Map_keys (trackers st)) ->
  let videoW := or_else videoWidth (Fin 1280) in
  let videoH := or_else videoHeight (Fin 720) in
  updateVisualsAndPhysics Math_tan st now videoWidth videoHeight width height localObjects
  = ({| trackers := survivors Math_tan st now videoW videoH width height (trackers st);
        labels :=
          fold_left Set_delete
                    (evictedIds Math_tan st now videoW videoH width height (trackers st))
                    (labels st);
        nextId := nextId st;
        lastObjectSet := lastObjectSet st; lastAnalysisTime := lastAnalysisTime st;
        isMovingFast := isMovingFast st;
        processingInterval := processingInterval st;
        isLidarAvailable := isLidarAvailable st; fov := fov st |},
     sortObjects
       (map (toObject st now localObjects)
            (survivors Math_tan st now videoW videoH width height (trackers st)))).
Proof.
  intros Hnd videoW videoH. unfold updateVisualsAndPhysics. cbv zeta.
  fold videoW videoH.
  pose proof (tick_fold Math_tan st now videoW videoH width height localObjects
                        (trackers st) [] (labels st) [] Hnd) as H.
  simpl in H. rewrite H. reflexivity.
Qed.

Lemma insertObject_In o l x : In x (insertObject o l) <-> x = o \/ In x l.
Proof.
  induction l as [|o' l IH]; simpl.
  - intuition.
  - match goal with |- context [if ?c then _ else _] => destruct c end;
      simpl; [rewrite IH|]; intuition.
Qed.

Lemma sortObjects_In l x : In x (sortObjects l) <-> In x l.
Proof.
  induction l as [|o l IH]; simpl; [tauto|].
  rewrite insertObject_In, IH. intuition.
Qed.

(* ================================================================== *)
(** * The nearest-neighbour search *)
(* ================================================================== *)

Section Search.

Variable Math_sqrt : number -> number.
Variables (trs : list TrackerState) (cls : string) (scaledBbox : Box).

Let dist (t : TrackerState) : number := cornerDist Math_sqrt scaledBbox (lockedBox t).

(** What [findBest] returns: nothing when no available tracker of the class
    is strictly inside the distance gate; otherwise a tracker strictly
    inside it that no available tracker of the class beats, and that every
    earlier one of the iteration is strictly farther than. *)
Lemma findBest_spec (avail : list N) :
  match findBest Math_sqrt trs avail cls scaledBbox with
  | (None, bestDist) =>
      bestDist = Fin 200 /\
      forall tid t, In tid avail -> Map_get trs tid = Some t -> class t = cls ->
                    (dist t <? Fin 200)%js = false
  | (Some tid, bestDist) =>
      exists av1 av2 t,
        avail = av1 ++ tid :: av2 /\
        Map_get trs tid = Some t /\ class t = cls /\
        bestDist = dist t /\ (dist t <? Fin 200)%js = true /\
        (forall tid' t', In tid' av1 -> Map_get trs tid' = Some t' -> class t' = cls ->
                         leb (dist t') (dist t) = false) /\
        (forall tid' t', In tid' av2 -> Map_get trs tid' = Some t' -> class t' = cls ->
                         (dist t' <? dist t)%js = false)
  end.
Proof.
  unfold findBest.
  induction avail as [|x avail IH] using rev_ind.
  - simpl. split; [reflexivity|]. intros ? ? [].
  - rewrite fold_left_app. simpl.
    destruct (fold_left _ avail _) as [bestId bestDist] eqn:Ef.
    unfold bestStep at 1. cbn [snd].
    destruct (Map_get trs x) as [tx|] eqn:Ex.
    2:{ (* no such tracker: the step is skipped *)
      destruct bestId as [tid|].
      - destruct IH as (av1 & av2 & t & -> & Hg & Hc & Hd & Hlt & H1 & H2).
        exists av1, (av2 ++ [x]), t. rewrite <- app_assoc. simpl.
        repeat split; auto.
        intros tid' t' Hin Hg' Hc'. apply in_app_iff in Hin.
        destruct Hin as [Hin|[<-|[]]]; [eauto|congruence].
      - destruct IH as [-> H]. split; [reflexivity|].
        intros tid t Hin Hg Hc. apply in_app_iff in Hin.
        destruct Hin as [Hin|[<-|[]]]; [eauto|congruence]. }
    destruct (String.eqb_spec (class tx) cls) as [Ec|Ec]; simpl.
    2:{ (* another class: skipped *)
      destruct bestId as [tid|].
      - destruct IH as (av1 & av2 & t & -> & Hg & Hc & Hd & Hlt & H1 & H2).
        exists av1, (av2 ++ [x]), t. rewrite <- app_assoc. simpl.
        repeat split; auto.
        intros tid' t' Hin Hg' Hc'. apply in_app_iff in Hin.
        destruct Hin as [Hin|[<-|[]]]; [eauto|congruence].
      - destruct IH as [-> H]. split; [reflexivity|].
        intros tid t Hin Hg Hc. apply in_app_iff in Hin.
        destruct Hin as [Hin|[<-|[]]]; [eauto|congruence]. }
    fold (dist tx).
    destruct (dist tx <? bestDist)%js eqn:El.
    + (* strictly closer than the best so far: it becomes the best *)
      exists avail, [], tx. repeat split; auto.
      * destruct bestId as [tid|].
        -- destruct IH as (av1 & av2 & t & -> & Hg & Hc & Hd & Hlt & H1 & H2).
           subst bestDist. eapply ltb_trans; eauto.
        -- destruct IH as [-> _]. exact El.
      * intros tid' t' Hin Hg' Hc'.
        destruct (leb (dist t') (dist tx)) eqn:Ele; [|reflexivity].
        pose proof (leb_ltb_trans _ _ _ Ele El) as Hlt'.
        destruct bestId as [tid|].
        -- destruct IH as (av1 & av2 & t & -> & Hg & Hc & -> & Hlt & H1 & H2).
           apply in_app_iff in Hin. destruct Hin as [Hin|[<-|Hin]].
           ++ apply ltb_leb in Hlt'. rewrite (H1 _ _ Hin Hg' Hc') in Hlt'. discriminate.
           ++ assert (t' = t) by congruence. subst t'.
              rewrite ltb_irrefl in Hlt'. discriminate.
           ++ rewrite (H2 _ _ Hin Hg' Hc') in Hlt'. discriminate.
        -- destruct IH as [-> H]. rewrite (H _ _ Hin Hg' Hc') in Hlt'. discriminate.
      * intros ? ? [].
    + (* not closer: the best so far stays *)
      destruct bestId as [tid|].
      * destruct IH as (av1 & av2 & t & -> & Hg & Hc & -> & Hlt & H1 & H2).
        exists av1, (av2 ++ [x]), t. rewrite <- app_assoc. simpl.
        repeat split; auto.
        intros tid' t' Hin Hg' Hc'. apply in_app_iff in Hin.
        destruct Hin as [Hin|[<-|[]]]; [eauto|].
        assert (t' = tx) by congruence. subst t'. exact El.
      * destruct IH as [-> H]. split; [reflexivity|].
        intros tid t Hin Hg Hc. apply in_app_iff in Hin.
        destruct Hin as [Hin|[<-|[]]]; [eauto|].
        assert (t = tx) by congruence. subst t. exact El.
Qed.

(** The id [findBest] returns is an available key of the registry. *)
Lemma findBest_lookup (avail : list N) tid :
  fst (findBest Math_sqrt trs avail cls scaledBbox) = Some tid ->
  In tid avail /\ exists t, Map_get trs tid = Some t /\ class t = cls.
Proof.
  pose proof (findBest_spec avail) as H.
  destruct (findBest _ _ _ _ _) as [[tid'|] d]; simpl; intros E; [|discriminate].
  inversion E; subst.
  destruct H as (av1 & av2 & t & -> & Hg & Hc & _).
  split; [apply in_app_iff; right; now left|eauto].
Qed.

End Search.

(* ================================================================== *)
(** * One detection of a batch *)
(* ================================================================== *)

Lemma filter_keys_split (p : N -> bool) (trs : list TrackerState) : forall av1 tid av2,
  filter p (Map_keys trs) = av1 ++ tid :: av2 ->
  exists l1 t l2,
    trs = l1 ++ t :: l2 /\ id t = tid /\
    av1 = filter p (Map_keys l1) /\ av2 = filter p (Map_keys l2).
Proof.
  induction trs as [|u trs IH]; simpl; intros av1 tid av2 H.
  - destruct av1; discriminate.
  - destruct (p (id u)) eqn:Ep.
    + destruct av1 as [|k av1]; simpl in H.
      * inversion H; subst. exists [], u, trs. simpl. auto.
      * inversion H; subst.
        destruct (IH _ _ _ H2) as (l1 & t & l2 & -> & Hid & -> & ->).
        exists (u :: l1), t, l2. simpl. rewrite Ep. auto.
    + destruct (IH _ _ _ H) as (l1 & t & l2 & -> & Hid & -> & ->).
      exists (u :: l1), t, l2. simpl. rewrite Ep. auto.
Qed.

Lemma NoDup_snoc (A : Type) (l : list A) (x : A) :
  NoDup l -> ~ In x l -> NoDup (l ++ [x]).
Proof.
  induction l as [|y l IH]; simpl; intros Hnd Hni.
  - constructor; [tauto|constructor].
  - inversion Hnd; subst. constructor.
    + rewrite in_app_iff. simpl. intuition.
    + apply IH; tauto.
Qed.

Lemma Set_has_app s k x :
  Set_has (s ++ [k]) x = Set_has s x || N.eqb x k.
Proof.
  unfold Set_has. rewrite existsb_app. simpl. now rewrite orb_false_r.
Qed.

Lemma Set_add_fresh s k : ~ In k s -> Set_add s k = s ++ [k].
Proof.
  intros H. unfold Set_add. destruct (Set_has s k) eqn:E; [|reflexivity].
  apply Set_has_In in E. contradiction.
Qed.

Lemma opacity_ok_one (t : TrackerState) : opacity t = Fin 1.0 -> opacity_ok t.
Proof.
  intros H. exists 1.0%Q. split; [assumption|]. split; unfold Qle; simpl; lia.
Qed.

Section Detection.

Variable Math_sqrt : number -> number.
Variables (now : Z) (interval : number) (lidar : bool) (scaleFactor : number).

Let process := processPrediction Math_sqrt now interval lidar scaleFactor.

(** A detection under the confidence floor changes nothing. *)
Lemma processPrediction_low a pred :
  (pred_score pred <? Fin 0.2)%js = true -> process a pred = a.
Proof.
  intros H. unfold process, processPrediction. now rewrite H.
Qed.

(** The candidates of a detection: the trackers of the registry that the
    pass has neither matched nor created so far and whose class is the
    detection's. *)
Let candidate (a : AssocState) (pred : Prediction) (t : TrackerState) : Prop :=
  In t (a_trackers a) /\ ~ In (id t) (activeIds a) /\ class t = pred_class pred.

(** What an accepted detection does to the pass. *)
Lemma processPrediction_spec a pred :
  assoc_inv a ->
  (pred_score pred <? Fin 0.2)%js = false ->
  let scaledBbox := scaleBox (pred_bbox pred) scaleFactor in
  let dist t := cornerDist Math_sqrt scaledBbox (lockedBox t) in
  let lerpFactor := if (interval >? Fin 300)%js then Fin 0.5 else Fin 0.4 in
  let a' := process a pred in
  currentClasses a' = currentClasses a ++ [pred_class pred] /\
  ((exists l1 t l2,
      a_trackers a = l1 ++ t :: l2 /\ candidate a pred t /\
      (dist t <? Fin 200)%js = true /\
      (forall t', In t' l1 -> candidate a pred t' -> leb (dist t') (dist t) = false) /\
      (forall t', In t' l2 -> candidate a pred t' -> (dist t' <? dist t)%js = false) /\
      a_trackers a' = l1 ++ matchUpdate now lerpFactor scaledBbox pred t :: l2 /\
      a_labels a' = a_labels a /\ a_nextId a' = a_nextId a /\
      availableTrackers a' = Set_delete (availableTrackers a) (id t) /\
      activeIds a' = activeIds a ++ [id t])
   \/
   ((forall t, candidate a pred t -> (dist t <? Fin 200)%js = false) /\
    ~ In (a_nextId a) (Map_keys (a_trackers a)) /\
    a_trackers a' =
      a_trackers a ++ [newTracker now lidar (a_nextId a) scaledBbox pred] /\
    a_labels a' = a_labels a ++ [a_nextId a] /\
    a_nextId a' = (a_nextId a + 1)%N /\
    availableTrackers a' = availableTrackers a /\
    activeIds a' = activeIds a ++ [a_nextId a])).
Proof.
  intros (Hnx & Hnd & Hall & Hlab & Hav & Hact) Hscore scaledBbox dist lerpFactor a'.
  subst a'. unfold process, processPrediction. rewrite Hscore. cbv zeta.
  fold scaledBbox.
  pose proof (findBest_spec Math_sqrt (a_trackers a) (pred_class pred) scaledBbox
                            (availableTrackers a)) as Hspec.
  assert (Hfresh : ~ In (a_nextId a) (Map_keys (a_trackers a))).
  { intros Hin. unfold Map_keys in Hin. apply in_map_iff in Hin.
    destruct Hin as [t [E Hin]]. rewrite Forall_forall in Hall.
    destruct (Hall _ Hin) as [? _]. lia. }
  assert (Hcand : forall t, candidate a pred t ->
                            In (id t) (availableTrackers a) /\
                            Map_get (a_trackers a) (id t) = Some t).
  { intros t (Hin & Hna & Hc). split.
    - rewrite Hav. apply filter_In. split; [now apply in_map|].
      apply negb_true_iff. apply not_true_is_false. rewrite Set_has_In. exact Hna.
    - now apply In_Map_get. }
  destruct (findBest _ _ _ _ _) as [[tid|] bestDist]; cbn [fst truthyId].
  - (* a candidate inside the distance gate *)
    destruct Hspec as (av1 & av2 & t & Havs & Hg & Hc & Hd & Hlt & H1 & H2).
    destruct (Map_get_In _ _ Hg) as [Hin Hid].
    assert (Hpos : tid <> 0%N).
    { rewrite Forall_forall in Hall. destruct (Hall _ Hin) as [? _]. lia. }
    apply N.eqb_neq in Hpos. rewrite Hpos, Hg. cbn.
    rewrite Hav in Havs.
    destruct (filter_keys_split _ _ _ _ _ Havs) as (l1 & t0 & l2 & Etr & Hid0 & -> & ->).
    assert (t0 = t).
    { assert (Map_get (a_trackers a) (id t0) = Some t0).
      { apply In_Map_get; [assumption|]. rewrite Etr. apply in_app_iff. right. now left. }
      congruence. }
    subst t0.
    assert (Hnotact : ~ In (id t) (activeIds a)).
    { assert (Hin' : In tid (filter (fun k => negb (Set_has (activeIds a) k))
                                    (Map_keys (a_trackers a)))).
      { rewrite Havs. apply in_app_iff. right. now left. }
      apply filter_In in Hin'. destruct Hin' as [_ Hn].
      apply negb_true_iff in Hn. intros Hc'. apply Set_has_In in Hc'. congruence. }
    assert (Hni1 : ~ In (id t) (Map_keys l1)).
    { rewrite Etr in Hnd. unfold Map_keys in Hnd |- *. rewrite map_app in Hnd. simpl in Hnd.
      apply NoDup_remove_2 in Hnd. rewrite in_app_iff in Hnd. tauto. }
    split; [reflexivity|]. left. exists l1, t, l2.
    split; [assumption|]. split; [split; [assumption|split; assumption]|].
    split; [assumption|].
    split.
    { intros t' Hin1 Hc1. destruct (Hcand _ Hc1) as [_ Hg1].
      apply (H1 (id t') t'); [|assumption|apply Hc1].
      apply filter_In. split; [now apply in_map|].
      apply negb_true_iff. apply not_true_is_false. rewrite Set_has_In. apply Hc1. }
    split.
    { intros t' Hin2 Hc2. destruct (Hcand _ Hc2) as [_ Hg2].
      apply (H2 (id t') t'); [|assumption|apply Hc2].
      apply filter_In. split; [now apply in_map|].
      apply negb_true_iff. apply not_true_is_false. rewrite Set_has_In. apply Hc2. }
    split.
    { rewrite Etr. rewrite <- Hid. now rewrite Map_set_split. }
    split; [reflexivity|]. split; [reflexivity|].
    split; [now rewrite Hid|].
    rewrite Hid in Hnotact |- *. apply Set_add_fresh. exact Hnotact.
  - (* no candidate inside the distance gate *)
    destruct Hspec as [-> Hnone].
    cbn.
    split; [reflexivity|]. right.
    split.
    { intros t Hc. destruct (Hcand _ Hc) as [Hin Hg]. eapply Hnone; eauto. apply Hc. }
    split; [assumption|].
    split; [now apply Map_set_fresh|].
    split.
    { apply Set_add_fresh. rewrite Hlab. assumption. }
    split; [reflexivity|]. split; [reflexivity|].
    apply Set_add_fresh. intros Hin. apply Hfresh. now apply Hact.
Qed.

(** The invariant of a pass survives every detection. *)
Lemma processPrediction_inv a pred : assoc_inv a -> assoc_inv (process a pred).
Proof.
  intros Hinv.
  destruct (pred_score pred <? Fin 0.2)%js eqn:Hscore.
  { now rewrite processPrediction_low. }
  pose proof (processPrediction_spec pred Hinv Hscore) as Hs. cbv zeta in Hs.
  destruct Hinv as (Hnx & Hnd & Hall & Hlab & Hav & Hact).
  destruct Hs as [Hcls [Hm|Hc]].
  - destruct Hm as (l1 & t & l2 & Etr & (Hin & Hna & Hcl) & Hlt & _ & _ & Etr' & El & En & Ea & Eact).
    assert (Hkeys : Map_keys (a_trackers (process a pred)) = Map_keys (a_trackers a)).
    { rewrite Etr', Etr. unfold Map_keys. rewrite !map_app. reflexivity. }
    unfold assoc_inv. rewrite Hkeys, El, En, Ea, Eact.
    split; [assumption|]. split; [assumption|]. split.
    { rewrite Etr'. rewrite Etr in Hall.
      apply Forall_app in Hall. destruct Hall as [Hall1 Hall2].
      inversion Hall2 as [|? ? [Ht _] Hall2']; subst.
      apply Forall_app. split; [assumption|].
      constructor; [|assumption].
      split; [exact Ht|]. now apply opacity_ok_one. }
    split; [assumption|]. split.
    { rewrite Hav. unfold Set_delete. clear.
      induction (Map_keys (a_trackers a)) as [|k ks IH]; simpl; [reflexivity|].
      rewrite Set_has_app.
      destruct (Set_has (activeIds a) k); simpl; [assumption|].
      destruct (N.eqb_spec k (id t)); simpl; [assumption|now f_equal]. }
    intros k Hk. apply in_app_iff in Hk. destruct Hk as [Hk|[<-|[]]]; [auto|].
    now apply in_map.
  - destruct Hc as (_ & Hfresh & Etr' & El & En & Ea & Eact).
    assert (Hkeys : Map_keys (a_trackers (process a pred))
                    = Map_keys (a_trackers a) ++ [a_nextId a]).
    { rewrite Etr'. unfold Map_keys. rewrite map_app. reflexivity. }
    unfold assoc_inv. rewrite Hkeys, El, En, Ea, Eact.
    split; [lia|]. split.
    { apply NoDup_snoc; assumption. }
    split.
    { rewrite Etr'. apply Forall_app. split.
      - eapply Forall_impl; [|exact Hall]. simpl. intros t [? ?]. split; [lia|assumption].
      - constructor; [|constructor]. simpl. split.
        + lia.
        + now apply opacity_ok_one. }
    split.
    { intros k. rewrite !in_app_iff. rewrite Hlab. tauto. }
    split.
    { rewrite Hav. rewrite filter_app. simpl.
      rewrite Set_has_app, N.eqb_refl, orb_true_r. simpl. rewrite app_nil_r.
      apply filter_ext_in. intros k Hk. rewrite Set_has_app.
      destruct (N.eqb_spec k (a_nextId a)) as [->|]; [contradiction|].
      now rewrite orb_false_r. }
    intros k Hk. apply in_app_iff. apply in_app_iff in Hk.
    destruct Hk as [Hk|Hk]; [left; auto|right; assumption].
Qed.

End Detection.

(* ================================================================== *)
(** * Well-formedness is an invariant *)
(* ================================================================== *)

Lemma wf_initialState : wf initialState.
Proof.
  unfold wf, initialState; simpl. split; [lia|]. split; [constructor|].
  split; [constructor|]. tauto.
Qed.

Lemma startAssoc_inv st : wf st -> assoc_inv (startAssoc st).
Proof.
  intros (Hnx & Hnd & Hall & Hlab). unfold assoc_inv, startAssoc; simpl.
  split; [assumption|]. split; [assumption|]. split; [assumption|].
  split; [assumption|]. split.
  - symmetry. apply forallb_filter_id. apply forallb_forall. reflexivity.
  - intros k [].
Qed.

Section Batch.

Variable Math_sqrt : number -> number.

Lemma fold_process_inv now interval lidar scaleFactor predictions : forall a,
  assoc_inv a ->
  assoc_inv (fold_left (processPrediction Math_sqrt now interval lidar scaleFactor)
                       predictions a).
Proof.
  induction predictions as [|p ps IH]; simpl; intros a Ha; [assumption|].
  apply IH. now apply processPrediction_inv.
Qed.

Lemma associate_inv st now predictions scaleFactor :
  wf st -> assoc_inv (associate Math_sqrt st now predictions scaleFactor).
Proof.
  intros Hwf. unfold associate. apply fold_process_inv. now apply startAssoc_inv.
Qed.

Lemma checkSceneChange_core st now mode classes :
  let st' := fst (checkSceneChange st now mode classes) in
  trackers st' = trackers st /\ labels st' = labels st /\ nextId st' = nextId st /\
  isMovingFast st' = isMovingFast st /\
  processingInterval st' = processingInterval st /\
  isLidarAvailable st' = isLidarAvailable st /\ fov st' = fov st.
Proof.
  unfold checkSceneChange.
  destruct (_ <? 2000)%Z; [simpl; tauto|].
  destruct (negb _); simpl; tauto.
Qed.

(** The registry, the labels and the counter after a worker result are
    those of the association pass. *)
Lemma handleWorkerPredictions_core st now nowCheck mode predictions scaleFactor :
  isMovingFast st = false ->
  let st' := fst (handleWorkerPredictions Math_sqrt st now nowCheck mode
                                          predictions scaleFactor) in
  let a := associate Math_sqrt st now predictions scaleFactor in
  trackers st' = a_trackers a /\ labels st' = a_labels a /\ nextId st' = a_nextId a.
Proof.
  intros Hm. unfold handleWorkerPredictions. rewrite Hm. cbv zeta.
  match goal with
  | |- context [checkSceneChange ?s ?n ?m ?c] =>
      destruct (checkSceneChange_core s n m c) as (H1 & H2 & H3 & _)
  end.
  simpl in *. auto.
Qed.

Lemma handleWorkerPredictions_wf st now nowCheck mode predictions scaleFactor :
  wf st ->
  wf (fst (handleWorkerPredictions Math_sqrt st now nowCheck mode predictions scaleFactor)).
Proof.
  intros Hwf. destruct (isMovingFast st) eqn:Hm.
  - unfold handleWorkerPredictions. now rewrite Hm.
  - destruct (handleWorkerPredictions_core st now nowCheck mode predictions scaleFactor Hm)
      as (Ht & Hl & Hn).
    destruct (associate_inv now predictions scaleFactor Hwf) as (Hnx & Hnd & Hall & Hlab & _).
    unfold wf. rewrite Ht, Hl, Hn. auto.
Qed.

End Batch.

Section TickInvariant.

Variable Math_tan : number -> number.

Lemma tickResult_opacity st now videoW videoH width height t t' :
  opacity_ok t ->
  tickResult Math_tan st now videoW videoH width height t = Some t' ->
  opacity_ok t'.
Proof.
  intros (q & Hq & Hlo & Hhi). unfold tickResult, evicts, isLost, opacity_ok.
  cbn [advanceTracker opacity lastSeenTime]. unfold isLost. rewrite Hq.
  destruct (now - lastSeenTime t >? 500)%Z eqn:El.
  - rewrite andb_true_r. cbn [sub add neg ltb].
    destruct (Qltb _ _) eqn:Elt; [discriminate|].
    intros H; inversion H; subst; clear H.
    simpl. unfold isLost. rewrite El, Hq. simpl.
    eexists. split; [reflexivity|]. q_bools. lra.
  - rewrite andb_false_r. intros H; inversion H; subst; clear H.
    simpl. unfold isLost. rewrite El, Hq. eauto.
Qed.

Lemma updateVisualsAndPhysics_wf st now videoWidth videoHeight width height localObjects :
  wf st ->
  wf (fst (updateVisualsAndPhysics Math_tan st now videoWidth videoHeight width height
                                   localObjects)).
Proof.
  intros (Hnx & Hnd & Hall & Hlab).
  rewrite tick_spec by assumption. cbv zeta. unfold wf. cbn [fst trackers labels nextId].
  set (videoW := or_else videoWidth (Fin 1280)).
  set (videoH := or_else videoHeight (Fin 720)).
  split; [assumption|]. split; [now apply survivors_NoDup|]. split.
  - apply Forall_forall. intros t' Hin. apply survivors_In in Hin.
    destruct Hin as [t [Hin Hr]]. rewrite Forall_forall in Hall.
    destruct (Hall _ Hin) as [Hid Hop]. split.
    + rewrite (tickResult_id _ _ _ _ _ _ _ _ Hr). assumption.
    + eapply tickResult_opacity; eauto.
  - intros k. rewrite fold_Set_delete_In, Hlab, evictedIds_In.
    unfold Map_keys. rewrite !in_map_iff. split.
    + intros [[t [E Hin]] Hne].
      destruct (tickResult Math_tan st now videoW videoH width height t) as [t'|] eqn:Hr.
      * exists t'. split; [rewrite <- E; eapply tickResult_id; eauto|].
        apply survivors_In. eauto.
      * exfalso. apply Hne. eauto.
    + intros [t' [E Hin]]. apply survivors_In in Hin. destruct Hin as [t [Hin Hr]].
      pose proof (tickResult_id _ _ _ _ _ _ _ _ Hr) as Hid.
      split; [exists t; split; [congruence|assumption]|].
      intros [u [Hu [Eu Hru]]].
      assert (u = t).
      { assert (Map_get (trackers st) (id u) = Some u) by now apply In_Map_get.
        assert (Map_get (trackers st) (id t) = Some t) by now apply In_Map_get.
        assert (id u = id t) by congruence. congruence. }
      subst u. congruence.
Qed.

End TickInvariant.

Lemma step_wf Math_sqrt Math_tan st ev : wf st -> wf (fst (step Math_sqrt Math_tan st ev)).
Proof.
  intros Hwf. destruct ev as [now nowCheck mode preds sf|now vw vh iw ih lo|m i l f];
    unfold step.
  - pose proof (handleWorkerPredictions_wf Math_sqrt now nowCheck mode preds sf Hwf) as H.
    destruct (handleWorkerPredictions _ _ _ _ _ _ _). exact H.
  - pose proof (updateVisualsAndPhysics_wf Math_tan now vw vh iw ih lo Hwf) as H.
    destruct (updateVisualsAndPhysics _ _ _ _ _ _ _ _). exact H.
  - exact Hwf.
Qed.

(** Every state the component can be in is well formed. *)
Lemma reachable_wf Math_sqrt Math_tan st : reachable Math_sqrt Math_tan st -> wf st.
Proof.
  induction 1 as [|st ev _ IH]; [apply wf_initialState|now apply step_wf].
Qed.

(* ================================================================== *)
(** * The per-tick output list *)
(* ================================================================== *)

Lemma tick_fold_Forall (P : TrackedObject -> Prop) Math_tan st now videoW videoH
    width height localObjects :
  (forall t, P (toObject st now localObjects t)) ->
  forall trs k,
    Forall P (nextLocalObjects k) ->
    Forall P (nextLocalObjects
                (fold_left (tickTracker Math_tan st now videoW videoH width height
                                        localObjects) trs k)).
Proof.
  intros HP. induction trs as [|t trs IH]; simpl; intros k Hk; [assumption|].
  apply IH. unfold tickTracker. cbv zeta.
  destruct (evicts _ _); simpl; [assumption|].
  apply Forall_app. split; [assumption|]. constructor; [apply HP|constructor].
Qed.

Lemma updateVisualsAndPhysics_Forall (P : TrackedObject -> Prop) Math_tan st now
    videoWidth videoHeight width height localObjects :
  (forall t, P (toObject st now localObjects t)) ->
  Forall P (snd (updateVisualsAndPhysics Math_tan st now videoWidth videoHeight
                                         width height localObjects)).
Proof.
  intros HP. unfold updateVisualsAndPhysics. cbv zeta. cbn [snd].
  apply Forall_forall. intros o Ho. apply (proj1 (sortObjects_In _ _)) in Ho.
  revert o Ho. apply Forall_forall.
  apply tick_fold_Forall; [assumption|constructor].
Qed.

Lemma run_outputs_Forall (P : TrackedObject -> Prop) Math_sqrt Math_tan :
  (forall st now localObjects t, P (toObject st now localObjects t)) ->
  forall evs st,
    Forall (fun out => Forall P (outputObjects out))
           (snd (run Math_sqrt Math_tan st evs)).
Proof.
  intros HP. induction evs as [|ev evs IH]; intros st; simpl; [constructor|].
  destruct (step Math_sqrt Math_tan st ev) as [st1 o] eqn:Es.
  specialize (IH st1). destruct (run Math_sqrt Math_tan st1 evs) as [st2 os].
  simpl in *. constructor; [|assumption].
  destruct ev as [now nowCheck mode preds sf|now vw vh iw ih lo|m i l f];
    unfold step in Es.
  - destruct (handleWorkerPredictions _ _ _ _ _ _ _). inversion Es; subst. constructor.
  - pose proof (@updateVisualsAndPhysics_Forall P Math_tan st now vw vh iw ih lo
                  (HP st now lo)) as H.
    destruct (updateVisualsAndPhysics _ _ _ _ _ _ _ _). inversion Es; subst. exact H.
  - inversion Es; subst. constructor.
Qed.

(** C10.  Every object of every per-tick output list reports confidence
    exactly [1] and [isOccluded] exactly [false], whatever the state the
    component started from and whatever detections and frames it has
    processed since. *)
Theorem C10_output_confidence_and_occlusion Math_sqrt Math_tan st evs :
  Forall (fun out =>
            Forall (fun o => obj_confidence o = Fin 1 /\ obj_isOccluded o = false)
                   (outputObjects out))
         (snd (run Math_sqrt Math_tan st evs)).
Proof.
  apply run_outputs_Forall. intros; split; reflexivity.
Qed.

(** A track created from a detection of score [0.25] is reported with
    confidence [1]. *)
Example output_confidence_sample :
  map (fun o => (obj_id o, obj_confidence o, obj_isOccluded o))
      (flat_map outputObjects
         (snd (runSample [resultAt 5000 [detection "person" 0.25 100 100 50 200];
                          frameAt 5016])))
  = [(1%N, Fin 1, false)].
Proof. vm_compute. reflexivity. Qed.

(* ================================================================== *)
(** * The confidence floor *)
(* ================================================================== *)

Lemma fold_process_filter Math_sqrt now interval lidar scaleFactor predictions :
  forall a,
    fold_left (processPrediction Math_sqrt now interval lidar scaleFactor) predictions a
    = fold_left (processPrediction Math_sqrt now interval lidar scaleFactor)
                (filter accepted predictions) a.
Proof.
  induction predictions as [|p ps IH]; intros a; simpl; [reflexivity|].
  unfold accepted at 1.
  destruct (pred_score p <? Fin 0.2)%js eqn:E; simpl.
  - rewrite processPrediction_low by assumption. apply IH.
  - apply IH.
Qed.

(** C8.  The detections whose score is below [0.2] are dropped before
    anything else happens to them, whatever their class: handling a batch
    gives the registry, labels, counter, scene signature and scene message
    that handling the batch without them gives. *)
Theorem C8_low_confidence_discarded Math_sqrt st now nowCheck mode predictions scaleFactor :
  associate Math_sqrt st now predictions scaleFactor
  = associate Math_sqrt st now (filter accepted predictions) scaleFactor
  /\
  handleWorkerPredictions Math_sqrt st now nowCheck mode predictions scaleFactor
  = handleWorkerPredictions Math_sqrt st now nowCheck mode
                            (filter accepted predictions) scaleFactor.
Proof.
  assert (H : associate Math_sqrt st now predictions scaleFactor
              = associate Math_sqrt st now (filter accepted predictions) scaleFactor).
  { unfold associate. apply fold_process_filter. }
  split; [exact H|].
  unfold handleWorkerPredictions. now rewrite H.
Qed.

(** A batch made of low-score detections only leaves the component as it
    was (the scene check aside, which sees no class at all). *)
Example low_confidence_sample :
  let st := fst (runSample [resultAt 5000 [detection "person" 0.9 100 100 50 200]]) in
  associate sqrt_fixed st 5100
            [detection "person" 0.19 100 100 50 200; detection "cup" 0.1 0 0 9 9] (Fin 1)
  = startAssoc st.
Proof. vm_compute. reflexivity. Qed.

(** The worker lets a person through whatever its score; the floor then
    drops the one under [0.2], as it drops any other class. *)
Example worker_then_floor_sample :
  let objects := [detection "person" 0.25 100 100 50 200;
                  detection "cup" 0.25 400 300 20 30;
                  detection "person" 0.1 600 100 50 200] in
  map pred_score (filter workerForwards objects) = [Fin 0.25; Fin 0.1]
  /\
  currentClasses (associate sqrt_fixed initialState 5000
                            (filter workerForwards objects) (Fin 1))
  = ["person"%string].
Proof. vm_compute. split; reflexivity. Qed.

(* ================================================================== *)
(** * What a batch does to one tracker *)
(* ================================================================== *)

Lemma Map_get_app_l m m' k t : Map_get m k = Some t -> Map_get (m ++ m') k = Some t.
Proof.
  induction m as [|u m IH]; simpl; [discriminate|].
  destruct (N.eqb (id u) k); auto.
Qed.

Lemma Map_get_keys m k t : Map_get m k = Some t -> In k (Map_keys m).
Proof.
  intros H. destruct (Map_get_In _ _ H) as [Hin <-]. now apply in_map.
Qed.

Section BatchTracker.

Variable Math_sqrt : number -> number.
Variables (now : Z) (interval : number) (lidar : bool) (scaleFactor : number).

Let process := processPrediction Math_sqrt now interval lidar scaleFactor.
Let lerpFactor := if (interval >? Fin 300)%js then Fin 0.5 else Fin 0.4.

(** The tracker a detection matched: the tracker as it was, pulled towards
    the scaled detection box. *)
Let matched (pred : Prediction) (t : TrackerState) : TrackerState :=
  matchUpdate now lerpFactor (scaleBox (pred_bbox pred) scaleFactor) pred t.

Lemma processPrediction_get a pred k t :
  assoc_inv a ->
  Map_get (a_trackers a) k = Some t ->
  (Map_get (a_trackers (process a pred)) k = Some t /\
   (In k (activeIds (process a pred)) -> In k (activeIds a)))
  \/
  (accepted pred = true /\ class t = pred_class pred /\
   (cornerDist Math_sqrt (scaleBox (pred_bbox pred) scaleFactor) (lockedBox t)
    <? Fin 200)%js = true /\
   ~ In k (activeIds a) /\ In k (activeIds (process a pred)) /\
   Map_get (a_trackers (process a pred)) k = Some (matched pred t)).
Proof.
  intros Hinv Hg.
  destruct (pred_score pred <? Fin 0.2)%js eqn:Hscore.
  { left. unfold process. rewrite processPrediction_low by assumption. auto. }
  pose proof (processPrediction_spec Math_sqrt now interval lidar scaleFactor
                                     pred Hinv Hscore) as Hs.
  cbv zeta in Hs. fold process lerpFactor in Hs.
  destruct Hinv as (Hnx & Hnd & Hall & Hlab & Hav & Hact).
  destruct Hs as [_ [Hm|Hc]].
  - destruct Hm as (l1 & t0 & l2 & Etr & (Hin & Hna & Hcl) & Hlt & _ & _ & Etr' & _ & _ & _ & Eact).
    assert (Hni1 : ~ In (id t0) (Map_keys l1)).
    { rewrite Etr in Hnd. unfold Map_keys in Hnd |- *. rewrite map_app in Hnd.
      simpl in Hnd. apply NoDup_remove_2 in Hnd. rewrite in_app_iff in Hnd. tauto. }
    assert (Eset : a_trackers (process a pred)
                   = Map_set (a_trackers a) (id t0) (matched pred t0)).
    { rewrite Etr', Etr. symmetry. now apply Map_set_split. }
    destruct (N.eq_dec k (id t0)) as [->|Hne].
    + right.
      assert (t0 = t).
      { pose proof (In_Map_get _ _ Hnd Hin). congruence. }
      subst t0. unfold accepted. rewrite Hscore.
      repeat split; try assumption.
      * rewrite Eact. apply in_app_iff. right. now left.
      * rewrite Eset. now apply Map_get_set_same.
    + left. split.
      * rewrite Eset. rewrite Map_get_set_other; auto.
      * rewrite Eact. rewrite in_app_iff. simpl. intuition congruence.
  - destruct Hc as (_ & Hfresh & Etr' & _ & _ & _ & Eact).
    left. split.
    + rewrite Etr'. now apply Map_get_app_l.
    + rewrite Eact. rewrite in_app_iff. simpl. intros [H|[H|[]]]; [assumption|].
      subst k. exfalso. apply Hfresh. eapply Map_get_keys; eauto.
Qed.

Lemma process_active_mono a pred k :
  assoc_inv a -> In k (activeIds a) -> In k (activeIds (process a pred)).
Proof.
  intros Hinv Hin.
  destruct (pred_score pred <? Fin 0.2)%js eqn:Hs.
  - unfold process. now rewrite processPrediction_low.
  - pose proof (processPrediction_spec Math_sqrt now interval lidar scaleFactor
                                       pred Hinv Hs) as Hs'.
    cbv zeta in Hs'. fold process in Hs'.
    destruct Hs' as [_ [(l1 & t0 & l2 & H)|H]].
    + destruct H as (_ & _ & _ & _ & _ & _ & _ & _ & _ & ->).
      apply in_app_iff. now left.
    + destruct H as (_ & _ & _ & _ & _ & _ & ->).
      apply in_app_iff. now left.
Qed.

Lemma fold_active_mono predictions : forall a k,
  assoc_inv a -> In k (activeIds a) ->
  In k (activeIds (fold_left process predictions a)).
Proof.
  induction predictions as [|p ps IH]; simpl; intros a k Hinv Hin; [assumption|].
  apply IH.
  - now apply processPrediction_inv.
  - now apply process_active_mono.
Qed.

(** Over a whole batch a tracker of the registry is either left exactly as
    it was or matched by exactly one accepted detection of its class within
    200 units. *)
Lemma fold_process_get predictions : forall a k t,
  assoc_inv a ->
  Map_get (a_trackers a) k = Some t ->
  let a' := fold_left process predictions a in
  (Map_get (a_trackers a') k = Some t /\ (In k (activeIds a') -> In k (activeIds a)))
  \/
  (~ In k (activeIds a) /\ In k (activeIds a') /\
   exists pred,
     In pred predictions /\ accepted pred = true /\ class t = pred_class pred /\
     (cornerDist Math_sqrt (scaleBox (pred_bbox pred) scaleFactor) (lockedBox t)
      <? Fin 200)%js = true /\
     Map_get (a_trackers a') k = Some (matched pred t)).
Proof.
  induction predictions as [|p ps IH]; intros a k t Hinv Hg; simpl; cbv zeta.
  - left. auto.
  - pose proof (processPrediction_inv Math_sqrt now interval lidar scaleFactor
                                      p Hinv) as Hinv1.
    fold process in Hinv1.
    destruct (@processPrediction_get a p k t Hinv Hg)
      as [[Hg1 Ha1]|(Hacc & Hc & Hd & Hna & Hin1 & Hg1)].
    + destruct (IH _ _ _ Hinv1 Hg1) as [[Hg' Ha']|(Hna' & Hin' & pred & Hp & Hrest)];
        cbv zeta in *.
      * left. split; [assumption|]. auto.
      * right. split.
        { intros Hin. apply Hna'. now apply process_active_mono. }
        split; [assumption|].
        exists pred. split; [now right|assumption].
    + destruct (IH _ _ _ Hinv1 Hg1) as [[Hg' Ha']|(Hna' & _)]; cbv zeta in *.
      * right. split; [assumption|]. split; [now apply fold_active_mono|].
        exists p. split; [now left|]. auto.
      * contradiction.
Qed.

End BatchTracker.

(** After a worker result a tracker of the registry is the tracker it was,
    or that tracker matched once. *)
Lemma handleWorkerPredictions_get Math_sqrt st now nowCheck mode predictions scaleFactor t :
  wf st -> In t (trackers st) ->
  let st' := fst (handleWorkerPredictions Math_sqrt st now nowCheck mode
                                          predictions scaleFactor) in
  let lerpFactor :=
    if (processingInterval st >? Fin 300)%js then Fin 0.5 else Fin 0.4 in
  Map_get (trackers st') (id t) = Some t
  \/
  (isMovingFast st = false /\
   exists pred,
     In pred predictions /\ accepted pred = true /\ class t = pred_class pred /\
     (cornerDist Math_sqrt (scaleBox (pred_bbox pred) scaleFactor) (lockedBox t)
      <? Fin 200)%js = true /\
     Map_get (trackers st') (id t)
     = Some (matchUpdate now lerpFactor (scaleBox (pred_bbox pred) scaleFactor) pred t)).
Proof.
  intros Hwf Hin st' lerpFactor. subst st'.
  assert (Hg : Map_get (trackers st) (id t) = Some t).
  { apply In_Map_get; [apply Hwf|assumption]. }
  destruct (isMovingFast st) eqn:Hm.
  - left. unfold handleWorkerPredictions. rewrite Hm. exact Hg.
  - destruct (handleWorkerPredictions_core Math_sqrt st now nowCheck mode predictions
                                           scaleFactor Hm) as (Ht & _ & _).
    rewrite Ht. unfold associate.
    destruct (@fold_process_get Math_sqrt now (processingInterval st)
                (isLidarAvailable st) scaleFactor predictions
                (startAssoc st) (id t) t (startAssoc_inv Hwf) Hg)
      as [[Hg' _]|(_ & _ & pred & Hp & Hacc & Hc & Hd & Hg')].
    + now left.
    + right. split; [reflexivity|]. exists pred. auto.
Qed.

(** Which of the two it is: the tracker is matched exactly when the batch
    puts its id in [activeIds], which it does not when the rapid-motion
    flag drops the batch. *)
Lemma handleWorkerPredictions_matched Math_sqrt st now nowCheck mode predictions
    scaleFactor t :
  wf st -> In t (trackers st) ->
  let st' := fst (handleWorkerPredictions Math_sqrt st now nowCheck mode
                                          predictions scaleFactor) in
  let a := associate Math_sqrt st now predictions scaleFactor in
  let lerpFactor :=
    if (processingInterval st >? Fin 300)%js then Fin 0.5 else Fin 0.4 in
  (isMovingFast st = true \/ ~ In (id t) (activeIds a) ->
   Map_get (trackers st') (id t) = Some t)
  /\
  (isMovingFast st = false -> In (id t) (activeIds a) ->
   exists pred,
     In pred predictions /\ accepted pred = true /\ class t = pred_class pred /\
     (cornerDist Math_sqrt (scaleBox (pred_bbox pred) scaleFactor) (lockedBox t)
      <? Fin 200)%js = true /\
     Map_get (trackers st') (id t)
     = Some (matchUpdate now lerpFactor (scaleBox (pred_bbox pred) scaleFactor) pred t)).
Proof.
  intros Hwf Hin st' a lerpFactor. subst st'.
  assert (Hg : Map_get (trackers st) (id t) = Some t).
  { apply In_Map_get; [apply Hwf|assumption]. }
  destruct (isMovingFast st) eqn:Hm.
  - split; [|discriminate]. intros _.
    unfold handleWorkerPredictions. rewrite Hm. exact Hg.
  - destruct (handleWorkerPredictions_core Math_sqrt st now nowCheck mode predictions
                                           scaleFactor Hm) as (Ht & _ & _).
    rewrite Ht. subst a. unfold associate.
    destruct (@fold_process_get Math_sqrt now (processingInterval st)
                (isLidarAvailable st) scaleFactor predictions
                (startAssoc st) (id t) t (startAssoc_inv Hwf) Hg)
      as [[Hg' Ha]|(_ & Ha & pred & Hp & Hacc & Hc & Hd & Hg')].
    + split; [intros _; exact Hg'|].
      intros _ Hact. apply Ha in Hact. destruct Hact.
    + split.
      * intros [H|H]; [discriminate H|contradiction].
      * intros _ _. exists pred. auto.
Qed.

(* ================================================================== *)
(** * Ids are never handed out twice *)
(* ================================================================== *)

Lemma fold_process_keys Math_sqrt now interval lidar scaleFactor predictions : forall a,
  assoc_inv a ->
  let a' := fold_left (processPrediction Math_sqrt now interval lidar scaleFactor)
                      predictions a in
  (a_nextId a <= a_nextId a')%N /\
  forall k, In k (Map_keys (a_trackers a')) ->
            In k (Map_keys (a_trackers a)) \/ (a_nextId a <= k)%N.
Proof.
  induction predictions as [|p ps IH]; intros a Hinv; simpl; cbv zeta.
  - split; [lia|auto].
  - pose proof (processPrediction_inv Math_sqrt now interval lidar scaleFactor
                                      p Hinv) as Hinv1.
    destruct (IH _ Hinv1) as [Hn Hk]. cbv zeta in *.
    assert (H1 : (a_nextId a
                  <= a_nextId (processPrediction Math_sqrt now interval lidar
                                                 scaleFactor a p))%N /\
                 forall k,
                   In k (Map_keys (a_trackers (processPrediction Math_sqrt now interval
                                                 lidar scaleFactor a p))) ->
                   In k (Map_keys (a_trackers a)) \/ (a_nextId a <= k)%N).
    { destruct (pred_score p <? Fin 0.2)%js eqn:Hs.
      - rewrite processPrediction_low by assumption. split; [lia|auto].
      - pose proof (processPrediction_spec Math_sqrt now interval lidar scaleFactor
                                           p Hinv Hs) as Hs'.
        cbv zeta in Hs'.
        destruct Hs' as [_ [(l1 & t0 & l2 & H)|H]].
        + destruct H as (Etr & _ & _ & _ & _ & Etr' & _ & -> & _).
          split; [lia|]. intros k. rewrite Etr', Etr. unfold Map_keys.
          rewrite !map_app. simpl. auto.
        + destruct H as (_ & _ & Etr' & _ & -> & _).
          split; [lia|]. intros k. rewrite Etr'. unfold Map_keys.
          rewrite map_app, in_app_iff. simpl. intros [H|[H|[]]]; [auto|right; lia]. }
    destruct H1 as [Hn1 Hk1]. split; [lia|].
    intros k Hin. destruct (Hk _ Hin) as [H|H]; [|right; lia].
    apply Hk1. exact H.
Qed.

Section Absent.

Variables Math_sqrt Math_tan : number -> number.

(** An absent id stays absent, and the output of the step does not carry
    it. *)
Lemma step_absent st ev i :
  wf st -> absent i st ->
  absent i (fst (step Math_sqrt Math_tan st ev)) /\
  ~ In i (outputIds (snd (step Math_sqrt Math_tan st ev))).
Proof.
  intros Hwf (Hlt & Hnk & Hnl).
  destruct ev as [now nowCheck mode preds sf|now vw vh iw ih lo|m il l f]; unfold step.
  - pose proof (handleWorkerPredictions_wf Math_sqrt now nowCheck mode preds sf Hwf) as Hwf'.
    destruct (isMovingFast st) eqn:Hm.
    + unfold handleWorkerPredictions. rewrite Hm. simpl.
      split; [split; [assumption|split; assumption]|tauto].
    + destruct (handleWorkerPredictions_core Math_sqrt st now nowCheck mode preds sf Hm)
        as (Ht & Hl & Hn).
      destruct (fold_process_keys Math_sqrt now (processingInterval st)
                  (isLidarAvailable st) sf preds (startAssoc_inv Hwf)) as [Hnx Hk].
      fold (associate Math_sqrt st now preds sf) in Hnx, Hk. simpl in Hnx, Hk.
      destruct (handleWorkerPredictions _ _ _ _ _ _ _) as [st' msg]. simpl in *.
      assert (Hnk' : ~ In i (Map_keys (trackers st'))).
      { rewrite Ht. intros Hin. destruct (Hk _ Hin); [contradiction|lia]. }
      split; [|tauto]. split; [lia|]. split; [assumption|].
      destruct Hwf' as (_ & _ & _ & Hlab'). rewrite Hlab'. assumption.
  - pose proof (tick_spec Math_tan st now vw vh iw ih lo (proj1 (proj2 Hwf))) as Hs.
    cbv zeta in Hs. rewrite Hs. cbn [fst snd].
    unfold absent. cbn [trackers labels nextId]. split.
    + split; [assumption|]. split.
      * intros Hin. apply survivors_keys_incl in Hin. contradiction.
      * rewrite fold_Set_delete_In. tauto.
    + unfold outputIds, outputObjects. rewrite in_map_iff. intros [o [E Ho]].
      apply (proj1 (sortObjects_In _ _)) in Ho. apply in_map_iff in Ho.
      destruct Ho as [t' [Et Ht']]. subst o. simpl in E. subst i.
      apply Hnk. eapply survivors_keys_incl. apply in_map. exact Ht'.
  - simpl. split; [split; [assumption|split; assumption]|tauto].
Qed.

Lemma run_absent evs : forall st i,
  wf st -> absent i st ->
  absent i (fst (run Math_sqrt Math_tan st evs)) /\
  Forall (fun out => ~ In i (outputIds out)) (snd (run Math_sqrt Math_tan st evs)).
Proof.
  induction evs as [|ev evs IH]; intros st i Hwf Hab; simpl.
  - split; [assumption|constructor].
  - pose proof (step_wf Math_sqrt Math_tan ev Hwf) as Hwf1.
    destruct (step_absent ev Hwf Hab) as [Hab1 Hout].
    destruct (step Math_sqrt Math_tan st ev) as [st1 o]. simpl in *.
    destruct (IH _ _ Hwf1 Hab1) as [Hab2 Houts].
    destruct (run Math_sqrt Math_tan st1 evs) as [st2 os]. simpl in *.
    split; [assumption|]. constructor; assumption.
Qed.

End Absent.

(* ================================================================== *)
(** * What a tick does to one tracker *)
(* ================================================================== *)

Section TickTracker.

Variable Math_tan : number -> number.
Variables (st : VisionState) (now : Z).
Variables (videoWidth videoHeight width height : number).
Variable localObjects : list TrackedObject.

Let videoW := or_else videoWidth (Fin 1280).
Let videoH := or_else videoHeight (Fin 720).
Let res := updateVisualsAndPhysics Math_tan st now videoWidth videoHeight width height
                                   localObjects.

(** The fate of a tracker of a well-formed registry in a tick: rewritten in
    place and reported, or gone from the registry, the labels and the
    output. *)
Lemma tick_tracker t :
  wf st -> In t (trackers st) ->
  match tickResult Math_tan st now videoW videoH width height t with
  | Some t' =>
      Map_get (trackers (fst res)) (id t) = Some t' /\
      In (id t) (labels (fst res)) /\
      In (toObject st now localObjects t') (snd res)
  | None =>
      ~ In (id t) (Map_keys (trackers (fst res))) /\
      ~ In (id t) (labels (fst res)) /\
      ~ In (id t) (map obj_id (snd res))
  end.
Proof.
  intros Hwf Hin.
  pose proof (updateVisualsAndPhysics_wf Math_tan now videoWidth videoHeight width height
                                         localObjects Hwf) as Hwf'.
  fold res in Hwf'.
  destruct Hwf as (Hnx & Hnd & Hall & Hlab).
  pose proof (tick_spec Math_tan st now videoWidth videoHeight width height localObjects Hnd)
    as Hs.
  cbv zeta in Hs. fold videoW videoH res in Hs.
  assert (Huniq : forall u, In u (trackers st) -> id u = id t -> u = t).
  { intros u Hu E.
    pose proof (In_Map_get _ _ Hnd Hu) as H1. pose proof (In_Map_get _ _ Hnd Hin) as H2.
    rewrite E in H1. congruence. }
  destruct (tickResult Math_tan st now videoW videoH width height t) as [t'|] eqn:Hr.
  - assert (Hin' : In t' (trackers (fst res))).
    { rewrite Hs. cbn [fst trackers]. apply survivors_In. eauto. }
    pose proof (tickResult_id _ _ _ _ _ _ _ _ Hr) as Hid.
    split.
    { rewrite <- Hid. apply In_Map_get; [apply Hwf'|assumption]. }
    split.
    { destruct Hwf' as (_ & _ & _ & Hlab'). apply Hlab'. rewrite <- Hid. now apply in_map. }
    rewrite Hs. cbn [snd]. apply sortObjects_In. apply in_map.
    apply survivors_In. eauto.
  - assert (Hnk : ~ In (id t) (Map_keys (trackers (fst res)))).
    { rewrite Hs. cbn [fst trackers]. unfold Map_keys. rewrite in_map_iff.
      intros [t' [E Ht']]. apply survivors_In in Ht'. destruct Ht' as [u [Hu Hru]].
      pose proof (tickResult_id _ _ _ _ _ _ _ _ Hru) as Hid.
      assert (u = t) by (apply Huniq; [assumption|congruence]).
      subst u. congruence. }
    split; [assumption|]. split.
    { destruct Hwf' as (_ & _ & _ & Hlab'). now rewrite Hlab'. }
    rewrite Hs. cbn [snd]. rewrite in_map_iff. intros [o [E Ho]].
    apply (proj1 (sortObjects_In _ _)) in Ho. apply in_map_iff in Ho.
    destruct Ho as [t' [Et Ht']]. subst o. simpl in E.
    apply Hnk. rewrite Hs. cbn [fst trackers]. rewrite <- E. now apply in_map.
Qed.

(** A lost tracker fades by [0.05] and is evicted when that takes it under
    [0.05]; a tracker that is not lost keeps its opacity and stays. *)
Lemma tickResult_lost t :
  isLost now t = true ->
  tickResult Math_tan st now videoW videoH width height t
  = (if (opacity t - Fin 0.05 <? Fin 0.05)%js then None
     else Some (advanceScan (advanceTracker Math_tan st now videoW videoH width height t)))
  /\ opacity (advanceScan (advanceTracker Math_tan st now videoW videoH width height t))
     = (opacity t - Fin 0.05)%js.
Proof.
  intros Hl. unfold tickResult, evicts. cbv zeta.
  assert (E : isLost now (advanceTracker Math_tan st now videoW videoH width height t)
              = isLost now t) by reflexivity.
  rewrite E, Hl, andb_true_r. simpl. rewrite Hl. auto.
Qed.

Lemma tickResult_not_lost t :
  isLost now t = false ->
  tickResult Math_tan st now videoW videoH width height t
  = Some (advanceScan (advanceTracker Math_tan st now videoW videoH width height t))
  /\ opacity (advanceScan (advanceTracker Math_tan st now videoW videoH width height t))
     = opacity t.
Proof.
  intros Hl. unfold tickResult, evicts. cbv zeta.
  assert (E : isLost now (advanceTracker Math_tan st now videoW videoH width height t)
              = isLost now t) by reflexivity.
  rewrite E, Hl, andb_false_r. simpl. rewrite Hl. auto.
Qed.

End TickTracker.

(* ================================================================== *)
(** * Lifecycle: lost, faded, evicted *)
(* ================================================================== *)

Lemma run_wf Math_sqrt Math_tan evs : forall st,
  wf st -> wf (fst (run Math_sqrt Math_tan st evs)).
Proof.
  induction evs as [|ev evs IH]; intros st Hwf; simpl; [assumption|].
  pose proof (step_wf Math_sqrt Math_tan ev Hwf) as Hwf1.
  destruct (step Math_sqrt Math_tan st ev) as [st1 o]. simpl in *.
  specialize (IH _ Hwf1). destruct (run Math_sqrt Math_tan st1 evs). exact IH.
Qed.

(** Well-formedness of a state written out in full. *)
Ltac prove_wf :=
  unfold wf; simpl;
  repeat match goal with
         | |- _ /\ _ => split
         | |- NoDup _ => constructor
         | |- Forall _ _ => constructor
         | |- opacity_ok _ =>
             eexists; split; [reflexivity|split; unfold Qle; simpl; lia]
         | |- (_ < _)%N => vm_compute; reflexivity
         | |- ~ In _ _ => simpl; intuition discriminate
         | |- forall _, _ <-> _ => intros; tauto
         end.

(** C2.  In a tick, a track whose last match is more than 500 ms old is
    Lost, and a Lost track loses [0.05] of opacity.  If that takes it under
    [0.05] it is evicted: it is gone from the registry, its label is gone
    from the label map, the output of the tick does not carry its id, and
    whatever happens afterwards no registry, label map or output carries
    that id again.  Otherwise it stays, faded by [0.05]. *)
Theorem C2_lost_tracks_fade_and_are_evicted Math_sqrt Math_tan st now
    videoWidth videoHeight width height localObjects t :
  wf st -> In t (trackers st) ->
  let res := updateVisualsAndPhysics Math_tan st now videoWidth videoHeight
                                     width height localObjects in
  (isLost now t = true <-> (now - lastSeenTime t > 500)%Z) /\
  (isLost now t = true ->
   if (opacity t - Fin 0.05 <? Fin 0.05)%js then
     ~ In (id t) (Map_keys (trackers (fst res))) /\
     ~ In (id t) (labels (fst res)) /\
     ~ In (id t) (map obj_id (snd res)) /\
     forall evs,
       let r := run Math_sqrt Math_tan (fst res) evs in
       ~ In (id t) (Map_keys (trackers (fst r))) /\
       ~ In (id t) (labels (fst r)) /\
       Forall (fun out => ~ In (id t) (outputIds out)) (snd r)
   else
     exists t',
       Map_get (trackers (fst res)) (id t) = Some t' /\
       opacity t' = (opacity t - Fin 0.05)%js /\
       In (id t) (labels (fst res)) /\
       In (id t) (map obj_id (snd res))).
Proof.
  intros Hwf Hin res. split.
  { unfold isLost. rewrite Z.gtb_lt. lia. }
  intros Hl.
  pose proof (tick_tracker Math_tan now videoWidth videoHeight width height
                           localObjects t Hwf Hin) as Ht.
  fold res in Ht.
  destruct (@tickResult_lost Math_tan st now videoWidth videoHeight width height t Hl)
    as [Er Eo].
  rewrite Er in Ht.
  destruct (opacity t - Fin 0.05 <? Fin 0.05)%js.
  - destruct Ht as (Hk & Hlb & Ho).
    split; [assumption|]. split; [assumption|]. split; [assumption|].
    intros evs r.
    assert (Hwf' : wf (fst res)).
    { apply updateVisualsAndPhysics_wf. assumption. }
    assert (Hab : absent (id t) (fst res)).
    { split; [|split; assumption].
      assert (En : nextId (fst res) = nextId st) by reflexivity.
      rewrite En. destruct Hwf as (_ & _ & Hall & _).
      rewrite Forall_forall in Hall. destruct (Hall _ Hin) as [? _]. lia. }
    destruct (run_absent Math_sqrt Math_tan evs Hwf' Hab) as [(_ & H1 & H2) H3].
    subst r. auto.
  - destruct Ht as (Hg & Hlb & Ho).
    eexists. split; [exact Hg|]. split; [exact Eo|]. split; [assumption|].
    apply in_map_iff. eexists. split; [|exact Ho]. reflexivity.
Qed.

(** A track last seen at 5000 with opacity 0.05, ticked at 7000: evicted. *)
Lemma C2_lost_tracks_fade_and_are_evicted_witness :
  let t := trackAt 1 "person" 5000 0.05 100 100 50 200 in
  let st := stateOf [t] 2 in
  let res := updateVisualsAndPhysics tan_lambert st 7000 (Fin 1280) (Fin 720)
                                     (Fin 1280) (Fin 720) [] in
  (wf st /\ In t (trackers st)) /\
  isLost 7000 t = true /\
  ~ In 1%N (Map_keys (trackers (fst res))) /\
  ~ In 1%N (labels (fst res)) /\
  ~ In 1%N (map obj_id (snd res)) /\
  forall evs,
    let r := run sqrt_fixed tan_lambert (fst res) evs in
    ~ In 1%N (Map_keys (trackers (fst r))) /\
    ~ In 1%N (labels (fst r)) /\
    Forall (fun out => ~ In 1%N (outputIds out)) (snd r).
Proof.
  intros t st res.
  assert (Hwf : wf st) by (subst st t; prove_wf).
  assert (Hin : In t (trackers st)) by (left; reflexivity).
  split; [split; assumption|].
  split; [reflexivity|].
  exact (proj2 (@C2_lost_tracks_fade_and_are_evicted sqrt_fixed tan_lambert st 7000
                  (Fin 1280) (Fin 720) (Fin 1280) (Fin 720) [] t Hwf Hin) eq_refl).
Defined.

(** The same track with opacity 0.5 stays, faded to 0.45. *)
Example lost_track_fades_sample :
  let t := trackAt 1 "person" 5000 0.5 100 100 50 200 in
  let st := stateOf [t] 2 in
  map (fun t' => (id t', opacity t'))
      (trackers (fst (updateVisualsAndPhysics tan_lambert st 7000 (Fin 1280) (Fin 720)
                                              (Fin 1280) (Fin 720) [])))
  = [(1%N, Fin (0.5 + - 0.05))].
Proof. vm_compute. reflexivity. Qed.

(* ================================================================== *)
(** * Opacity: reset by a match, faded by the ticks *)
(* ================================================================== *)

(** C3, as stated, fails: opacity is not a function of the time since the
    last match.  Two runs match the same track at 5000 and look at it at
    6000; the one that ticked once in between has a lower opacity than the
    one that did not. *)
Lemma C3_opacity_not_a_function_of_time :
  let d := detection "person" 0.9 100 100 50 200 in
  let a := fst (runSample [resultAt 5000 [d]; frameAt 6000]) in
  let b := fst (runSample [resultAt 5000 [d]; frameAt 5600; frameAt 6000]) in
  exists ta tb,
    trackers a = [ta] /\ trackers b = [tb] /\
    id ta = id tb /\
    lastSeenTime ta = 5000%Z /\ lastSeenTime tb = 5000%Z /\
    (opacity tb <? opacity ta)%js = true.
Proof.
  vm_compute. eexists. eexists.
  split; [reflexivity|]. split; [reflexivity|]. repeat split.
Qed.

(** C3, amended.  Whatever happens to the component, a track of the
    registry keeps its id and class, and its opacity changes in two ways
    only.  A worker result that matches the track, that is, one that is
    not dropped by the rapid-motion flag and puts the id of the track in
    [activeIds], does so for a detection of the class of the track that
    passes the confidence floor, and sets the opacity to [1.0] whatever it
    had decayed to, the track being not Lost at the time of the match;
    every other worker result leaves the track exactly as it was.  A tick
    subtracts [0.05] when the track is Lost at that tick (evicting it when
    that takes it under [0.05]) and leaves the opacity alone otherwise; so
    between matches the opacity never increases, and it is what the ticks,
    not the elapsed time, make it. *)
Theorem C3_opacity_reset_on_match_fades_on_lost_ticks Math_sqrt Math_tan st ev t :
  wf st -> In t (trackers st) ->
  let st' := fst (step Math_sqrt Math_tan st ev) in
  match ev with
  | WorkerResult now _ _ predictions scaleFactor =>
      let matched :=
        In (id t) (activeIds (associate Math_sqrt st now predictions scaleFactor)) in
      (isMovingFast st = false -> matched ->
       exists pred t',
         In pred predictions /\ accepted pred = true /\ class t = pred_class pred /\
         Map_get (trackers st') (id t) = Some t' /\
         id t' = id t /\ class t' = class t /\
         opacity t' = Fin 1.0 /\ lastSeenTime t' = now /\ isLost now t' = false)
      /\
      (isMovingFast st = true \/ ~ matched ->
       Map_get (trackers st') (id t) = Some t)
  | AnimationFrame now _ _ _ _ _ =>
      if isLost now t then
        if (opacity t - Fin 0.05 <? Fin 0.05)%js then
          Map_get (trackers st') (id t) = None
        else
          exists t',
            Map_get (trackers st') (id t) = Some t' /\
            id t' = id t /\ class t' = class t /\
            opacity t' = (opacity t - Fin 0.05)%js /\
            (opacity t' <? opacity t)%js = true /\
            lastSeenTime t' = lastSeenTime t
      else
        exists t',
          Map_get (trackers st') (id t) = Some t' /\
          id t' = id t /\ class t' = class t /\
          opacity t' = opacity t /\ lastSeenTime t' = lastSeenTime t
  | Environment _ _ _ _ => Map_get (trackers st') (id t) = Some t
  end.
Proof.
  intros Hwf Hin st'. subst st'.
  destruct ev as [now nowCheck mode preds sf|now vw vh iw ih lo|m il l f]; unfold step.
  - pose proof (@handleWorkerPredictions_matched Math_sqrt st now nowCheck mode preds sf t
                  Hwf Hin) as H.
    cbv zeta in H. cbv zeta.
    destruct (handleWorkerPredictions _ _ _ _ _ _ _) as [st' msg]. cbn [fst] in *.
    destruct H as [Hkeep Hmatch]. split; [|exact Hkeep].
    intros Hm Hact.
    destruct (Hmatch Hm Hact) as (pred & Hp & Hacc & Hc & _ & Hg).
    exists pred. eexists.
    split; [exact Hp|]. split; [exact Hacc|]. split; [exact Hc|].
    split; [exact Hg|]. cbn [id class opacity lastSeenTime matchUpdate].
    repeat split. unfold isLost. cbn [lastSeenTime matchUpdate].
    rewrite Z.sub_diag. reflexivity.
  - pose proof (tick_tracker Math_tan now vw vh iw ih lo t Hwf Hin) as Ht.
    destruct (updateVisualsAndPhysics _ _ _ _ _ _ _ _) as [st' objs] eqn:Eu.
    cbn [fst snd] in *.
    destruct (isLost now t) eqn:Hl.
    + destruct (@tickResult_lost Math_tan st now vw vh iw ih t Hl) as [Er Eo].
      rewrite Er in Ht.
      destruct (opacity t - Fin 0.05 <? Fin 0.05)%js eqn:Elt.
      * destruct Ht as (Hk & _). now apply Map_get_None.
      * destruct Ht as (Hg & _). eexists. split; [exact Hg|].
        split; [reflexivity|]. split; [reflexivity|]. split; [exact Eo|].
        split; [|reflexivity]. rewrite Eo.
        destruct Hwf as (_ & _ & Hall & _). rewrite Forall_forall in Hall.
        destruct (Hall _ Hin) as [_ (q & Hq & Hlo & Hhi)].
        rewrite Hq. simpl. q_bools. lra.
    + destruct (@tickResult_not_lost Math_tan st now vw vh iw ih t Hl) as [Er Eo].
      rewrite Er in Ht. destruct Ht as (Hg & _).
      eexists. split; [exact Hg|].
      split; [reflexivity|]. split; [reflexivity|]. split; [exact Eo|reflexivity].
  - simpl. apply In_Map_get; [apply Hwf|assumption].
Qed.

(** A track that has faded to 0.05 and is matched at 7000 is back at 1.0
    under the same id: the worker result puts its id in [activeIds], and
    the registry then holds it with opacity [1.0], seen at 7000. *)
Lemma C3_opacity_reset_on_match_fades_on_lost_ticks_witness :
  let t := trackAt 1 "person" 5000 0.05 100 100 50 200 in
  let st := stateOf [t] 2 in
  let d := detection "person" 0.9 110 100 50 200 in
  (wf st /\ In t (trackers st)) /\
  activeIds (associate sqrt_fixed st 7000 [d] (Fin 1)) = [1%N] /\
  exists pred t',
    In pred [d] /\ accepted pred = true /\ class t = pred_class pred /\
    Map_get (trackers (fst (step sqrt_fixed tan_lambert st (resultAt 7000 [d])))) 1
    = Some t' /\
    id t' = 1%N /\ class t' = "person"%string /\
    opacity t' = Fin 1.0 /\ lastSeenTime t' = 7000%Z /\ isLost 7000 t' = false.
Proof.
  intros t st d.
  assert (Hwf : wf st) by (subst st t; prove_wf).
  assert (Hin : In t (trackers st)) by (left; reflexivity).
  assert (Hact : activeIds (associate sqrt_fixed st 7000 [d] (Fin 1)) = [1%N])
    by (vm_compute; reflexivity).
  assert (Hm : isMovingFast st = false) by reflexivity.
  assert (Hmatched : In (id t) (activeIds (associate sqrt_fixed st 7000 [d] (Fin 1)))).
  { rewrite Hact. left. reflexivity. }
  split; [split; assumption|]. split; [exact Hact|].
  exact (proj1 (@C3_opacity_reset_on_match_fades_on_lost_ticks sqrt_fixed tan_lambert st
                  (resultAt 7000 [d]) t Hwf Hin) Hm Hmatched).
Defined.

(** The registry after that worker result. *)
Example reacquired_sample :
  let t := trackAt 1 "person" 5000 0.05 100 100 50 200 in
  let st := stateOf [t] 2 in
  let ev := resultAt 7000 [detection "person" 0.9 110 100 50 200] in
  map (fun t' => (id t', opacity t', lastSeenTime t'))
      (trackers (fst (step sqrt_fixed tan_lambert st ev)))
  = [(1%N, Fin 1.0, 7000%Z)].
Proof. vm_compute. reflexivity. Qed.

(* ================================================================== *)
(** * Geometry *)
(* ================================================================== *)

Lemma div_Fin (a b : Q) : ~ (b == 0)%Q -> (Fin a / Fin b)%js = Fin (a / b).
Proof.
  intros H. simpl. destruct (Qeq_bool b 0) eqn:E; [|reflexivity].
  apply Qeq_bool_eq in E. contradiction.
Qed.

Lemma div_Fin_zero (a b : Q) : (b == 0)%Q -> (0 < a)%Q -> (Fin a / Fin b)%js = PInf.
Proof.
  intros Hb Ha. simpl. rewrite (Qeq_eq_bool _ _ Hb).
  unfold Qsgn, Qlt in *. simpl in Ha. destruct (Qnum a); simpl in *; try lia. reflexivity.
Qed.

Lemma div_PInf_pos (b : Q) : (0 < b)%Q -> (PInf / Fin b)%js = PInf.
Proof.
  intros Hb. simpl. destruct (Qeq_bool b 0) eqn:E; [reflexivity|].
  unfold Qsgn, Qlt in *. simpl in Hb. destruct (Qnum b); simpl in *; try lia. reflexivity.
Qed.

Lemma Qdiv_pos (a b : Q) : (0 < a)%Q -> (0 < b)%Q -> (0 < a / b)%Q.
Proof. intros Ha Hb. apply Qlt_shift_div_l; [assumption|lra]. Qed.

Lemma Qdiv_neg (a b : Q) : (a < 0)%Q -> (0 < b)%Q -> (a / b < 0)%Q.
Proof. intros Ha Hb. apply Qlt_shift_div_r; [assumption|lra]. Qed.

Lemma Qdiv_zero (a b : Q) : (a == 0)%Q -> (a / b == 0)%Q.
Proof. intros Ha. rewrite Ha. unfold Qdiv. ring. Qed.

Lemma Qpos_neq0 (a : Q) : (0 < a)%Q -> ~ (a == 0)%Q.
Proof. intros H E. rewrite E in H. apply (Qlt_irrefl 0 H). Qed.

(** Arithmetic on finite numbers: divisions by a positive rational or by a
    non-zero literal are rational divisions. *)
Ltac fin_arith :=
  repeat first
    [ rewrite div_Fin by first [apply Qpos_neq0; assumption | intros E; discriminate E]
    | progress cbn [add sub mul neg] ].

Lemma lookup_In (A : Type) k (m : list (string * A)) v :
  lookup k m = Some v -> In (k, v) m.
Proof.
  induction m as [|[k' v'] m IH]; simpl; [discriminate|].
  destruct (String.eqb_spec k k') as [->|]; intros H.
  - inversion H. now left.
  - right. auto.
Qed.

Lemma lower_ascii_idem c : lower_ascii (lower_ascii c) = lower_ascii c.
Proof.
  destruct c as [[] [] [] [] [] [] [] []]; vm_compute; reflexivity.
Qed.

Lemma toLowerCase_idem s : toLowerCase (toLowerCase s) = toLowerCase s.
Proof.
  induction s as [|c s IH]; simpl; [reflexivity|].
  now rewrite lower_ascii_idem, IH.
Qed.

(** The inherited properties a lower-cased class can name are [constructor]
    and [__proto__]: the other names hold a capital letter. *)
Lemma inheritedClass_spec cls :
  inheritedClass cls = true
  <-> toLowerCase cls = "constructor"%string \/ toLowerCase cls = "__proto__"%string.
Proof.
  unfold inheritedClass. split.
  - destruct (lookup (toLowerCase cls) heightTable); [discriminate|].
    destruct (lookup (toLowerCase cls) objectPrototype) as [v|] eqn:E; [|discriminate].
    intros _. apply lookup_In in E.
    pose proof (toLowerCase_idem cls) as Hi.
    unfold objectPrototype in E. simpl in E.
    repeat (destruct E as [E|E];
            [inversion E as [[Hk Hv]]; clear E;
             first [ now left | now right
                   | exfalso; rewrite <- Hk in Hi; vm_compute in Hi; discriminate Hi ]|]).
    destruct E.
  - intros [H|H]; rewrite H; reflexivity.
Qed.

(** Every entry of the table is a positive height, and so is the default:
    [||] never replaces an entry that is there.  This is the height of
    every class that does not name an inherited property. *)
Lemma getRealWorldHeight_table cls :
  inheritedClass cls = false ->
  getRealWorldHeight cls
  = match lookup (toLowerCase cls) heightTable with
    | Some v => v
    | None => Fin 0.5
    end
  /\ exists rh, getRealWorldHeight cls = Fin rh /\ (0 < rh)%Q.
Proof.
  unfold getRealWorldHeight, inheritedClass. cbv zeta.
  destruct (lookup (toLowerCase cls) heightTable) as [v|] eqn:E.
  - intros _. apply lookup_In in E. unfold heightTable in E.
    assert (H : or_else v (Fin 0.5) = v /\ exists rh, v = Fin rh /\ (0 < rh)%Q).
    { simpl in E.
      repeat (destruct E as [E|E];
              [inversion E; subst; split;
               [reflexivity|eexists; split; [reflexivity|reflexivity]]|]).
      destruct E. }
    destruct H as [-> H]. auto.
  - destruct (lookup (toLowerCase cls) objectPrototype); [discriminate|].
    intros _. split; [reflexivity|]. eexists. split; reflexivity.
Qed.

(** A class that names an inherited property has no height: the lookup
    returns the property, which is not a number. *)
Lemma getRealWorldHeight_inherited cls :
  inheritedClass cls = true -> getRealWorldHeight cls = NaN.
Proof.
  unfold getRealWorldHeight, inheritedClass. cbv zeta.
  destruct (lookup (toLowerCase cls) heightTable); [discriminate|].
  destruct (lookup (toLowerCase cls) objectPrototype); [reflexivity|discriminate].
Qed.

Section Geometry.

Variable Math_tan : number -> number.

(** [calculate3DPosition] through its named locals. *)
Lemma calculate3DPosition_eq camera_fov bbox cls videoW videoH screenW screenH :
  let z := (- clampDepth (rawDepth Math_tan camera_fov bbox cls
                                    videoW videoH screenW screenH))%js in
  let visibleHeightAtZ := (Fin 2 * Math_abs z * tanHalfFov Math_tan camera_fov)%js in
  let visibleWidthAtZ := (visibleHeightAtZ * (screenW / screenH))%js in
  calculate3DPosition Math_tan camera_fov bbox cls videoW videoH screenW screenH
  = {| vx := ((fst (ndcCenter bbox videoW videoH screenW screenH) * visibleWidthAtZ)
              / Fin 2)%js;
       vy := ((snd (ndcCenter bbox videoW videoH screenW screenH) * visibleHeightAtZ)
              / Fin 2)%js;
       vz := z |}.
Proof.
  unfold calculate3DPosition, rawDepth, clampDepth, screenHeightFraction, ndcCenter,
    renderRect, tanHalfFov.
  cbv zeta.
  destruct (screenW / screenH >? videoW / videoH)%js; reflexivity.
Qed.

(** On finite positive dimensions the rendered rectangle is finite, with a
    positive height. *)
Lemma renderRect_finite (vW vH sW sH : Q) :
  (0 < vW)%Q -> (0 < vH)%Q -> (0 < sW)%Q -> (0 < sH)%Q ->
  exists rW rH oX oY,
    renderRect (Fin vW) (Fin vH) (Fin sW) (Fin sH) = (Fin rW, Fin rH, Fin oX, Fin oY)
    /\ (0 < rH)%Q.
Proof.
  intros HvW HvH HsW HsH. unfold renderRect. cbv zeta.
  assert (Hr : (0 < vW / vH)%Q) by now apply Qdiv_pos.
  fin_arith.
  destruct (_ >? _)%js; fin_arith; do 4 eexists; (split; [reflexivity|]).
  - now apply Qdiv_pos.
  - assumption.
Qed.

(** The height fraction of a finite box is finite and has the sign of the
    box height. *)
Lemma screenHeightFraction_finite (b0 b1 b2 h vW vH sW sH : Q) :
  (0 < vW)%Q -> (0 < vH)%Q -> (0 < sW)%Q -> (0 < sH)%Q ->
  exists f,
    screenHeightFraction {| box0 := Fin b0; box1 := Fin b1; box2 := Fin b2; box3 := Fin h |}
                         (Fin vW) (Fin vH) (Fin sW) (Fin sH) = Fin f
    /\ ((0 < h)%Q -> (0 < f)%Q) /\ ((h == 0)%Q -> (f == 0)%Q) /\ ((h < 0)%Q -> (f < 0)%Q).
Proof.
  intros HvW HvH HsW HsH. unfold screenHeightFraction.
  destruct (renderRect_finite HvW HvH HsW HsH) as (rW & rH & oX & oY & -> & HrH).
  cbn [box3]. fin_arith.
  eexists. split; [reflexivity|].
  assert (Hs : (0 < rH / vH)%Q) by now apply Qdiv_pos.
  split; [|split]; intros Hh.
  - apply Qdiv_pos; [|assumption]. apply Qmult_lt_0_compat; assumption.
  - apply Qdiv_zero. rewrite Hh. ring.
  - apply Qdiv_neg; [|assumption].
    setoid_replace (h * (rH / vH))%Q with (- ((- h) * (rH / vH)))%Q by ring.
    assert (0 < (- h) * (rH / vH))%Q by (apply Qmult_lt_0_compat; lra). lra.
Qed.

Lemma ndcCenter_finite (b0 b1 b2 h vW vH sW sH : Q) :
  (0 < vW)%Q -> (0 < vH)%Q -> (0 < sW)%Q -> (0 < sH)%Q ->
  exists nx ny,
    ndcCenter {| box0 := Fin b0; box1 := Fin b1; box2 := Fin b2; box3 := Fin h |}
              (Fin vW) (Fin vH) (Fin sW) (Fin sH) = (Fin nx, Fin ny).
Proof.
  intros HvW HvH HsW HsH. unfold ndcCenter.
  destruct (renderRect_finite HvW HvH HsW HsH) as (rW & rH & oX & oY & -> & HrH).
  cbv zeta. cbn [box0 box1 box2 box3]. fin_arith. eauto.
Qed.

(** The clamp on a finite depth. *)
Lemma clampDepth_Fin (z : Q) :
  exists d,
    clampDepth (Fin z) = Fin d /\ (1.5 <= d <= 50)%Q /\
    ((1.5 <= z <= 50)%Q -> (d == z)%Q) /\
    ((z <= 1.5)%Q -> (d == 1.5)%Q) /\ ((50 <= z)%Q -> (d == 50)%Q).
Proof.
  unfold clampDepth, Math_min, Math_max. simpl.
  destruct (Qltb z 50.0) eqn:E1; simpl.
  - destruct (Qltb 1.5 z) eqn:E2; eexists; (split; [reflexivity|]); q_bools;
      repeat split; intros; lra.
  - eexists. split; [reflexivity|]. q_bools. repeat split; intros; lra.
Qed.


(** On a finite box, finite positive video and viewport dimensions, a
    positive finite [tan (fov / 2)] and a class that does not name an
    inherited property, the estimator returns finite
    coordinates, at a depth that the clamp keeps in [[1.5, 50]]; the depth
    before the clamp is the quotient of the formula, or [+Infinity] when
    the box has no height. *)
Lemma calculate3DPosition_finite camera_fov cls (b0 b1 b2 h vW vH sW sH t : Q) :
  inheritedClass cls = false ->
  (0 < vW)%Q -> (0 < vH)%Q -> (0 < sW)%Q -> (0 < sH)%Q ->
  tanHalfFov Math_tan camera_fov = Fin t -> (0 < t)%Q ->
  let bbox := {| box0 := Fin b0; box1 := Fin b1; box2 := Fin b2; box3 := Fin h |} in
  exists rh f nx ny d,
    getRealWorldHeight cls = Fin rh /\ (0 < rh)%Q /\
    screenHeightFraction bbox (Fin vW) (Fin vH) (Fin sW) (Fin sH) = Fin f /\
    (((0 < h)%Q -> (0 < f)%Q) /\ ((h == 0)%Q -> (f == 0)%Q) /\ ((h < 0)%Q -> (f < 0)%Q)) /\
    ndcCenter bbox (Fin vW) (Fin vH) (Fin sW) (Fin sH) = (Fin nx, Fin ny) /\
    rawDepth Math_tan camera_fov bbox cls (Fin vW) (Fin vH) (Fin sW) (Fin sH)
    = (if Qeq_bool f 0 then PInf else Fin (rh / f / (2 * t))) /\
    clampDepth (rawDepth Math_tan camera_fov bbox cls (Fin vW) (Fin vH) (Fin sW) (Fin sH))
    = Fin d /\
    (1.5 <= d <= 50)%Q /\
    calculate3DPosition Math_tan camera_fov bbox cls (Fin vW) (Fin vH) (Fin sW) (Fin sH)
    = {| vx := Fin (nx * (2 * Qabs (- d) * t * (sW / sH)) / 2);
         vy := Fin (ny * (2 * Qabs (- d) * t) / 2);
         vz := Fin (- d) |}.
Proof.
  intros Hcls HvW HvH HsW HsH HT Ht bbox.
  destruct (getRealWorldHeight_table cls Hcls) as [_ (rh & Hrh & Hrhpos)].
  destruct (screenHeightFraction_finite b0 b1 b2 h HvW HvH HsW HsH)
    as (f & Hf & Hsign).
  destruct (ndcCenter_finite b0 b1 b2 h HvW HvH HsW HsH) as (nx & ny & Hndc).
  fold bbox in Hf, Hndc.
  assert (H2t : (0 < 2 * t)%Q) by lra.
  assert (Hraw : rawDepth Math_tan camera_fov bbox cls (Fin vW) (Fin vH) (Fin sW) (Fin sH)
                 = (if Qeq_bool f 0 then PInf else Fin (rh / f / (2 * t)))).
  { unfold rawDepth. rewrite Hrh, Hf, HT. cbn [mul].
    destruct (Qeq_bool f 0) eqn:E.
    - rewrite div_Fin_zero by (try assumption; now apply Qeq_bool_eq).
      now apply div_PInf_pos.
    - apply Qeq_bool_neq in E. rewrite (div_Fin rh E). fin_arith. reflexivity. }
  assert (Hd : exists d,
             clampDepth (rawDepth Math_tan camera_fov bbox cls
                                  (Fin vW) (Fin vH) (Fin sW) (Fin sH)) = Fin d
             /\ (1.5 <= d <= 50)%Q).
  { rewrite Hraw. destruct (Qeq_bool f 0).
    - exists 50.0%Q. split; [reflexivity|]. split; unfold Qle; simpl; lia.
    - destruct (clampDepth_Fin (rh / f / (2 * t))) as (d & Hd & Hr & _). eauto. }
  destruct Hd as (d & Hd & Hr).
  exists rh, f, nx, ny, d.
  split; [assumption|]. split; [assumption|]. split; [assumption|].
  split; [assumption|]. split; [assumption|]. split; [assumption|].
  split; [assumption|]. split; [assumption|].
  pose proof (calculate3DPosition_eq camera_fov bbox cls (Fin vW) (Fin vH) (Fin sW) (Fin sH))
    as He.
  cbv zeta in He. rewrite He, Hd, Hndc, HT. cbn [fst snd neg Math_abs].
  fin_arith. reflexivity.
Qed.


End Geometry.

(** The depth rule, for every class that does not name an inherited
    property.  For a finite box of positive height, finite positive video
    and viewport dimensions and a positive finite [tan (FOV / 2)]: the
    reference height is the table entry of the lower-cased class, [0.5]
    when there is none; the depth before the clamp is that height divided
    by the fraction of the viewport height the box covers and by
    [2 * tan (FOV / 2)]; the depth is that value clamped to [[1.5, 50]]
    (kept when inside, [1.5] below, [50] above); and the result is the box
    centre, in normalized device coordinates, back-projected at that
    depth. *)
Lemma depth_from_box_height Math_tan camera_fov cls
    (b0 b1 b2 h vW vH sW sH t : Q) :
  inheritedClass cls = false ->
  (0 < h)%Q ->
  (0 < vW)%Q -> (0 < vH)%Q -> (0 < sW)%Q -> (0 < sH)%Q ->
  tanHalfFov Math_tan camera_fov = Fin t -> (0 < t)%Q ->
  let bbox := {| box0 := Fin b0; box1 := Fin b1; box2 := Fin b2; box3 := Fin h |} in
  let frac := screenHeightFraction bbox (Fin vW) (Fin vH) (Fin sW) (Fin sH) in
  let raw := rawDepth Math_tan camera_fov bbox cls (Fin vW) (Fin vH) (Fin sW) (Fin sH) in
  getRealWorldHeight cls
  = match lookup (toLowerCase cls) heightTable with
    | Some v => v
    | None => Fin 0.5
    end
  /\
  raw = ((getRealWorldHeight cls / frac) / (Fin 2 * tanHalfFov Math_tan camera_fov))%js
  /\
  exists rh f z d nx ny X Y,
    getRealWorldHeight cls = Fin rh /\
    frac = Fin f /\ (0 < f)%Q /\
    raw = Fin z /\ (z == rh / f / (2 * t))%Q /\
    (1.5 <= d <= 50)%Q /\
    ((1.5 <= z <= 50)%Q -> (d == z)%Q) /\
    ((z <= 1.5)%Q -> (d == 1.5)%Q) /\
    ((50 <= z)%Q -> (d == 50)%Q) /\
    ndcCenter bbox (Fin vW) (Fin vH) (Fin sW) (Fin sH) = (Fin nx, Fin ny) /\
    calculate3DPosition Math_tan camera_fov bbox cls (Fin vW) (Fin vH) (Fin sW) (Fin sH)
    = {| vx := Fin X; vy := Fin Y; vz := Fin (- d) |} /\
    (X == nx * (2 * d * t * (sW / sH)) / 2)%Q /\
    (Y == ny * (2 * d * t) / 2)%Q.
Proof.
  intros Hcls Hh HvW HvH HsW HsH HT Ht bbox frac raw.
  split; [now apply getRealWorldHeight_table|]. split; [reflexivity|].
  destruct (@calculate3DPosition_finite Math_tan camera_fov cls b0 b1 b2 h vW vH sW sH t
              Hcls HvW HvH HsW HsH HT Ht)
    as (rh & f & nx & ny & d & Hrh & Hrhpos & Hf & (Hpos & _ & _) & Hndc & Hraw & Hd & Hr & Hp).
  fold bbox in Hf, Hndc, Hraw, Hd, Hp. fold frac in Hf. fold raw in Hraw, Hd.
  specialize (Hpos Hh).
  assert (E : Qeq_bool f 0 = false).
  { destruct (Qeq_bool f 0) eqn:E; [|reflexivity].
    apply Qeq_bool_eq in E. exfalso. revert E. now apply Qpos_neq0. }
  rewrite E in Hraw.
  destruct (clampDepth_Fin (rh / f / (2 * t))) as (d' & Hd' & _ & H1 & H2 & H3).
  rewrite Hraw in Hd. rewrite Hd in Hd'. inversion Hd'; subst d'.
  exists rh, f, (rh / f / (2 * t))%Q, d, nx, ny.
  eexists. eexists.
  split; [assumption|]. split; [assumption|]. split; [assumption|].
  split; [assumption|]. split; [reflexivity|]. split; [assumption|].
  split; [assumption|]. split; [assumption|]. split; [assumption|].
  split; [assumption|]. split; [exact Hp|].
  assert (Ha : (Qabs (- d) == d)%Q).
  { rewrite Qabs_opp. apply Qabs_pos. lra. }
  split; rewrite Ha; reflexivity.
Qed.

(** A person box 360 pixels high on a 1280x720 video shown in a 1280x720
    viewport, at the default field of view: the depth is
    [1.70 / 0.5 / (2 * tan 37.5deg)], about 2.2154. *)
Example depth_sample :
  match vz (calculate3DPosition tan_lambert (Fin 75) (boxOf 100 100 50 360) "person"
                                (Fin 1280) (Fin 720) (Fin 1280) (Fin 720)) with
  | Fin z => Qfloor (- z * 10000)
  | _ => 0%Z
  end = 22154%Z.
Proof. vm_compute. reflexivity. Qed.

(** A class that is in no table and names no inherited property, here the
    detector's label [dog], has the default height: the same box is
    estimated at [0.5 / 0.5 / (2 * tan 37.5deg)], about 0.6516, which the
    clamp raises to [1.5]. *)
Example default_height_sample :
  getRealWorldHeight "dog" = Fin 0.5 /\
  vz (calculate3DPosition tan_lambert (Fin 75) (boxOf 100 100 50 360) "dog"
                          (Fin 1280) (Fin 720) (Fin 1280) (Fin 720)) = Fin (- 1.5).
Proof. split; vm_compute; reflexivity. Qed.





(** Heights [0] and [-40] evaluate to the depths [50] and [1.5]. *)
Example degenerate_depth_sample :
  vz (calculate3DPosition tan_lambert (Fin 75) (boxOf 100 100 50 0) "cup"
                          (Fin 1280) (Fin 720) (Fin 1280) (Fin 720)) = Fin (- 50.0)
  /\
  vz (calculate3DPosition tan_lambert (Fin 75) (boxOf 100 100 50 (-40)) "cup"
                          (Fin 1280) (Fin 720) (Fin 1280) (Fin 720)) = Fin (- 1.5).
Proof. split; vm_compute; reflexivity. Qed.

(* ================================================================== *)
(** * Depth against box height *)
(* ================================================================== *)

(** C6, as stated, fails: at zoom level 0.5 the camera's field of view is
    [75 / 0.5 = 150] degrees, and a person box covering the whole viewport
    height and one covering half of it are both clamped to the depth
    [1.5]. *)
Lemma C6_equal_depths_at_wide_field_of_view :
  let full := boxOf 0 0 100 720 in
  let half := boxOf 0 0 100 360 in
  let depth bbox :=
    Math_abs (vz (calculate3DPosition tan_lambert (Fin 150) bbox "person"
                                      (Fin 1280) (Fin 720) (Fin 1280) (Fin 720))) in
  eqb (screenHeightFraction full (Fin 1280) (Fin 720) (Fin 1280) (Fin 720)) (Fin 1)
  = true /\
  eqb (screenHeightFraction half (Fin 1280) (Fin 720) (Fin 1280) (Fin 720)) (Fin 0.5)
  = true /\
  eqb (depth full) (Fin 1.5) = true /\ eqb (depth half) (Fin 1.5) = true /\
  (depth full <? depth half)%js = false.
Proof. vm_compute. repeat split. Qed.

(** C6, amended.  For a class of reference height 1.70 m, a box covering
    the whole viewport height is never estimated farther than a box
    covering half of it, and it is estimated strictly nearer when
    [0.017 < tan (FOV / 2) < 17/15] (a field of view between about 2 and 97
    degrees, the default 75 degrees among them); from [tan (FOV / 2) = 17/15]
    on, both are clamped to [1.5]. *)
Theorem C6_depth_monotone_in_box_height Math_tan camera_fov cls bbox1 bbox2
    videoW videoH screenW screenH (t f1 f2 : Q) :
  getRealWorldHeight cls = Fin 1.70 ->
  tanHalfFov Math_tan camera_fov = Fin t -> (0 < t)%Q ->
  screenHeightFraction bbox1 videoW videoH screenW screenH = Fin f1 -> (f1 == 1)%Q ->
  screenHeightFraction bbox2 videoW videoH screenW screenH = Fin f2 -> (f2 == 1 # 2)%Q ->
  exists d1 d2,
    vz (calculate3DPosition Math_tan camera_fov bbox1 cls videoW videoH screenW screenH)
    = Fin (- d1) /\
    vz (calculate3DPosition Math_tan camera_fov bbox2 cls videoW videoH screenW screenH)
    = Fin (- d2) /\
    (d1 <= d2)%Q /\
    ((0.017 < t)%Q -> (t < 17 # 15)%Q -> (d1 < d2)%Q) /\
    ((17 # 15 <= t)%Q -> (d1 == 1.5)%Q /\ (d2 == 1.5)%Q).
Proof.
  intros Hrh HT Ht Hf1 Ef1 Hf2 Ef2.
  assert (Hnz1 : ~ (f1 == 0)%Q) by (rewrite Ef1; discriminate).
  assert (Hnz2 : ~ (f2 == 0)%Q) by (rewrite Ef2; discriminate).
  assert (H2t : (0 < 2 * t)%Q) by lra.
  assert (Hraw : forall bbox f,
             screenHeightFraction bbox videoW videoH screenW screenH = Fin f ->
             ~ (f == 0)%Q ->
             vz (calculate3DPosition Math_tan camera_fov bbox cls
                                     videoW videoH screenW screenH)
             = (- clampDepth (Fin (1.70 / f / (2 * t))))%js).
  { intros bbox f Hf Hnz.
    rewrite calculate3DPosition_eq. cbv zeta. cbn [vz].
    unfold rawDepth. rewrite Hrh, Hf, HT. cbn [mul].
    rewrite (div_Fin 1.70 Hnz). fin_arith. reflexivity. }
  rewrite (Hraw _ _ Hf1 Hnz1), (Hraw _ _ Hf2 Hnz2).
  destruct (clampDepth_Fin (1.70 / f1 / (2 * t))) as (d1 & -> & Hr1 & Hin1 & Hlo1 & Hhi1).
  destruct (clampDepth_Fin (1.70 / f2 / (2 * t))) as (d2 & -> & Hr2 & Hin2 & Hlo2 & Hhi2).
  exists d1, d2. split; [reflexivity|]. split; [reflexivity|].
  set (u := (1 / (2 * t))%Q).
  assert (Hu : (0 < u)%Q) by (apply Qdiv_pos; lra).
  assert (E1 : (1.70 / f1 / (2 * t) == 1.70 * u)%Q).
  { unfold u. rewrite Ef1. field. intros E. rewrite E in Ht. apply (Qlt_irrefl 0 Ht). }
  assert (E2 : (1.70 / f2 / (2 * t) == 3.40 * u)%Q).
  { unfold u. rewrite Ef2. field. intros E. rewrite E in Ht. apply (Qlt_irrefl 0 Ht). }
  rewrite E1 in Hin1, Hlo1, Hhi1. rewrite E2 in Hin2, Hlo2, Hhi2.
  assert (Hcases1 : (1.70 * u <= 1.5)%Q \/ (1.5 <= 1.70 * u <= 50)%Q \/ (50 <= 1.70 * u)%Q).
  { destruct (Qlt_le_dec (1.70 * u) 1.5); [left; lra|].
    destruct (Qlt_le_dec 50 (1.70 * u)); [right; right; lra|right; left; lra]. }
  assert (Hcases2 : (3.40 * u <= 1.5)%Q \/ (1.5 <= 3.40 * u <= 50)%Q \/ (50 <= 3.40 * u)%Q).
  { destruct (Qlt_le_dec (3.40 * u) 1.5); [left; lra|].
    destruct (Qlt_le_dec 50 (3.40 * u)); [right; right; lra|right; left; lra]. }
  split.
  { destruct Hcases1 as [H1|[H1|H1]]; destruct Hcases2 as [H2|[H2|H2]];
      try (specialize (Hlo1 H1)); try (specialize (Hin1 H1)); try (specialize (Hhi1 H1));
      try (specialize (Hlo2 H2)); try (specialize (Hin2 H2)); try (specialize (Hhi2 H2));
      lra. }
  split.
  { intros Hlo Hhi.
    assert (Hu1 : (15 # 34 < u)%Q).
    { unfold u. apply Qlt_shift_div_l; lra. }
    assert (Hu2 : (u < 1000 # 34)%Q).
    { unfold u. apply Qlt_shift_div_r; lra. }
    destruct Hcases1 as [H1|[H1|H1]]; destruct Hcases2 as [H2|[H2|H2]];
      try (specialize (Hlo1 H1)); try (specialize (Hin1 H1)); try (specialize (Hhi1 H1));
      try (specialize (Hlo2 H2)); try (specialize (Hin2 H2)); try (specialize (Hhi2 H2));
      lra. }
  intros Hwide.
  assert (Hu1 : (u <= 15 # 34)%Q).
  { unfold u. apply Qle_shift_div_r; lra. }
  split; [apply Hlo1|apply Hlo2]; lra.
Qed.

(** The default field of view, a 1280x720 video in a 1280x720 viewport, a
    person box 720 pixels high and one 360 pixels high. *)
Lemma C6_depth_monotone_in_box_height_witness :
  let full := boxOf 0 0 100 720 in
  let half := boxOf 0 0 100 360 in
  let t := sampleTan (Fin 75) in
  (getRealWorldHeight "person" = Fin 1.70 /\
   tanHalfFov tan_lambert (Fin 75) = Fin t /\ (0 < t)%Q /\
   screenHeightFraction full (Fin 1280) (Fin 720) (Fin 1280) (Fin 720)
   = Fin (sampleFraction full) /\ (sampleFraction full == 1)%Q /\
   screenHeightFraction half (Fin 1280) (Fin 720) (Fin 1280) (Fin 720)
   = Fin (sampleFraction half) /\ (sampleFraction half == 1 # 2)%Q /\
   (0.017 < t)%Q /\ (t < 17 # 15)%Q) /\
  exists d1 d2,
    vz (calculate3DPosition tan_lambert (Fin 75) full "person"
                            (Fin 1280) (Fin 720) (Fin 1280) (Fin 720)) = Fin (- d1) /\
    vz (calculate3DPosition tan_lambert (Fin 75) half "person"
                            (Fin 1280) (Fin 720) (Fin 1280) (Fin 720)) = Fin (- d2) /\
    (d1 < d2)%Q.
Proof.
  intros full half t.
  assert (Hrh : getRealWorldHeight "person" = Fin 1.70) by (vm_compute; reflexivity).
  assert (HT : tanHalfFov tan_lambert (Fin 75) = Fin t) by (vm_compute; reflexivity).
  assert (Ht : (0 < t)%Q) by (vm_compute; reflexivity).
  assert (Hf1 : screenHeightFraction full (Fin 1280) (Fin 720) (Fin 1280) (Fin 720)
                = Fin (sampleFraction full)) by (vm_compute; reflexivity).
  assert (Ef1 : (sampleFraction full == 1)%Q) by (vm_compute; reflexivity).
  assert (Hf2 : screenHeightFraction half (Fin 1280) (Fin 720) (Fin 1280) (Fin 720)
                = Fin (sampleFraction half)) by (vm_compute; reflexivity).
  assert (Ef2 : (sampleFraction half == 1 # 2)%Q) by (vm_compute; reflexivity).
  assert (Hlo : (0.017 < t)%Q) by (vm_compute; reflexivity).
  assert (Hhi : (t < 17 # 15)%Q) by (vm_compute; reflexivity).
  split.
  { exact (conj Hrh (conj HT (conj Ht (conj Hf1 (conj Ef1 (conj Hf2 (conj Ef2
             (conj Hlo Hhi)))))))). }
  destruct (@C6_depth_monotone_in_box_height tan_lambert (Fin 75) "person" full half
              (Fin 1280) (Fin 720) (Fin 1280) (Fin 720)
              t (sampleFraction full) (sampleFraction half)
              Hrh HT Ht Hf1 Ef1 Hf2 Ef2)
    as (d1 & d2 & H1 & H2 & _ & Hstrict & _).
  exists d1, d2. split; [exact H1|]. split; [exact H2|]. exact (Hstrict Hlo Hhi).
Defined.

(* ================================================================== *)
(** * Smoothing *)
(* ================================================================== *)

(** A step by a fraction between [0] and [1] of the gap stays between the
    current value and the target. *)
Lemma lerp_toward cur tgt (s : Q) :
  (0 <= s <= 1)%Q -> toward cur tgt (lerp cur tgt (Fin s)).
Proof.
  intros [Hs0 Hs1] c g -> ->. unfold lerp. cbn [sub add neg mul].
  eexists. split; [reflexivity|].
  assert (E : (c + (g + - c) * s - c == (g - c) * s)%Q) by ring.
  destruct (Qlt_le_dec g c) as [Hgc|Hcg].
  - assert (H1 : (0 <= (c - g) * s)%Q) by (apply Qmult_le_0_compat; lra).
    assert (H2 : (0 <= (c - g) * (1 - s))%Q) by (apply Qmult_le_0_compat; lra).
    assert (E1 : ((c - g) * s == - ((g - c) * s))%Q) by ring.
    assert (E2 : ((c - g) * (1 - s) == (c - g) + (g - c) * s)%Q) by ring.
    split; [right; split; lra|].
    rewrite E. rewrite (Qabs_neg (g - c)) by lra. rewrite Qabs_neg by lra. lra.
  - assert (H1 : (0 <= (g - c) * s)%Q) by (apply Qmult_le_0_compat; lra).
    assert (H2 : (0 <= (g - c) * (1 - s))%Q) by (apply Qmult_le_0_compat; lra).
    assert (E2 : ((g - c) * (1 - s) == (g - c) - (g - c) * s)%Q) by ring.
    split; [left; split; lra|].
    rewrite E. rewrite (Qabs_pos (g - c)) by lra. rewrite Qabs_pos by lra. lra.
Qed.

Lemma lerpV_toward cur tgt (s : Q) :
  (0 <= s <= 1)%Q -> towardV cur tgt (lerpV cur tgt (Fin s)).
Proof. intros Hs. repeat split; now apply lerp_toward. Qed.

Lemma lerpBox_toward cur tgt (s : Q) :
  (0 <= s <= 1)%Q -> towardBox cur tgt (lerpBox cur tgt (Fin s)).
Proof. intros Hs. repeat split; now apply lerp_toward. Qed.

(** C7, as stated, fails for the bounding box: a tick leaves it where it
    is, with the rapid-motion flag clear or set; it moves when a detection
    matches, by [0.4] of the gap here, and with the flag set the worker
    result is dropped and the box does not move at all. *)
Lemma C7_box_is_not_smoothed_by_ticks :
  let t := trackAt 1 "person" 5000 1 100 100 50 200 in
  let st := stateOf [t] 2 in
  let moving :=
    fst (step sqrt_fixed tan_lambert st (Environment true (Fin 200) false (Fin 75))) in
  let d := detection "person" 0.9 110 100 50 200 in
  map lockedBox (trackers (fst (step sqrt_fixed tan_lambert st (frameAt 5016))))
  = [lockedBox t] /\
  map lockedBox (trackers (fst (step sqrt_fixed tan_lambert moving (frameAt 5016))))
  = [lockedBox t] /\
  map (fun t' => eqb (box0 (lockedBox t')) (Fin 104))
      (trackers (fst (step sqrt_fixed tan_lambert st (resultAt 5016 [d]))))
  = [true] /\
  map lockedBox (trackers (fst (step sqrt_fixed tan_lambert moving (resultAt 5016 [d]))))
  = [lockedBox t].
Proof. vm_compute. repeat split. Qed.

(** C7, amended.  In a tick the 3D position of a track that stays moves
    towards the position computed from its box by the fraction [0.9] of the
    gap when the rapid-motion flag is set and [0.2] otherwise, and the box
    itself is not touched.  A worker result that matches the track (one
    that is not dropped by the rapid-motion flag and puts the id of the
    track in [activeIds]) leaves the position alone and moves the box
    towards the scaled box of the detection that matched, by the fraction
    [0.5] of the gap when the processing interval exceeds 300 ms and [0.4]
    otherwise; every other worker result leaves the track as it was.  In
    both moves every finite coordinate ends between its old value and its
    target, no farther from the old value than the target is. *)
Theorem C7_smoothing_steps_are_bounded Math_sqrt Math_tan st t :
  wf st -> In t (trackers st) ->
  (forall now videoWidth videoHeight width height localObjects t',
     Map_get (trackers (fst (updateVisualsAndPhysics Math_tan st now videoWidth
                               videoHeight width height localObjects))) (id t)
     = Some t' ->
     let speed := if isMovingFast st then Fin 0.9 else Fin 0.2 in
     let tgt := calculate3DPosition Math_tan (fov st) (lockedBox t) (class t)
                  (or_else videoWidth (Fin 1280)) (or_else videoHeight (Fin 720))
                  width height in
     lockedBox t' = lockedBox t /\
     target (physics t') = tgt /\
     current (physics t') = lerpV (current (physics t)) tgt speed /\
     towardV (current (physics t)) tgt (current (physics t')))
  /\
  (forall now nowCheck mode predictions scaleFactor,
     let st' := fst (handleWorkerPredictions Math_sqrt st now nowCheck mode
                                             predictions scaleFactor) in
     let matched :=
       In (id t) (activeIds (associate Math_sqrt st now predictions scaleFactor)) in
     let alpha := if (processingInterval st >? Fin 300)%js then Fin 0.5 else Fin 0.4 in
     (isMovingFast st = false -> matched ->
      exists pred t',
        In pred predictions /\ accepted pred = true /\ class t = pred_class pred /\
        Map_get (trackers st') (id t) = Some t' /\
        physics t' = physics t /\
        lockedBox t'
        = lerpBox (lockedBox t) (scaleBox (pred_bbox pred) scaleFactor) alpha /\
        towardBox (lockedBox t) (scaleBox (pred_bbox pred) scaleFactor) (lockedBox t'))
     /\
     (isMovingFast st = true \/ ~ matched ->
      Map_get (trackers st') (id t) = Some t)).
Proof.
  intros Hwf Hin. split.
  - intros now vw vh w h lo t' Hg speed tgt.
    pose proof (tick_tracker Math_tan now vw vh w h lo t Hwf Hin) as Ht.
    unfold tickResult in Ht. cbv zeta in Ht.
    destruct (evicts now _).
    + destruct Ht as (Hk & _). apply Map_get_keys in Hg. contradiction.
    + destruct Ht as (Hg' & _). rewrite Hg' in Hg. inversion Hg; subst t'; clear Hg.
      split; [reflexivity|].
      split; [subst tgt; simpl; destruct (calculate3DPosition _ _ _ _ _ _ _ _); reflexivity|].
      split; [reflexivity|].
      change (towardV (current (physics t)) tgt (lerpV (current (physics t)) tgt speed)).
      subst speed. destruct (isMovingFast st); apply lerpV_toward; lra.
  - intros now nowCheck mode preds sf st' matched alpha.
    destruct (@handleWorkerPredictions_matched Math_sqrt st now nowCheck mode preds sf t
                Hwf Hin) as [Hkeep Hmatch].
    split; [|exact Hkeep].
    intros Hm Hact.
    destruct (Hmatch Hm Hact) as (pred & Hp & Hacc & Hc & _ & Hg).
    exists pred. eexists.
    split; [exact Hp|]. split; [exact Hacc|]. split; [exact Hc|].
    split; [exact Hg|]. split; [reflexivity|]. split; [reflexivity|].
    change (towardBox (lockedBox t) (scaleBox (pred_bbox pred) sf)
                      (lerpBox (lockedBox t) (scaleBox (pred_bbox pred) sf) alpha)).
    subst alpha. destruct (_ >? _)%js; apply lerpBox_toward; lra.
Qed.

(** A track at [x = 100] matched by a detection at [x = 110]: the worker
    result puts its id in [activeIds] and moves the left edge of its box to
    [104]. *)
Lemma C7_smoothing_steps_are_bounded_witness :
  let t := trackAt 1 "person" 5000 1 100 100 50 200 in
  let st := stateOf [t] 2 in
  let d := detection "person" 0.9 110 100 50 200 in
  let st' := fst (handleWorkerPredictions sqrt_fixed st 5016 5016 AUTO [d] (Fin 1)) in
  (wf st /\ In t (trackers st)) /\
  activeIds (associate sqrt_fixed st 5016 [d] (Fin 1)) = [1%N] /\
  exists pred t',
    In pred [d] /\ accepted pred = true /\ class t = pred_class pred /\
    Map_get (trackers st') 1 = Some t' /\
    physics t' = physics t /\
    lockedBox t' = lerpBox (lockedBox t) (scaleBox (pred_bbox pred) (Fin 1)) (Fin 0.4) /\
    towardBox (lockedBox t) (scaleBox (pred_bbox pred) (Fin 1)) (lockedBox t').
Proof.
  intros t st d st'.
  assert (Hwf : wf st) by (subst st t; prove_wf).
  assert (Hin : In t (trackers st)) by (left; reflexivity).
  assert (Hact : activeIds (associate sqrt_fixed st 5016 [d] (Fin 1)) = [1%N])
    by (vm_compute; reflexivity).
  assert (Hm : isMovingFast st = false) by reflexivity.
  assert (Hmatched : In (id t) (activeIds (associate sqrt_fixed st 5016 [d] (Fin 1)))).
  { rewrite Hact. left. reflexivity. }
  split; [exact (conj Hwf Hin)|]. split; [exact Hact|].
  exact (proj1 (proj2 (@C7_smoothing_steps_are_bounded sqrt_fixed tan_lambert st t Hwf Hin)
                      5016%Z 5016%Z AUTO [d] (Fin 1)) Hm Hmatched).
Defined.

(** There the box has moved: its left edge is at [104], four tenths of the
    way from [100] to [110]. *)
Example box_step_sample :
  let t := trackAt 1 "person" 5000 1 100 100 50 200 in
  let st := stateOf [t] 2 in
  let d := detection "person" 0.9 110 100 50 200 in
  map (fun t' => eqb (box0 (lockedBox t')) (Fin 104))
      (trackers (fst (handleWorkerPredictions sqrt_fixed st 5016 5016 AUTO [d] (Fin 1))))
  = [true].
Proof. vm_compute. reflexivity. Qed.

(** The first tick of a new track takes its depth a fifth of the way from
    the placeholder [-10] to the depth computed from its box. *)
Example position_step_sample :
  let st := fst (runSample [resultAt 5000 [detection "person" 0.9 100 100 50 360]]) in
  let tgt := calculate3DPosition tan_lambert (Fin 75) (boxOf 100 100 50 360) "person"
                                 (Fin 1280) (Fin 720) (Fin 1280) (Fin 720) in
  map (fun t => vz (current (physics t)))
      (trackers (fst (step sqrt_fixed tan_lambert st (frameAt 5016))))
  = [lerp (Fin (-10)) (vz tgt) (Fin 0.2)].
Proof. vm_compute. reflexivity. Qed.

(* ================================================================== *)
(** * Association *)
(* ================================================================== *)

Section Unmatched.

Variable Math_sqrt : number -> number.
Variables (now : Z) (interval : number) (lidar : bool) (scaleFactor : number).

Let process := processPrediction Math_sqrt now interval lidar scaleFactor.

(** A tracker the pass has not matched or created is a tracker that was
    there before. *)
Lemma process_unmatched a pred t :
  assoc_inv a ->
  In t (a_trackers (process a pred)) -> ~ In (id t) (activeIds (process a pred)) ->
  In t (a_trackers a) /\ ~ In (id t) (activeIds a).
Proof.
  intros Hinv Hin Hna.
  destruct (pred_score pred <? Fin 0.2)%js eqn:Hs.
  { unfold process in *. rewrite processPrediction_low in Hin, Hna by assumption. auto. }
  pose proof (processPrediction_spec Math_sqrt now interval lidar scaleFactor
                                     pred Hinv Hs) as Hs'.
  cbv zeta in Hs'. fold process in Hs'.
  destruct Hs' as [_ [(l1 & t0 & l2 & H)|H]].
  - destruct H as (Etr & _ & _ & _ & _ & Etr' & _ & _ & _ & Eact).
    rewrite Eact in Hna. rewrite in_app_iff in Hna. simpl in Hna.
    rewrite Etr' in Hin. rewrite Etr.
    split; [|tauto].
    apply in_app_iff in Hin. apply in_app_iff.
    destruct Hin as [Hin|[Hin|Hin]]; [now left| |right; now right].
    subst t. exfalso. apply Hna. right. left. reflexivity.
  - destruct H as (_ & _ & Etr' & _ & _ & _ & Eact).
    rewrite Eact in Hna. rewrite in_app_iff in Hna. simpl in Hna.
    rewrite Etr' in Hin.
    split; [|tauto].
    apply in_app_iff in Hin. destruct Hin as [Hin|[Hin|[]]]; [assumption|].
    subst t. exfalso. apply Hna. right. left. reflexivity.
Qed.

Lemma fold_process_unmatched predictions : forall a t,
  assoc_inv a ->
  In t (a_trackers (fold_left process predictions a)) ->
  ~ In (id t) (activeIds (fold_left process predictions a)) ->
  In t (a_trackers a) /\ ~ In (id t) (activeIds a).
Proof.
  induction predictions as [|p ps IH]; simpl; intros a t Hinv Hin Hna; [auto|].
  pose proof (processPrediction_inv Math_sqrt now interval lidar scaleFactor
                                    p Hinv) as Hinv1.
  fold process in Hinv1.
  destruct (IH _ _ Hinv1 Hin Hna) as [Hin1 Hna1].
  eapply process_unmatched; eauto.
Qed.

End Unmatched.

(** The trackers an association pass has not touched so far are the
    trackers of the registry it started from that no earlier detection of
    the batch has matched. *)
Lemma associate_unmatched Math_sqrt st now predictions scaleFactor t :
  wf st ->
  let a := associate Math_sqrt st now predictions scaleFactor in
  (In t (a_trackers a) /\ ~ In (id t) (activeIds a))
  <-> (In t (trackers st) /\ ~ In (id t) (activeIds a)).
Proof.
  intros Hwf a. split.
  - intros [Hin Hna]. split; [|assumption].
    destruct (@fold_process_unmatched Math_sqrt now (processingInterval st)
                (isLidarAvailable st) scaleFactor predictions (startAssoc st) t
                (startAssoc_inv Hwf) Hin Hna) as [H _].
    exact H.
  - intros [Hin Hna]. split; [|assumption].
    assert (Hg : Map_get (a_trackers (startAssoc st)) (id t) = Some t).
    { apply In_Map_get; [apply Hwf|assumption]. }
    destruct (@fold_process_get Math_sqrt now (processingInterval st)
                (isLidarAvailable st) scaleFactor predictions
                (startAssoc st) (id t) t (startAssoc_inv Hwf) Hg)
      as [[Hg' _]|(_ & Hact & _)].
    + apply Map_get_In in Hg'. apply Hg'.
    + contradiction.
Qed.

(** C1, as stated, fails.  Track 1 is the only track and a person; the
    detection [d2] is a person 5 units away from it.  Alone in its batch
    [d2] matches track 1.  After [d1], which matched track 1 first, [d2] is
    still 5 units from the only track of its class and yet starts track 2:
    a track takes one detection per batch.  And with the rapid-motion flag
    set the batch is dropped as a whole. *)
Lemma C1_nearest_track_already_taken :
  let t := trackAt 1 "person" 5000 1 100 100 50 200 in
  let st := stateOf [t] 2 in
  let moving :=
    fst (step sqrt_fixed tan_lambert st (Environment true (Fin 200) false (Fin 75))) in
  let d1 := detection "person" 0.9 100 100 50 200 in
  let d2 := detection "person" 0.9 103 104 50 200 in
  let after ds := trackers (fst (step sqrt_fixed tan_lambert st (resultAt 5016 ds))) in
  map id (after [d2]) = [1%N] /\
  map id (after [d1]) = [1%N] /\
  map (fun t' => eqb (cornerDist sqrt_fixed (scaleBox (pred_bbox d2) (Fin 1)) (lockedBox t'))
                     (Fin 5))
      (after [d1]) = [true] /\
  map id (after [d1; d2]) = [1%N; 2%N] /\
  step sqrt_fixed tan_lambert moving (resultAt 5016 [d2]) = (moving, SceneOut None).
Proof. vm_compute. repeat split. Qed.

(** C1, amended.  A worker result that arrives while the rapid-motion flag
    is set is dropped.  Otherwise its detections are processed in order,
    and for a detection that passes the confidence floor: its box is scaled
    by [scaleFactor]; its candidates are the tracks that were in the
    registry when the batch arrived, that no earlier detection of the batch
    has matched, and whose class is the detection's; if a candidate lies
    strictly within 200 units (distance between top-left corners), the
    detection is matched to a candidate at minimal distance, the first such
    in registry order, which alone is updated; if none does, a track is
    appended under the next id, which no track carries, with the scaled
    detection box, the placeholder position [(0, 0, -10)] and opacity
    [1.0]. *)
Theorem C1_association_of_a_detection Math_sqrt st now nowCheck mode pre pred post
    scaleFactor :
  wf st -> accepted pred = true ->
  let process :=
    processPrediction Math_sqrt now (processingInterval st) (isLidarAvailable st)
                      scaleFactor in
  let a := associate Math_sqrt st now pre scaleFactor in
  let a' := process a pred in
  let scaledBbox := scaleBox (pred_bbox pred) scaleFactor in
  let dist t := cornerDist Math_sqrt scaledBbox (lockedBox t) in
  let alpha := if (processingInterval st >? Fin 300)%js then Fin 0.5 else Fin 0.4 in
  let candidate t :=
    In t (trackers st) /\ ~ In (id t) (activeIds a) /\ class t = pred_class pred in
  (isMovingFast st = true ->
   handleWorkerPredictions Math_sqrt st now nowCheck mode (pre ++ pred :: post) scaleFactor
   = (st, None))
  /\
  (isMovingFast st = false ->
   trackers (fst (handleWorkerPredictions Math_sqrt st now nowCheck mode
                                          (pre ++ pred :: post) scaleFactor))
   = a_trackers (fold_left process post a'))
  /\
  scaledBbox
  = {| box0 := (box0 (pred_bbox pred) * scaleFactor)%js;
       box1 := (box1 (pred_bbox pred) * scaleFactor)%js;
       box2 := (box2 (pred_bbox pred) * scaleFactor)%js;
       box3 := (box3 (pred_bbox pred) * scaleFactor)%js |}
  /\
  ((exists l1 t l2,
      a_trackers a = l1 ++ t :: l2 /\ candidate t /\
      (dist t <? Fin 200)%js = true /\
      (forall t', In t' l1 -> candidate t' -> leb (dist t') (dist t) = false) /\
      (forall t', In t' l2 -> candidate t' -> (dist t' <? dist t)%js = false) /\
      a_trackers a' = l1 ++ matchUpdate now alpha scaledBbox pred t :: l2 /\
      a_labels a' = a_labels a /\ a_nextId a' = a_nextId a)
   \/
   ((forall t, candidate t -> (dist t <? Fin 200)%js = false) /\
    ~ In (a_nextId a) (Map_keys (a_trackers a)) /\
    exists nt,
      a_trackers a' = a_trackers a ++ [nt] /\
      id nt = a_nextId a /\ class nt = pred_class pred /\
      lockedBox nt = scaledBbox /\
      current (physics nt) = {| vx := Fin 0; vy := Fin 0; vz := Fin (-10) |} /\
      opacity nt = Fin 1.0 /\
      a_labels a' = a_labels a ++ [a_nextId a] /\
      a_nextId a' = (a_nextId a + 1)%N)).
Proof.
  intros Hwf Hacc process a a' scaledBbox dist alpha candidate.
  split.
  { intros Hm. unfold handleWorkerPredictions. now rewrite Hm. }
  split.
  { intros Hm.
    destruct (handleWorkerPredictions_core Math_sqrt st now nowCheck mode
                (pre ++ pred :: post) scaleFactor Hm) as (Ht & _ & _).
    rewrite Ht. unfold associate. rewrite fold_left_app. reflexivity. }
  split; [reflexivity|].
  assert (Hinv : assoc_inv a) by (apply associate_inv; assumption).
  assert (Hs : (pred_score pred <? Fin 0.2)%js = false).
  { unfold accepted in Hacc. now apply negb_true_iff in Hacc. }
  pose proof (processPrediction_spec Math_sqrt now (processingInterval st)
                (isLidarAvailable st) scaleFactor pred Hinv Hs) as Hspec.
  cbv zeta in Hspec. fold process a' scaledBbox alpha in Hspec.
  assert (Hcand : forall t,
             candidate t <->
             (In t (a_trackers a) /\ ~ In (id t) (activeIds a) /\
              class t = pred_class pred)).
  { intros t. unfold candidate.
    pose proof (@associate_unmatched Math_sqrt st now pre scaleFactor t Hwf) as H.
    cbv zeta in H. fold a in H. tauto. }
  destruct Hspec as [_ [Hm|Hc]].
  - left. destruct Hm as (l1 & t & l2 & Etr & Hc & Hlt & H1 & H2 & Etr' & El & En & _).
    exists l1, t, l2.
    split; [assumption|]. split; [now apply Hcand|]. split; [assumption|].
    split; [intros t' Hin Hc'; apply H1; [assumption|now apply Hcand]|].
    split; [intros t' Hin Hc'; apply H2; [assumption|now apply Hcand]|].
    auto.
  - right. destruct Hc as (Hnone & Hfresh & Etr' & El & En & _).
    split; [intros t Hc; apply Hnone; now apply Hcand|].
    split; [assumption|].
    eexists. split; [exact Etr'|]. repeat split; assumption.
Qed.

(** Two person tracks, at [(100, 100)] and at [(300, 100)], and a person
    detected at [(103, 104)]. *)
Lemma C1_association_of_a_detection_witness :
  let t1 := trackAt 1 "person" 5000 1 100 100 50 200 in
  let t2 := trackAt 2 "person" 5000 1 300 100 50 200 in
  let st := stateOf [t1; t2] 3 in
  let pred := detection "person" 0.9 103 104 50 200 in
  let a := associate sqrt_fixed st 5016 [] (Fin 1) in
  let a' := processPrediction sqrt_fixed 5016 (Fin 200) false (Fin 1) a pred in
  (wf st /\ accepted pred = true) /\
  ((exists l1 t l2,
      a_trackers a = l1 ++ t :: l2 /\
      a_trackers a'
      = l1 ++ matchUpdate 5016 (Fin 0.4) (scaleBox (pred_bbox pred) (Fin 1)) pred t :: l2)
   \/
   (exists nt, a_trackers a' = a_trackers a ++ [nt] /\ id nt = a_nextId a)).
Proof.
  intros t1 t2 st pred a a'.
  assert (Hwf : wf st) by (subst st t1 t2; prove_wf).
  assert (Hacc : accepted pred = true) by reflexivity.
  split; [exact (conj Hwf Hacc)|].
  destruct (@C1_association_of_a_detection sqrt_fixed st 5016%Z 5016%Z AUTO [] pred []
              (Fin 1) Hwf Hacc) as (_ & _ & _ & [Hm|Hc]).
  - left. destruct Hm as (l1 & t & l2 & Etr & _ & _ & _ & _ & Etr' & _).
    exists l1, t, l2. split; [exact Etr|exact Etr'].
  - right. destruct Hc as (_ & _ & nt & Etr' & Hid & _).
    exists nt. split; [exact Etr'|exact Hid].
Defined.

(** There the detection goes to track 1, 5 units away, and track 2, 197.04
    units away and within 200 units too, is left alone. *)
Example association_sample :
  let t1 := trackAt 1 "person" 5000 1 100 100 50 200 in
  let t2 := trackAt 2 "person" 5000 1 300 100 50 200 in
  let st := stateOf [t1; t2] 3 in
  let pred := detection "person" 0.9 103 104 50 200 in
  let a' := associate sqrt_fixed st 5016 [pred] (Fin 1) in
  map (fun t => (id t, lastSeenTime t)) (a_trackers a') = [(1%N, 5016%Z); (2%N, 5000%Z)]
  /\ activeIds a' = [1%N] /\ a_nextId a' = 3%N.
Proof. vm_compute. repeat split. Qed.

(** A detection of another class at the place of a track starts a new
    track, and so does a person 500 units away. *)
Example association_gate_sample :
  let t1 := trackAt 1 "person" 5000 1 100 100 50 50 in
  let st := stateOf [t1] 2 in
  map (fun t => (id t, class t))
      (a_trackers (associate sqrt_fixed st 5016 [detection "cup" 0.9 100 100 50 50] (Fin 1)))
  = [(1%N, "person"); (2%N, "cup")]%string
  /\
  map (fun t => (id t, lastSeenTime t))
      (a_trackers (associate sqrt_fixed st 5016 [detection "person" 0.9 500 500 50 50]
                             (Fin 1)))
  = [(1%N, 5000%Z); (2%N, 5016%Z)].
Proof. vm_compute. repeat split. Qed.

(* ================================================================== *)
(** * Scene changes *)
(* ================================================================== *)

Lemma Map_get_app_fresh m v :
  ~ In (id v) (Map_keys m) -> Map_get (m ++ [v]) (id v) = Some v.
Proof.
  induction m as [|u m IH]; simpl; intros H.
  - now rewrite N.eqb_refl.
  - destruct (N.eqb_spec (id u) (id v)) as [E|E]; [tauto|]. apply IH. tauto.
Qed.

Lemma Forall2_impl_In (A B : Type) (R R' : A -> B -> Prop) l1 l2 :
  Forall2 R l1 l2 ->
  (forall x y, In x l1 -> R x y -> R' x y) ->
  Forall2 R' l1 l2.
Proof.
  induction 1 as [|x y l1 l2 Hxy _ IH]; intros Himp; constructor.
  - apply Himp; [now left|assumption].
  - apply IH. intros x' y' Hin. apply Himp. now right.
Qed.

Section Classes.

Variable Math_sqrt : number -> number.
Variables (now : Z) (interval : number) (lidar : bool) (scaleFactor : number).

Let process := processPrediction Math_sqrt now interval lidar scaleFactor.

(** The tracks a pass has matched or created, in the order of the accepted
    detections, have the classes of those detections. *)
Let classed (a : AssocState) : Prop :=
  Forall2 (fun k c => exists t, Map_get (a_trackers a) k = Some t /\ class t = c)
          (activeIds a) (currentClasses a).

Lemma process_classed a pred :
  assoc_inv a -> classed a -> classed (process a pred).
Proof.
  intros Hinv Hcl.
  destruct (pred_score pred <? Fin 0.2)%js eqn:Hs.
  { unfold process. now rewrite processPrediction_low. }
  pose proof (processPrediction_spec Math_sqrt now interval lidar scaleFactor
                                     pred Hinv Hs) as Hs'.
  cbv zeta in Hs'. fold process in Hs'.
  destruct Hinv as (Hnx & Hnd & Hall & Hlab & Hav & Hact).
  destruct Hs' as [Ecls [(l1 & t0 & l2 & H)|H]]; unfold classed; rewrite Ecls.
  - destruct H as (Etr & (Hin & Hna & Hc) & _ & _ & _ & Etr' & _ & _ & _ & Eact).
    rewrite Eact.
    assert (Hni1 : ~ In (id t0) (Map_keys l1)).
    { rewrite Etr in Hnd. unfold Map_keys in Hnd |- *. rewrite map_app in Hnd.
      simpl in Hnd. apply NoDup_remove_2 in Hnd. rewrite in_app_iff in Hnd. tauto. }
    rewrite Etr'.
    match goal with
    | |- context [l1 ++ ?v :: l2] =>
        replace (l1 ++ v :: l2) with (Map_set (a_trackers a) (id t0) v)
          by (rewrite Etr; now apply Map_set_split)
    end.
    apply Forall2_app.
    + eapply Forall2_impl_In; [exact Hcl|].
      intros k c Hk (t & Hg & Ht). exists t. split; [|assumption].
      rewrite Map_get_set_other; [assumption|reflexivity|].
      intros ->. contradiction.
    + constructor; [|constructor]. eexists. split.
      * now apply Map_get_set_same.
      * simpl. exact Hc.
  - destruct H as (_ & Hfresh & Etr' & _ & _ & _ & Eact).
    rewrite Eact, Etr'.
    apply Forall2_app.
    + eapply Forall2_impl_In; [exact Hcl|].
      intros k c Hk (t & Hg & Ht). exists t. split; [|assumption].
      now apply Map_get_app_l.
    + constructor; [|constructor]. eexists. split.
      * apply (@Map_get_app_fresh (a_trackers a)
                 (newTracker now lidar (a_nextId a)
                             (scaleBox (pred_bbox pred) scaleFactor) pred)).
        exact Hfresh.
      * reflexivity.
Qed.

Lemma fold_process_classes predictions : forall a,
  assoc_inv a -> classed a ->
  let a' := fold_left process predictions a in
  classed a' /\
  currentClasses a' = currentClasses a ++ map pred_class (filter accepted predictions).
Proof.
  induction predictions as [|p ps IH]; intros a Hinv Hcl; simpl; cbv zeta.
  - split; [assumption|]. now rewrite app_nil_r.
  - pose proof (processPrediction_inv Math_sqrt now interval lidar scaleFactor
                                      p Hinv) as Hinv1.
    fold process in Hinv1.
    destruct (IH _ Hinv1 (process_classed p Hinv Hcl)) as [Hcl' Ec].
    split; [assumption|]. rewrite Ec. unfold accepted at 2.
    destruct (pred_score p <? Fin 0.2)%js eqn:Hs; simpl.
    + unfold process. now rewrite processPrediction_low.
    + pose proof (processPrediction_spec Math_sqrt now interval lidar scaleFactor
                                         p Hinv Hs) as [E _].
      fold process in E. rewrite E. now rewrite <- app_assoc.
Qed.

End Classes.

(** The classes an association pass hands to the scene check are the
    classes of the accepted detections, which are the classes of the tracks
    the pass matched or created. *)
Lemma associate_classes Math_sqrt st now predictions scaleFactor :
  wf st ->
  let a := associate Math_sqrt st now predictions scaleFactor in
  currentClasses a = map pred_class (filter accepted predictions) /\
  Forall2 (fun k c => exists t, Map_get (a_trackers a) k = Some t /\ class t = c)
          (activeIds a) (currentClasses a).
Proof.
  intros Hwf a.
  destruct (@fold_process_classes Math_sqrt now (processingInterval st)
              (isLidarAvailable st) scaleFactor predictions (startAssoc st)
              (startAssoc_inv Hwf)) as [Hcl Ec].
  { constructor. }
  fold (associate Math_sqrt st now predictions scaleFactor) in Hcl, Ec.
  fold a in Hcl, Ec. split; [exact Ec|exact Hcl].
Qed.

(** C5, as stated, fails.  The first pass, at 5000, reports [person].  The
    pass at 7000 sees the same signature and reports nothing, but it
    restarts the 2000 ms window; so the pass at 8000, whose signature
    [cup,person] differs from the last reported one and which comes 3000 ms
    after the previous report, is suppressed.  And a handler that holds the
    mode [SILENT] emits nothing for a pass that meets both conditions. *)
Lemma C5_change_suppressed_after_unreported_pass :
  let person := detection "person" 0.9 100 100 50 200 in
  let cup := detection "cup" 0.9 400 300 20 30 in
  snd (runSample [resultAt 5000 [person]; resultAt 7000 [person];
                  resultAt 8000 [person; cup]])
  = [SceneOut (Some (Dynamics "PERSON x1")); SceneOut None; SceneOut None]
  /\
  lastObjectSet (fst (runSample [resultAt 5000 [person]; resultAt 7000 [person]]))
  = "person"%string
  /\
  String.concat "," (sort_strings (map pred_class (filter accepted [person; cup])))
  = "cup,person"%string
  /\
  snd (runSample [WorkerResult 5000 5000 SILENT [person] (Fin 1)]) = [SceneOut None].
Proof. vm_compute. repeat split. Qed.

(** C5, amended.  A worker result that arrives while the rapid-motion flag
    is set is dropped, scene check included.  Otherwise the classes handed
    to the scene check are those of the tracks the pass matched or created,
    one per accepted detection, and: if fewer than 2000 ms have elapsed
    since the last pass that got this far (whether or not it reported
    anything), nothing is emitted and nothing is recorded; else the time of
    the pass and the signature (the classes sorted and joined by commas)
    are recorded, and a change event is emitted exactly when the signature
    differs from the recorded one and [mode] is not [SILENT].  Here [mode]
    is the analysis mode held by the closure of the message handler, which
    is installed once: the mode the component was mounted with, not the
    one it may have been switched to since. *)
Theorem C5_scene_change_is_throttled Math_sqrt st now nowCheck mode predictions
    scaleFactor :
  wf st ->
  let res :=
    handleWorkerPredictions Math_sqrt st now nowCheck mode predictions scaleFactor in
  let a := associate Math_sqrt st now predictions scaleFactor in
  let classes := map pred_class (filter accepted predictions) in
  let sig := String.concat "," (sort_strings classes) in
  if isMovingFast st then res = (st, None)
  else
    Forall2 (fun k c => exists t, Map_get (trackers (fst res)) k = Some t /\ class t = c)
            (activeIds a) classes
    /\
    if (nowCheck - lastAnalysisTime st <? 2000)%Z then
      snd res = None /\
      lastObjectSet (fst res) = lastObjectSet st /\
      lastAnalysisTime (fst res) = lastAnalysisTime st
    else
      lastAnalysisTime (fst res) = nowCheck /\
      lastObjectSet (fst res) = sig /\
      (snd res <> None <-> (sig <> lastObjectSet st /\ mode <> SILENT)).
Proof.
  intros Hwf res a classes sig.
  destruct (isMovingFast st) eqn:Hm.
  { subst res. unfold handleWorkerPredictions. now rewrite Hm. }
  destruct (@associate_classes Math_sqrt st now predictions scaleFactor Hwf) as [Ec Hcl].
  fold a in Ec, Hcl. fold classes in Ec.
  destruct (handleWorkerPredictions_core Math_sqrt st now nowCheck mode predictions
                                         scaleFactor Hm) as (Ht & _ & _).
  fold res a in Ht.
  split.
  { rewrite Ht. rewrite <- Ec. exact Hcl. }
  subst res. unfold handleWorkerPredictions. rewrite Hm. cbv zeta.
  fold a. rewrite Ec. unfold checkSceneChange.
  cbn [lastAnalysisTime lastObjectSet].
  destruct (nowCheck - lastAnalysisTime st <? 2000)%Z.
  { cbn. auto. }
  cbv zeta. fold sig.
  destruct (String.eqb_spec sig (lastObjectSet st)) as [E|E]; cbn [negb fst snd].
  - cbn. split; [reflexivity|]. split; [now rewrite E|].
    split; [intros H; now contradiction H|]. intros [H _]. contradiction.
  - cbn [lastAnalysisTime lastObjectSet]. split; [reflexivity|]. split; [reflexivity|].
    destruct mode; split.
    + intros _. split; [assumption|discriminate].
    + intros _. discriminate.
    + intros _. split; [assumption|discriminate].
    + intros _. discriminate.
    + intros H. now contradiction H.
    + intros [_ H]. now contradiction H.
Qed.

(** The first pass of a session, at 5000, over one person. *)
Lemma C5_scene_change_is_throttled_witness :
  let preds := [detection "person" 0.9 100 100 50 200] in
  let res := handleWorkerPredictions sqrt_fixed initialState 5000 5000 AUTO preds (Fin 1) in
  wf initialState /\
  lastAnalysisTime (fst res) = 5000%Z /\
  lastObjectSet (fst res) = "person"%string /\
  (snd res <> None <-> ("person"%string <> EmptyString /\ AUTO <> SILENT)).
Proof.
  intros preds res.
  split; [exact wf_initialState|].
  exact (proj2 (@C5_scene_change_is_throttled sqrt_fixed initialState 5000%Z 5000%Z AUTO
                  preds (Fin 1) wf_initialState)).
Defined.

(** Two changes of signature inside one window give one event. *)
Example debounce_sample :
  let person := detection "person" 0.9 100 100 50 200 in
  let cup := detection "cup" 0.9 400 300 20 30 in
  snd (runSample [resultAt 5000 [person]; resultAt 5500 [person; cup];
                  resultAt 6000 [cup]])
  = [SceneOut (Some (Dynamics "PERSON x1")); SceneOut None; SceneOut None].
Proof. vm_compute. reflexivity. Qed.

(* ================================================================== *)
(** * The registry over whole runs *)
(* ================================================================== *)

Lemma Forall_Map_set (P : TrackerState -> Prop) m k v :
  Forall P m -> P v -> Forall P (Map_set m k v).
Proof.
  intros Hm Hv. induction m as [|t m IH]; simpl.
  - constructor; [assumption|constructor].
  - inversion Hm; subst. destruct (N.eqb (id t) k); constructor; auto.
Qed.

Lemma Forall_Map_delete (P : TrackerState -> Prop) m k :
  Forall P m -> Forall P (Map_delete m k).
Proof.
  intros Hm. unfold Map_delete. apply Forall_forall. intros t Ht.
  apply filter_In in Ht. destruct Ht as [Ht _].
  revert t Ht. apply Forall_forall. assumption.
Qed.

Lemma pristine_newTracker now lidar newId scaledBbox pred :
  pristine (newTracker now lidar newId scaledBbox pred).
Proof. unfold pristine, newTracker. simpl. repeat split. Qed.

Lemma pristine_matchUpdate now lerpFactor scaledBbox pred t :
  pristine t -> pristine (matchUpdate now lerpFactor scaledBbox pred t).
Proof.
  unfold pristine, matchUpdate. simpl. intros (H1 & _ & H3 & H4 & H5 & H6).
  repeat split; assumption.
Qed.

Lemma pristine_tick Math_tan st now videoW videoH width height t :
  pristine t ->
  pristine (advanceTracker Math_tan st now videoW videoH width height t) /\
  pristine (advanceScan (advanceTracker Math_tan st now videoW videoH width height t)).
Proof.
  unfold pristine, advanceScan, advanceTracker. cbv zeta. simpl.
  intros (H1 & H2 & H3 & H4 & H5 & H6). rewrite H1. simpl.
  repeat split; assumption.
Qed.

Lemma processPrediction_pristine Math_sqrt now interval lidar scaleFactor a pred :
  Forall pristine (a_trackers a) ->
  Forall pristine
         (a_trackers (processPrediction Math_sqrt now interval lidar scaleFactor a pred)).
Proof.
  intros Ha. unfold processPrediction. cbv zeta.
  destruct (pred_score pred <? Fin 0.2)%js; [assumption|].
  destruct (truthyId _) as [tid|].
  - destruct (Map_get (a_trackers a) tid) as [t|] eqn:Hg; [|assumption].
    simpl. apply Forall_Map_set; [assumption|].
    apply pristine_matchUpdate.
    apply Map_get_In in Hg. destruct Hg as [Hin _].
    revert t Hin. apply Forall_forall. assumption.
  - simpl. apply Forall_Map_set; [assumption|apply pristine_newTracker].
Qed.

Lemma fold_process_pristine Math_sqrt now interval lidar scaleFactor predictions :
  forall a,
    Forall pristine (a_trackers a) ->
    Forall pristine
           (a_trackers (fold_left (processPrediction Math_sqrt now interval lidar
                                                     scaleFactor) predictions a)).
Proof.
  induction predictions as [|p ps IH]; intros a Ha; simpl; [assumption|].
  apply IH. apply processPrediction_pristine. assumption.
Qed.

Lemma tick_fold_pristine Math_tan st now videoW videoH width height localObjects :
  forall trs k,
    Forall pristine trs ->
    Forall pristine (k_trackers k) ->
    Forall (fun o => obj_scanProgress o = Fin 0) (nextLocalObjects k) ->
    let k' := fold_left (tickTracker Math_tan st now videoW videoH width height
                                     localObjects) trs k in
    Forall pristine (k_trackers k') /\
    Forall (fun o => obj_scanProgress o = Fin 0) (nextLocalObjects k').
Proof.
  induction trs as [|t trs IH]; intros k Ht Hk Ho; simpl; [split; assumption|].
  inversion Ht as [|? ? Hp Ht']; subst.
  destruct (@pristine_tick Math_tan st now videoW videoH width height _ Hp) as [P1 P2].
  apply IH; [assumption| |]; unfold tickTracker; cbv zeta;
    destruct (evicts _ _); simpl.
  - apply Forall_Map_delete. apply Forall_Map_set; assumption.
  - apply Forall_Map_set; assumption.
  - assumption.
  - apply Forall_app. split; [assumption|].
    constructor; [|constructor]. simpl. apply P2.
Qed.

Lemma step_pristine Math_sqrt Math_tan st ev :
  Forall pristine (trackers st) ->
  Forall pristine (trackers (fst (step Math_sqrt Math_tan st ev))) /\
  Forall (fun o => obj_scanProgress o = Fin 0)
         (outputObjects (snd (step Math_sqrt Math_tan st ev))).
Proof.
  intros Hp. destruct ev as [now nowCheck mode preds sf|now vw vh iw ih lo|m i l f].
  - unfold step.
    destruct (handleWorkerPredictions Math_sqrt st now nowCheck mode preds sf)
      as [st' msg] eqn:E.
    simpl. split; [|constructor].
    assert (Hst : st' = fst (handleWorkerPredictions Math_sqrt st now nowCheck mode
                                                     preds sf)) by now rewrite E.
    destruct (isMovingFast st) eqn:Hm.
    + unfold handleWorkerPredictions in Hst. rewrite Hm in Hst. subst st'. exact Hp.
    + destruct (handleWorkerPredictions_core Math_sqrt st now nowCheck mode preds sf Hm)
        as (Ht & _).
      rewrite Hst, Ht. unfold associate. apply fold_process_pristine. exact Hp.
  - unfold step, updateVisualsAndPhysics. cbv zeta. simpl.
    destruct (@tick_fold_pristine Math_tan st now (or_else vw (Fin 1280))
                (or_else vh (Fin 720)) iw ih lo (trackers st)
                {| k_trackers := trackers st; k_labels := labels st;
                   nextLocalObjects := [] |} Hp Hp (Forall_nil _)) as [H1 H2].
    split; [exact H1|].
    apply Forall_forall. intros o Ho. apply (proj1 (sortObjects_In _ _)) in Ho.
    revert o Ho. apply Forall_forall. exact H2.
  - simpl. split; [exact Hp|constructor].
Qed.

Lemma run_pristine Math_sqrt Math_tan evs : forall st,
  Forall pristine (trackers st) ->
  Forall pristine (trackers (fst (run Math_sqrt Math_tan st evs))) /\
  Forall (fun out => Forall (fun o => obj_scanProgress o = Fin 0) (outputObjects out))
         (snd (run Math_sqrt Math_tan st evs)).
Proof.
  induction evs as [|ev evs IH]; intros st Hp; simpl; [split; [assumption|constructor]|].
  destruct (@step_pristine Math_sqrt Math_tan st ev Hp) as [H1 H2].
  destruct (step Math_sqrt Math_tan st ev) as [st1 o]. simpl in *.
  destruct (IH _ H1) as [H3 H4].
  destruct (run Math_sqrt Math_tan st1 evs) as [st2 os]. simpl in *.
  split; [assumption|constructor; assumption].
Qed.

(** X1.  From start-up on, whatever worker results, frames and changes of
    the environment follow, some fields of a track never leave the values
    it was created with: the scan progress stays [0] (so the scan bar of an
    object never advances and every object is reported with scan progress
    [0]), the miss counter stays [0], the track is never remote, its
    velocity stays zero and its scale [0.1], and its colour is the one of
    its class (gold for a hand, green otherwise). *)
Theorem scan_progress_and_counters_never_move Math_sqrt Math_tan evs :
  let r := run Math_sqrt Math_tan initialState evs in
  Forall (fun t =>
            scanProgress t = Fin 0 /\ consecutiveMisses t = 0%N /\ isRemote t = false /\
            velocity (physics t) = {| vx := Fin 0; vy := Fin 0; vz := Fin 0 |} /\
            scale (physics t) = Fin 0.1 /\
            color t = (if String.eqb (class t) "hand" then 16766720%N else 65280%N))
         (trackers (fst r)) /\
  Forall (fun out => Forall (fun o => obj_scanProgress o = Fin 0) (outputObjects out))
         (snd r).
Proof.
  intros r. subst r.
  exact (@run_pristine Math_sqrt Math_tan evs initialState (Forall_nil _)).
Qed.

(** A hand and a cup, created, matched again and ticked: both still carry
    the values they were created with. *)
Example pristine_sample :
  map (fun t => (id t, color t, scanProgress t, consecutiveMisses t))
      (trackers (fst (runSample
         [resultAt 5000 [detection "hand" 0.9 100 100 50 200;
                         detection "cup" 0.9 400 300 20 30];
          frameAt 5016;
          resultAt 5200 [detection "hand" 0.9 104 100 50 200];
          frameAt 5216])))
  = [(1%N, 16766720%N, Fin 0, 0%N); (2%N, 65280%N, Fin 0, 0%N)].
Proof. vm_compute. reflexivity. Qed.

(** X2.  From start-up on, whatever happens, the registry stays
    consistent: the id counter is positive, no two tracks share an id,
    every id is positive and below the counter, every track has a finite
    opacity in [[0.05, 1]], and the label map has exactly the ids of the
    registry. *)
Theorem registry_is_consistent_in_every_run Math_sqrt Math_tan evs :
  let st := fst (run Math_sqrt Math_tan initialState evs) in
  (0 < nextId st)%N /\
  NoDup (Map_keys (trackers st)) /\
  Forall (fun t => (0 < id t < nextId st)%N /\
                   exists q, opacity t = Fin q /\ (0.05 <= q <= 1)%Q)
         (trackers st) /\
  (forall k, In k (labels st) <-> In k (Map_keys (trackers st))).
Proof.
  exact (@run_wf Math_sqrt Math_tan evs initialState wf_initialState).
Qed.

(* ------------------------------------------------------------------ *)
(** ** What a worker result does to the registry order *)

Section BatchKeys.

Variable Math_sqrt : number -> number.
Variables (now : Z) (interval : number) (lidar : bool) (scaleFactor : number).

Let process := processPrediction Math_sqrt now interval lidar scaleFactor.

Lemma processPrediction_keys a pred :
  assoc_inv a ->
  (Map_keys (a_trackers (process a pred)) = Map_keys (a_trackers a) /\
   a_labels (process a pred) = a_labels a /\
   a_nextId (process a pred) = a_nextId a)
  \/
  (accepted pred = true /\
   Map_keys (a_trackers (process a pred)) = Map_keys (a_trackers a) ++ [a_nextId a] /\
   a_labels (process a pred) = a_labels a ++ [a_nextId a] /\
   a_nextId (process a pred) = (a_nextId a + 1)%N).
Proof.
  intros Ha. destruct (pred_score pred <? Fin 0.2)%js eqn:Es.
  - left. unfold process. rewrite processPrediction_low by assumption. auto.
  - pose proof (@processPrediction_spec Math_sqrt now interval lidar scaleFactor
                  a pred Ha Es) as H.
    cbv zeta in H. fold process in H.
    destruct H as (_ & [(l1 & t & l2 & Hsplit & _ & _ & _ & _ & Ht' & Hl & Hn & _)
                       |(_ & _ & Ht' & Hl & Hn & _)]).
    + left. rewrite Ht', Hsplit. unfold Map_keys. rewrite !map_app. simpl. auto.
    + right. unfold accepted. rewrite Es. rewrite Ht'. unfold Map_keys.
      rewrite map_app. simpl. auto.
Qed.

Lemma fold_process_keys_seq predictions : forall a,
  assoc_inv a ->
  exists n,
    Map_keys (a_trackers (fold_left process predictions a))
    = Map_keys (a_trackers a) ++ map N.of_nat (seq (N.to_nat (a_nextId a)) n) /\
    a_labels (fold_left process predictions a)
    = a_labels a ++ map N.of_nat (seq (N.to_nat (a_nextId a)) n) /\
    a_nextId (fold_left process predictions a) = (a_nextId a + N.of_nat n)%N /\
    (n <= List.length (filter accepted predictions))%nat.
Proof.
  induction predictions as [|p ps IH]; intros a Ha; simpl.
  - exists 0%nat. simpl. rewrite !app_nil_r. repeat split; [lia|lia].
  - pose proof (@processPrediction_inv Math_sqrt now interval lidar scaleFactor
                  a p Ha) as Ha'.
    fold process in Ha'.
    destruct (IH _ Ha') as (n & Hk & Hl & Hn & Hle).
    destruct (processPrediction_keys p Ha)
      as [(Hk1 & Hl1 & Hn1)|(Hacc & Hk1 & Hl1 & Hn1)].
    + exists n. rewrite Hk, Hl, Hn, Hk1, Hl1, Hn1.
      repeat split. destruct (accepted p); simpl; lia.
    + exists (S n). rewrite Hk, Hl, Hn, Hk1, Hl1, Hn1, Hacc.
      replace (N.to_nat (a_nextId a + 1)) with (S (N.to_nat (a_nextId a))) by lia.
      simpl. rewrite N2Nat.id, <- !app_assoc. simpl.
      repeat split; lia.
Qed.

End BatchKeys.

(** X3.  A worker result never removes or reorders tracks: the registry
    keys after it are the keys before it, in the same order, followed by
    the ids of the tracks it created, which are the next [n] values of the
    id counter in order; the label map grows by the same ids, the counter
    advances by [n], and [n] is at most the number of detections that pass
    the confidence floor. *)
Theorem worker_result_appends_consecutive_ids Math_sqrt st now nowCheck mode
    predictions scaleFactor :
  wf st ->
  let st' := fst (handleWorkerPredictions Math_sqrt st now nowCheck mode
                                          predictions scaleFactor) in
  exists n,
    Map_keys (trackers st')
    = Map_keys (trackers st) ++ map N.of_nat (seq (N.to_nat (nextId st)) n) /\
    labels st' = labels st ++ map N.of_nat (seq (N.to_nat (nextId st)) n) /\
    nextId st' = (nextId st + N.of_nat n)%N /\
    (n <= List.length (filter accepted predictions))%nat.
Proof.
  intros Hwf st'. subst st'. destruct (isMovingFast st) eqn:Hm.
  - exists 0%nat. unfold handleWorkerPredictions. rewrite Hm. simpl.
    rewrite !app_nil_r. repeat split; lia.
  - destruct (handleWorkerPredictions_core Math_sqrt st now nowCheck mode predictions
                                           scaleFactor Hm) as (Ht & Hl & Hn).
    rewrite Ht, Hl, Hn. unfold associate.
    exact (@fold_process_keys_seq Math_sqrt now (processingInterval st)
             (isLidarAvailable st) scaleFactor predictions (startAssoc st)
             (startAssoc_inv Hwf)).
Qed.

(** At start-up a batch of three detections, one of them under the floor,
    creates the tracks 1 and 2. *)
Lemma worker_result_appends_consecutive_ids_witness :
  let preds := [detection "person" 0.9 100 100 50 200;
                detection "cup" 0.1 300 300 20 30;
                detection "cup" 0.9 400 300 20 30] in
  let st' := fst (handleWorkerPredictions sqrt_fixed initialState 5000 5000 AUTO
                                          preds (Fin 1)) in
  wf initialState /\
  Map_keys (trackers st') = [1%N; 2%N] /\
  exists n,
    Map_keys (trackers st')
    = Map_keys (trackers initialState)
      ++ map N.of_nat (seq (N.to_nat (nextId initialState)) n) /\
    labels st' = labels initialState
                 ++ map N.of_nat (seq (N.to_nat (nextId initialState)) n) /\
    nextId st' = (nextId initialState + N.of_nat n)%N /\
    (n <= List.length (filter accepted preds))%nat.
Proof.
  intros preds st'.
  split; [exact wf_initialState|].
  split; [vm_compute; reflexivity|].
  exact (@worker_result_appends_consecutive_ids sqrt_fixed initialState 5000 5000 AUTO
           preds (Fin 1) wf_initialState).
Defined.

(* ------------------------------------------------------------------ *)
(** ** One track per detection *)

Section BatchActive.

Variable Math_sqrt : number -> number.
Variables (now : Z) (interval : number) (lidar : bool) (scaleFactor : number).

Let process := processPrediction Math_sqrt now interval lidar scaleFactor.

Lemma processPrediction_active a pred :
  assoc_inv a -> NoDup (activeIds a) ->
  NoDup (activeIds (process a pred)) /\
  List.length (activeIds (process a pred))
  = (List.length (activeIds a) + (if accepted pred then 1 else 0))%nat.
Proof.
  intros Ha Hnd. destruct (pred_score pred <? Fin 0.2)%js eqn:Es.
  - unfold process. rewrite processPrediction_low by assumption.
    unfold accepted. rewrite Es. simpl. split; [assumption|lia].
  - pose proof (@processPrediction_spec Math_sqrt now interval lidar scaleFactor
                  a pred Ha Es) as H.
    cbv zeta in H. fold process in H.
    unfold accepted. rewrite Es. cbn [negb].
    destruct H as (_ & [(l1 & t & l2 & _ & (_ & Hna & _) & _ & _ & _ & _ & _ & _ & _ & Eact)
                       |(_ & Hfresh & _ & _ & _ & _ & Eact)]);
      rewrite Eact, length_app; cbn [List.length]; (split; [|lia]);
      apply NoDup_snoc; try assumption.
    intros Hin. apply Hfresh. destruct Ha as (_ & _ & _ & _ & _ & Hsub). now apply Hsub.
Qed.

Lemma fold_process_active predictions : forall a,
  assoc_inv a -> NoDup (activeIds a) ->
  NoDup (activeIds (fold_left process predictions a)) /\
  List.length (activeIds (fold_left process predictions a))
  = (List.length (activeIds a) + List.length (filter accepted predictions))%nat.
Proof.
  induction predictions as [|p ps IH]; intros a Ha Hnd; simpl.
  - split; [assumption|lia].
  - pose proof (@processPrediction_inv Math_sqrt now interval lidar scaleFactor
                  a p Ha) as Ha'.
    fold process in Ha'.
    destruct (processPrediction_active p Ha Hnd) as [Hnd' Hlen].
    destruct (IH _ Ha' Hnd') as [H1 H2].
    split; [exact H1|]. rewrite H2, Hlen.
    destruct (accepted p); simpl; lia.
Qed.

End BatchActive.

(** X4.  No two detections of a batch end up on the same track: the ids a
    worker result matched or created, one per detection that passes the
    confidence floor, are pairwise distinct, and all of them are in the
    registry when the batch is done. *)
Theorem detections_of_a_batch_get_distinct_tracks Math_sqrt st now predictions
    scaleFactor :
  wf st ->
  let a := associate Math_sqrt st now predictions scaleFactor in
  NoDup (activeIds a) /\
  List.length (activeIds a) = List.length (filter accepted predictions) /\
  (forall k, In k (activeIds a) -> In k (Map_keys (a_trackers a))).
Proof.
  intros Hwf a. subst a. unfold associate.
  pose proof (startAssoc_inv Hwf) as Ha.
  destruct (@fold_process_active Math_sqrt now (processingInterval st)
              (isLidarAvailable st) scaleFactor predictions (startAssoc st) Ha)
    as [H1 H2]; [constructor|].
  split; [exact H1|]. split; [exact H2|].
  pose proof (@fold_process_inv Math_sqrt now (processingInterval st)
                (isLidarAvailable st) scaleFactor predictions (startAssoc st) Ha) as Hinv.
  apply Hinv.
Qed.

(** Two persons five units apart against one track: the first takes the
    track, the second starts a new one. *)
Lemma detections_of_a_batch_get_distinct_tracks_witness :
  let st := stateOf [trackAt 1 "person" 5000 1 100 100 50 200] 2 in
  let preds := [detection "person" 0.9 100 100 50 200;
                detection "person" 0.9 103 104 50 200] in
  let a := associate sqrt_fixed st 5016 preds (Fin 1) in
  wf st /\
  activeIds a = [1%N; 2%N] /\
  NoDup (activeIds a) /\
  List.length (activeIds a) = List.length (filter accepted preds) /\
  (forall k, In k (activeIds a) -> In k (Map_keys (a_trackers a))).
Proof.
  intros st preds a.
  assert (Hwf : wf st) by (subst st; prove_wf).
  split; [exact Hwf|]. split; [vm_compute; reflexivity|].
  exact (@detections_of_a_batch_get_distinct_tracks sqrt_fixed st 5016 preds (Fin 1) Hwf).
Defined.

(* ------------------------------------------------------------------ *)
(** ** What a tick does to the registry and what it reports *)

Lemma insertObject_Permutation o l : Permutation (insertObject o l) (o :: l).
Proof.
  induction l as [|o' l IH]; simpl; [apply Permutation_refl|].
  match goal with |- context [if ?c then _ else _] => destruct c end.
  - eapply perm_trans; [apply perm_skip, IH|apply perm_swap].
  - apply Permutation_refl.
Qed.

Lemma sortObjects_Permutation l : Permutation (sortObjects l) l.
Proof.
  induction l as [|o l IH]; simpl; [constructor|].
  eapply perm_trans; [apply insertObject_Permutation|apply perm_skip, IH].
Qed.

Lemma survivors_keys Math_tan st now videoW videoH width height trs :
  Map_keys (survivors Math_tan st now videoW videoH width height trs)
  = Map_keys
      (filter (fun t => negb (evicts now (advanceTracker Math_tan st now videoW videoH
                                                         width height t))) trs).
Proof.
  induction trs as [|t trs IH]; simpl; [reflexivity|].
  unfold tickResult. cbv zeta.
  destruct (evicts _ _); simpl; [exact IH|]. f_equal. exact IH.
Qed.

(** X5.  A tick never creates or reorders tracks and reports exactly the
    tracks it keeps: the registry keys after the tick are the keys before
    it without those of the tracks it evicts, in the same order; the id
    counter does not move; and the ids of the output list are those keys,
    each exactly once (in depth order instead of registry order). *)
Theorem tick_reports_exactly_the_live_tracks Math_tan st now videoWidth videoHeight
    width height localObjects :
  wf st ->
  let res := updateVisualsAndPhysics Math_tan st now videoWidth videoHeight
                                     width height localObjects in
  let videoW := or_else videoWidth (Fin 1280) in
  let videoH := or_else videoHeight (Fin 720) in
  Map_keys (trackers (fst res))
  = Map_keys
      (filter (fun t => negb (evicts now (advanceTracker Math_tan st now videoW videoH
                                                         width height t)))
              (trackers st)) /\
  nextId (fst res) = nextId st /\
  Permutation (map obj_id (snd res)) (Map_keys (trackers (fst res))) /\
  NoDup (map obj_id (snd res)).
Proof.
  intros Hwf res videoW videoH. subst res.
  pose proof (@tick_spec Math_tan st now videoWidth videoHeight width height localObjects
                (proj1 (proj2 Hwf))) as H.
  cbv zeta in H. fold videoW videoH in H. rewrite H. cbn [fst snd trackers nextId].
  assert (Hperm : Permutation
            (map obj_id (sortObjects
               (map (toObject st now localObjects)
                    (survivors Math_tan st now videoW videoH width height (trackers st)))))
            (Map_keys (survivors Math_tan st now videoW videoH width height
                                 (trackers st)))).
  { eapply perm_trans; [apply Permutation_map, sortObjects_Permutation|].
    rewrite map_map. simpl. apply Permutation_refl. }
  split; [apply survivors_keys|]. split; [reflexivity|]. split; [exact Hperm|].
  eapply Permutation_NoDup; [apply Permutation_sym, Hperm|].
  apply survivors_NoDup. apply Hwf.
Qed.

(** Three tracks, the second about to be evicted: the tick keeps 1 and 3. *)
Lemma tick_reports_exactly_the_live_tracks_witness :
  let st := stateOf [trackAt 1 "person" 5000 1 100 100 50 200;
                     trackAt 2 "cup" 5000 0.05 400 300 20 30;
                     trackAt 3 "chair" 6900 1 600 300 100 100] 4 in
  let res := updateVisualsAndPhysics tan_lambert st 7000 (Fin 1280) (Fin 720)
                                     (Fin 1280) (Fin 720) [] in
  wf st /\
  Map_keys (trackers (fst res)) = [1%N; 3%N] /\
  Permutation (map obj_id (snd res)) (Map_keys (trackers (fst res))) /\
  NoDup (map obj_id (snd res)).
Proof.
  intros st res.
  assert (Hwf : wf st) by (subst st; prove_wf).
  split; [exact Hwf|].
  split; [vm_compute; reflexivity|].
  exact (proj2 (proj2 (@tick_reports_exactly_the_live_tracks tan_lambert st 7000
                         (Fin 1280) (Fin 720) (Fin 1280) (Fin 720) [] Hwf))).
Defined.

(* ------------------------------------------------------------------ *)
(** ** A track over its whole life *)

Lemma step_track Math_sqrt Math_tan st ev t :
  wf st -> In t (trackers st) ->
  (exists t1,
     In t1 (trackers (fst (step Math_sqrt Math_tan st ev))) /\ id t1 = id t /\
     class t1 = class t /\ color t1 = color t /\ hasLidarScan t1 = hasLidarScan t)
  \/ absent (id t) (fst (step Math_sqrt Math_tan st ev)).
Proof.
  intros Hwf Hin.
  destruct ev as [now nowCheck mode preds sf|now vw vh iw ih lo|m i l f].
  - left. unfold step.
    pose proof (@handleWorkerPredictions_get Math_sqrt st now nowCheck mode preds sf t
                  Hwf Hin) as H.
    cbv zeta in H.
    destruct (handleWorkerPredictions Math_sqrt st now nowCheck mode preds sf)
      as [st' msg].
    simpl in *.
    destruct H as [H|(_ & pred & _ & _ & _ & _ & H)];
      apply Map_get_In in H; destruct H as [H _]; eexists; (split; [exact H|]);
      simpl; auto.
  - unfold step.
    pose proof (@tick_tracker Math_tan st now vw vh iw ih lo t Hwf Hin) as H.
    pose proof (@tick_spec Math_tan st now vw vh iw ih lo (proj1 (proj2 Hwf))) as Hs.
    cbv zeta in Hs.
    destruct (updateVisualsAndPhysics Math_tan st now vw vh iw ih lo) as [st' objs].
    simpl in *.
    unfold tickResult in H. cbv zeta in H.
    destruct (evicts _ _).
    + right. destruct H as (H1 & H2 & _). unfold absent.
      inversion Hs; subst. cbn [nextId trackers labels] in *.
      split; [|split; assumption].
      destruct Hwf as (_ & _ & Hf & _).
      rewrite Forall_forall in Hf. apply (Hf t Hin).
    + left. destruct H as (H1 & _). apply Map_get_In in H1. destruct H1 as [H1 _].
      eexists. split; [exact H1|]. simpl. auto.
  - left. exists t. simpl. auto.
Qed.

Lemma run_track Math_sqrt Math_tan evs : forall st t t',
  wf st -> In t (trackers st) ->
  Map_get (trackers (fst (run Math_sqrt Math_tan st evs))) (id t) = Some t' ->
  class t' = class t /\ color t' = color t /\ hasLidarScan t' = hasLidarScan t.
Proof.
  induction evs as [|ev evs IH]; intros st t t' Hwf Hin Hg; simpl in Hg.
  - rewrite (@In_Map_get (trackers st) t (proj1 (proj2 Hwf)) Hin) in Hg. inversion Hg; subst. auto.
  - pose proof (@step_wf Math_sqrt Math_tan st ev Hwf) as Hwf1.
    pose proof (@step_track Math_sqrt Math_tan st ev t Hwf Hin) as Hst.
    pose proof (@run_absent Math_sqrt Math_tan evs (fst (step Math_sqrt Math_tan st ev))
                  (id t) Hwf1) as Hab.
    destruct (step Math_sqrt Math_tan st ev) as [st1 o]. simpl in *.
    specialize (IH st1).
    destruct (run Math_sqrt Math_tan st1 evs) as [st2 os]. simpl in *.
    destruct Hst as [(t1 & Hin1 & Hid & Hc & Hcol & Hl)|Habs].
    + rewrite <- Hid in Hg. destruct (IH t1 t' Hwf1 Hin1 Hg) as (A & B & C).
      rewrite A, B, C. auto.
    + destruct (Hab Habs) as [(_ & Hno & _) _].
      apply Map_get_keys in Hg. contradiction.
Qed.

(** X6.  An id means the same track for as long as it is used: if a track
    is in the registry and, any number of worker results, frames and
    environment changes later, its id is still in the registry, then the
    entry has the class, the colour and the lidar flag the track had. *)
Theorem track_keeps_class_for_life Math_sqrt Math_tan st evs t t' :
  wf st -> In t (trackers st) ->
  Map_get (trackers (fst (run Math_sqrt Math_tan st evs))) (id t) = Some t' ->
  class t' = class t /\ color t' = color t /\ hasLidarScan t' = hasLidarScan t.
Proof. apply run_track. Qed.

(** A person track matched by a later detection and ticked twice. *)
Lemma track_keeps_class_for_life_witness :
  let t := trackAt 1 "person" 5000 1 100 100 50 200 in
  let st := stateOf [t] 2 in
  let evs := [resultAt 5100 [detection "person" 0.9 110 100 50 200;
                             detection "cup" 0.9 400 300 20 30];
              frameAt 5116; frameAt 5132] in
  exists t',
    (wf st /\ In t (trackers st) /\
     Map_get (trackers (fst (run sqrt_fixed tan_lambert st evs))) (id t) = Some t') /\
    class t' = class t /\ color t' = color t /\ hasLidarScan t' = hasLidarScan t.
Proof.
  intros t st evs.
  assert (Hwf : wf st) by (subst st t; prove_wf).
  assert (Hin : In t (trackers st)) by (left; reflexivity).
  destruct (Map_get (trackers (fst (run sqrt_fixed tan_lambert st evs))) (id t))
    as [t'|] eqn:Hg; [|vm_compute in Hg; discriminate Hg].
  exists t'.
  exact (conj (conj Hwf (conj Hin eq_refl))
              (@track_keeps_class_for_life sqrt_fixed tan_lambert st evs t t' Hwf Hin Hg)).
Defined.

(* ================================================================== *)
(** * Order and selection in the output list *)
(* ================================================================== *)

Lemma insertObject_sorted o l :
  finiteDepth o -> Forall finiteDepth l ->
  StronglySorted nearerFirst l -> StronglySorted nearerFirst (insertObject o l).
Proof.
  intros [q Hq] Hl Hs. induction l as [|o' l IH]; simpl.
  - constructor; constructor.
  - inversion Hl as [|? ? [q' Hq'] Hl']; subst.
    inversion Hs as [|? ? Hs' Hall]; subst.
    rewrite Hq, Hq'. simpl.
    destruct (Qltb 0 (q' + - q)) eqn:E; q_bools.
    + constructor; [apply IH; assumption|].
      apply Forall_forall. intros x Hx. apply insertObject_In in Hx.
      destruct Hx as [->|Hx].
      * unfold nearerFirst. rewrite Hq, Hq'. simpl. q_bools. lra.
      * rewrite Forall_forall in Hall. apply Hall. assumption.
    + constructor; [assumption|].
      constructor.
      * unfold nearerFirst. rewrite Hq, Hq'. simpl. q_bools. lra.
      * apply Forall_forall. intros x Hx.
        rewrite Forall_forall in Hall, Hl'.
        specialize (Hall x Hx). destruct (Hl' x Hx) as [qx Hqx].
        unfold nearerFirst in *. rewrite Hqx, Hq in *. rewrite Hq' in Hall.
        simpl in *. q_bools. lra.
Qed.

Lemma sortObjects_sorted l :
  Forall finiteDepth l -> StronglySorted nearerFirst (sortObjects l).
Proof.
  induction l as [|o l IH]; intros Hl; simpl; [constructor|].
  inversion Hl; subst. apply insertObject_sorted; auto.
  apply Forall_forall. intros x Hx. apply (proj1 (sortObjects_In _ _)) in Hx.
  revert x Hx. apply Forall_forall. assumption.
Qed.

(** X7.  When the positions it reports have finite depths, the output list
    of a tick is ordered nearest first: no object comes before one that is
    nearer to the camera (whose [z] is greater). *)
Theorem tick_output_is_ordered_nearest_first Math_tan st now videoWidth videoHeight
    width height localObjects :
  let objs := snd (updateVisualsAndPhysics Math_tan st now videoWidth videoHeight
                                           width height localObjects) in
  Forall (fun o => exists q, vz (obj_position3D o) = Fin q) objs ->
  StronglySorted
    (fun a b => leb (vz (obj_position3D b)) (vz (obj_position3D a)) = true) objs.
Proof.
  intros objs Hfin. subst objs. unfold updateVisualsAndPhysics in *.
  cbv zeta in *. cbn [snd] in *.
  apply sortObjects_sorted.
  apply Forall_forall. intros x Hx. apply (proj2 (sortObjects_In _ _)) in Hx.
  revert x Hx. apply Forall_forall. exact Hfin.
Qed.

(** A far person, registered first, and a near cup: the cup is reported
    first. *)
Lemma tick_output_is_ordered_nearest_first_witness :
  let far := trackAt 1 "person" 5000 1 100 100 50 20 in
  let near := trackAt 2 "cup" 5000 1 400 300 200 700 in
  let st := {| trackers := [{| id := 1; class := "person"; isRemote := false;
                               color := 65280; lastSeenTime := 5000;
                               consecutiveMisses := 0; opacity := Fin 1;
                               lockedBox := lockedBox far;
                               physics := {| current := {| vx := Fin 0; vy := Fin 0;
                                                           vz := Fin (-40) |};
                                             target := {| vx := Fin 0; vy := Fin 0;
                                                          vz := Fin (-40) |};
                                             velocity := velocity (physics far);
                                             scale := Fin 0.1 |};
                               scanProgress := Fin 0; hasLidarScan := false;
                               gesture := None |}; near];
               labels := [1%N; 2%N]; nextId := 3;
               lastObjectSet := EmptyString; lastAnalysisTime := 0;
               isMovingFast := false; processingInterval := Fin 200;
               isLidarAvailable := false; fov := Fin 75 |} in
  let objs := snd (updateVisualsAndPhysics tan_lambert st 5016 (Fin 1280) (Fin 720)
                                           (Fin 1280) (Fin 720) []) in
  map obj_id objs = [2%N; 1%N] /\
  StronglySorted
    (fun a b => leb (vz (obj_position3D b)) (vz (obj_position3D a)) = true) objs.
Proof.
  intros far near st objs.
  split; [vm_compute; reflexivity|].
  apply (@tick_output_is_ordered_nearest_first tan_lambert st 5016 (Fin 1280) (Fin 720)
           (Fin 1280) (Fin 720) []).
  vm_compute.
  constructor; [eexists; reflexivity|].
  constructor; [eexists; reflexivity|].
  constructor.
Defined.

(* ------------------------------------------------------------------ *)
(** ** The selection flag *)

(** X8.  A tick takes the selection flags from the list its closure holds:
    an object of the output is flagged exactly as the first object of its
    id in that list is, and is not flagged when the list has none.  The
    loop that runs is the one started once, with the list of the render
    that started it; with the empty list, which is what that render has
    under [App.tsx], no object of the output is flagged. *)
Theorem tick_flags_come_from_the_list_of_the_closure Math_tan st now videoWidth
    videoHeight width height localObjects :
  Forall (fun o => obj_isSelected o = selectedIn localObjects (obj_id o))
         (snd (updateVisualsAndPhysics Math_tan st now videoWidth videoHeight
                 width height localObjects))
  /\
  Forall (fun o => obj_isSelected o = false)
         (snd (updateVisualsAndPhysics Math_tan st now videoWidth videoHeight
                 width height [])).
Proof.
  split; apply updateVisualsAndPhysics_Forall; intros t; reflexivity.
Qed.

(** Two tracks and a tick that holds the empty list: nothing is flagged. *)
Example selection_sample :
  let st := fst (runSample [resultAt 5000 [detection "person" 0.9 100 100 50 200;
                                           detection "cup" 0.9 400 300 20 30]]) in
  map (fun o => (obj_id o, obj_isSelected o))
      (snd (updateVisualsAndPhysics tan_lambert st 5016 (Fin 1280) (Fin 720)
                                    (Fin 1280) (Fin 720) []))
  = [(2%N, false); (1%N, false)].
Proof. vm_compute. reflexivity. Qed.

(* ================================================================== *)
(** * How long a lost track lasts *)
(* ================================================================== *)

Lemma lost_tick Math_sqrt Math_tan st now vw vh iw ih lo t q :
  wf st -> In t (trackers st) ->
  (now - lastSeenTime t > 500)%Z ->
  opacity t = Fin q ->
  let st1 := fst (step Math_sqrt Math_tan st (AnimationFrame now vw vh iw ih lo)) in
  ((q < 0.1)%Q -> absent (id t) st1) /\
  ((0.1 <= q)%Q ->
   exists t', In t' (trackers st1) /\ id t' = id t /\
              lastSeenTime t' = lastSeenTime t /\ opacity t' = Fin (q - 0.05)).
Proof.
  intros Hwf Hin Hlost Hq st1. subst st1. unfold step.
  assert (Hl : isLost now t = true).
  { unfold isLost. apply Z.gtb_lt. lia. }
  pose proof (@tick_tracker Math_tan st now vw vh iw ih lo t Hwf Hin) as Ht.
  pose proof (@tick_spec Math_tan st now vw vh iw ih lo (proj1 (proj2 Hwf))) as Hs.
  cbv zeta in Hs.
  destruct (updateVisualsAndPhysics Math_tan st now vw vh iw ih lo) as [st' objs].
  cbn [fst snd] in *.
  destruct (@tickResult_lost Math_tan st now vw vh iw ih t Hl) as [Er Eo].
  rewrite Er in Ht. rewrite Hq in Ht. simpl in Ht.
  split; intros Hb.
  - match type of Ht with context [Qltb ?a ?b] => destruct (Qltb a b) eqn:E end;
      q_bools; [|lra].
    destruct Ht as (H1 & H2 & _). unfold absent.
    inversion Hs; subst. cbn [nextId trackers labels] in *.
    split; [|split; assumption].
    destruct Hwf as (_ & _ & Hf & _). rewrite Forall_forall in Hf. apply (Hf t Hin).
  - match type of Ht with context [Qltb ?a ?b] => destruct (Qltb a b) eqn:E end;
      q_bools; [lra|].
    destruct Ht as (H1 & _). apply Map_get_In in H1. destruct H1 as [H1 _].
    eexists. split; [exact H1|]. split; [reflexivity|]. split; [reflexivity|].
    rewrite Eo, Hq. reflexivity.
Qed.

Lemma run_cons_fst Math_sqrt Math_tan st ev evs :
  fst (run Math_sqrt Math_tan st (ev :: evs))
  = fst (run Math_sqrt Math_tan (fst (step Math_sqrt Math_tan st ev)) evs).
Proof.
  simpl. destruct (step Math_sqrt Math_tan st ev) as [st1 o]. simpl.
  destruct (run Math_sqrt Math_tan st1 evs). reflexivity.
Qed.

Lemma lost_ticks Math_sqrt Math_tan (n : nat) : forall frames st t q,
  wf st -> In t (trackers st) ->
  opacity t = Fin q ->
  (q < 0.05 * (inject_Z (Z.of_nat n) + 2))%Q ->
  Forall (fun ev => match ev with
                    | AnimationFrame now _ _ _ _ _ => (now - lastSeenTime t > 500)%Z
                    | _ => False
                    end) frames ->
  (S n <= List.length frames)%nat ->
  ~ In (id t) (Map_keys (trackers (fst (run Math_sqrt Math_tan st frames)))).
Proof.
  induction n as [|n IH]; intros frames st t q Hwf Hin Hq Hb Hall Hlen.
  all: destruct frames as [|ev frames]; [simpl in Hlen; lia|].
  all: inversion Hall as [|? ? Hev Hall']; subst.
  all: destruct ev as [? ? ? ? ?|now vw vh iw ih lo|? ? ? ?]; try contradiction.
  all: pose proof (@lost_tick Math_sqrt Math_tan st now vw vh iw ih lo t q Hwf Hin Hev Hq)
         as Hstep.
  all: pose proof (@step_wf Math_sqrt Math_tan st (AnimationFrame now vw vh iw ih lo) Hwf)
         as Hwf1.
  all: cbv zeta in Hstep; rewrite run_cons_fst.
  all: set (st1 := fst (step Math_sqrt Math_tan st (AnimationFrame now vw vh iw ih lo)))
         in *.
  all: pose proof (@run_absent Math_sqrt Math_tan frames st1 (id t) Hwf1) as Hab.
  - change (inject_Z (Z.of_nat 0)) with 0%Q in Hb.
    assert (Hlt : (q < 0.1)%Q) by lra.
    destruct (Hab (proj1 Hstep Hlt)) as [(_ & Hno & _) _]. exact Hno.
  - destruct (Qlt_le_dec q 0.1) as [Hlt|Hge].
    + destruct (Hab (proj1 Hstep Hlt)) as [(_ & Hno & _) _]. exact Hno.
    + destruct (proj2 Hstep Hge) as (t' & Hin' & Hid & Hseen & Hop).
      rewrite <- Hid.
      apply (IH frames st1 t' (q - 0.05)%Q Hwf1 Hin' Hop).
      * rewrite Nat2Z.inj_succ, <- Z.add_1_r, inject_Z_plus in Hb.
        change (inject_Z 1) with 1%Q in Hb. lra.
      * rewrite Hseen. exact Hall'.
      * simpl in Hlen. lia.
Qed.

(** X9.  A track that no detection matches any more does not linger: once
    it is Lost (last matched more than 500 ms ago), twenty render ticks are
    enough to take it out of the registry, whatever its opacity was. *)
Theorem lost_track_is_gone_within_twenty_ticks Math_sqrt Math_tan st t frames :
  wf st -> In t (trackers st) ->
  Forall (fun ev => match ev with
                    | AnimationFrame now _ _ _ _ _ => (now - lastSeenTime t > 500)%Z
                    | _ => False
                    end) frames ->
  (20 <= List.length frames)%nat ->
  ~ In (id t) (Map_keys (trackers (fst (run Math_sqrt Math_tan st frames)))).
Proof.
  intros Hwf Hin Hall Hlen.
  pose proof (proj1 (proj2 (proj2 Hwf))) as Hf. rewrite Forall_forall in Hf.
  destruct (Hf t Hin) as [_ (q & Hq & Hlo & Hhi)].
  apply (@lost_ticks Math_sqrt Math_tan 19 frames st t q); try assumption.
  change (inject_Z (Z.of_nat 19)) with 19%Q. lra.
Qed.

(** A fully opaque track last matched at 5000 and twenty frames from 6000
    on, 16 ms apart. *)
Lemma lost_track_is_gone_within_twenty_ticks_witness :
  let t := trackAt 1 "person" 5000 1 100 100 50 200 in
  let st := stateOf [t] 2 in
  let frames := map (fun i => frameAt (6000 + 16 * Z.of_nat i)) (seq 0 20) in
  (wf st /\ In t (trackers st)) /\
  ~ In (id t) (Map_keys (trackers (fst (run sqrt_fixed tan_lambert st frames)))).
Proof.
  intros t st frames.
  assert (Hwf : wf st) by (subst st t; prove_wf).
  assert (Hin : In t (trackers st)) by (left; reflexivity).
  split; [split; assumption|].
  apply (@lost_track_is_gone_within_twenty_ticks sqrt_fixed tan_lambert st t frames
           Hwf Hin).
  - subst frames. simpl. repeat (constructor; [reflexivity|]). constructor.
  - subst frames. simpl. lia.
Defined.

(* ================================================================== *)
(** * More on the scene check *)
(* ================================================================== *)

(** ** Spacing of the scene messages *)

Lemma checkSceneChange_time st now mode classes :
  (lastAnalysisTime st <= lastAnalysisTime (fst (checkSceneChange st now mode classes)))%Z
  /\
  (snd (checkSceneChange st now mode classes) <> None ->
   (lastAnalysisTime st + 2000 <= now)%Z /\
   lastAnalysisTime (fst (checkSceneChange st now mode classes)) = now).
Proof.
  unfold checkSceneChange. cbv zeta.
  destruct (now - lastAnalysisTime st <? 2000)%Z eqn:E.
  - simpl. split; [lia|]. intros H. now contradiction H.
  - apply Z.ltb_ge in E.
    destruct (negb _); simpl; (split; [lia|]); intros _; split; (lia || reflexivity).
Qed.

Lemma step_time Math_sqrt Math_tan st ev st1 o :
  step Math_sqrt Math_tan st ev = (st1, o) ->
  (lastAnalysisTime st <= lastAnalysisTime st1)%Z /\
  match ev, o with
  | WorkerResult _ nowCheck _ _ _, SceneOut (Some _) =>
      (lastAnalysisTime st + 2000 <= nowCheck)%Z /\ lastAnalysisTime st1 = nowCheck
  | _, _ => True
  end.
Proof.
  destruct ev as [now nowCheck mode preds sf|now vw vh iw ih lo|m i l f].
  - unfold step, handleWorkerPredictions.
    destruct (isMovingFast st).
    { intros E; inversion E; subst. split; [lia|exact I]. }
    cbv zeta.
    match goal with
    | |- context [checkSceneChange ?s ?n ?m ?c] =>
        pose proof (checkSceneChange_time s n m c) as H;
        destruct (checkSceneChange s n m c) as [st' msg]
    end.
    intros E; inversion E; subst. simpl in *. destruct H as [H1 H2].
    split; [exact H1|].
    destruct msg; [apply H2; discriminate|exact I].
  - unfold step, updateVisualsAndPhysics. cbv zeta.
    intros E; inversion E; subst. simpl. split; [lia|exact I].
  - simpl. intros E; inversion E; subst. simpl. split; [lia|exact I].
Qed.

Lemma run_emissions Math_sqrt Math_tan evs : forall st,
  StronglySorted (fun a b => (a + 2000 <= b)%Z)
                 (emissionTimes evs (snd (run Math_sqrt Math_tan st evs))) /\
  Forall (fun a => (lastAnalysisTime st + 2000 <= a)%Z)
         (emissionTimes evs (snd (run Math_sqrt Math_tan st evs))).
Proof.
  induction evs as [|ev evs IH]; intros st; [simpl; split; constructor|].
  cbn [run].
  destruct (step Math_sqrt Math_tan st ev) as [st1 o] eqn:Est.
  destruct (@step_time Math_sqrt Math_tan st ev st1 o Est) as [Hmono Hemit].
  destruct (IH st1) as [Hs Hf].
  destruct (run Math_sqrt Math_tan st1 evs) as [st2 os]. cbn [fst snd] in *.
  assert (Hf' : Forall (fun a => (lastAnalysisTime st + 2000 <= a)%Z)
                       (emissionTimes evs os)).
  { eapply Forall_impl; [|exact Hf]. simpl. intros; lia. }
  destruct ev as [now nowCheck mode preds sf|now vw vh iw ih lo|m i l f];
    [|cbn [emissionTimes]; split; assumption..].
  destruct o as [[msg|]| |]; cbn [emissionTimes]; try (split; assumption).
  destruct Hemit as [Hge Heq]. rewrite Heq in Hf.
  split; constructor; assumption.
Qed.

(** X10.  Scene messages are never less than 2000 ms apart: in any run,
    from any state and whatever the clock does, the times at which a worker
    result led to a scene message are spaced by at least 2000 ms from one
    another, and the first is at least 2000 ms after the time recorded at
    the start of the run. *)
Theorem scene_messages_are_two_seconds_apart Math_sqrt Math_tan st evs :
  let times := emissionTimes evs (snd (run Math_sqrt Math_tan st evs)) in
  StronglySorted (fun a b => (a + 2000 <= b)%Z) times /\
  Forall (fun a => (lastAnalysisTime st + 2000 <= a)%Z) times.
Proof. apply run_emissions. Qed.

(** A person, then a cup 1500 ms later, then nothing: the cup is seen too
    early and only the passes at 5000 and 7100 emit. *)
Example emission_times_sample :
  let evs := [resultAt 5000 [detection "person" 0.9 100 100 50 200];
              resultAt 6500 [detection "cup" 0.9 400 300 20 30];
              frameAt 6516;
              resultAt 7100 []] in
  emissionTimes evs (snd (runSample evs)) = [5000%Z; 7100%Z] /\
  snd (runSample [resultAt 5000 [detection "person" 0.9 100 100 50 200];
                  resultAt 6500 [detection "cup" 0.9 400 300 20 30];
                  resultAt 7100 []])
  = [SceneOut (Some (Dynamics "PERSON x1")); SceneOut None; SceneOut (Some Scanning)].
Proof. vm_compute. split; reflexivity. Qed.

(* ------------------------------------------------------------------ *)
(** ** The order of the detections does not matter *)

Lemma ascii_compare_trans a b c :
  Ascii.compare a b = Lt -> Ascii.compare b c = Lt -> Ascii.compare a c = Lt.
Proof.
  unfold Ascii.compare. rewrite !N.compare_lt_iff. lia.
Qed.

Lemma string_compare_trans : forall a b c,
  String.compare a b = Lt -> String.compare b c = Lt -> String.compare a c = Lt.
Proof.
  induction a as [|x a IH]; intros [|y b] [|z c]; simpl; try congruence.
  destruct (Ascii.compare x y) eqn:Exy; try discriminate;
    destruct (Ascii.compare y z) eqn:Eyz; try discriminate; intros H1 H2.
  - apply Ascii.compare_eq_iff in Exy, Eyz. subst.
    assert (E : Ascii.compare z z = Eq).
    { unfold Ascii.compare. apply N.compare_refl. }
    rewrite E. eapply IH; eassumption.
  - apply Ascii.compare_eq_iff in Exy. subst. now rewrite Eyz.
  - apply Ascii.compare_eq_iff in Eyz. subst. now rewrite Exy.
  - now rewrite (ascii_compare_trans _ _ _ Exy Eyz).
Qed.

Lemma string_compare_refl a : String.compare a a = Eq.
Proof.
  pose proof (String.compare_antisym a a) as H.
  destruct (String.compare a a); simpl in H; congruence.
Qed.

Lemma string_leb_trans a b c :
  String.leb a b = true -> String.leb b c = true -> String.leb a c = true.
Proof.
  unfold String.leb. intros H1 H2.
  destruct (String.compare a c) eqn:Eac; try reflexivity.
  destruct (String.compare a b) eqn:Eab; try discriminate;
    destruct (String.compare b c) eqn:Ebc; try discriminate.
  - apply String.compare_eq_iff in Eab, Ebc. subst.
    rewrite string_compare_refl in Eac. discriminate.
  - apply String.compare_eq_iff in Eab. congruence.
  - apply String.compare_eq_iff in Ebc. congruence.
  - rewrite (string_compare_trans _ _ _ Eab Ebc) in Eac. discriminate.
Qed.

Lemma string_ltb_leb a b : String.ltb a b = true -> String.leb a b = true.
Proof. unfold String.ltb, String.leb. destruct (String.compare a b); congruence. Qed.

Lemma string_ltb_false_leb a b : String.ltb a b = false -> String.leb b a = true.
Proof.
  unfold String.ltb, String.leb. rewrite (String.compare_antisym b a).
  destruct (String.compare a b); simpl; congruence.
Qed.

Lemma insert_sorted_In s l x : In x (insert_sorted s l) <-> x = s \/ In x l.
Proof.
  induction l as [|s' l IH]; simpl; [intuition|].
  destruct (String.ltb s' s); simpl; [rewrite IH|]; intuition.
Qed.

Lemma insert_sorted_Permutation s l : Permutation (insert_sorted s l) (s :: l).
Proof.
  induction l as [|s' l IH]; simpl; [apply Permutation_refl|].
  destruct (String.ltb s' s).
  - eapply perm_trans; [apply perm_skip, IH|apply perm_swap].
  - apply Permutation_refl.
Qed.

Lemma sort_strings_Permutation l : Permutation (sort_strings l) l.
Proof.
  induction l as [|s l IH]; simpl; [constructor|].
  eapply perm_trans; [apply insert_sorted_Permutation|apply perm_skip, IH].
Qed.

Lemma insert_sorted_sorted s l :
  StronglySorted (fun a b => String.leb a b = true) l ->
  StronglySorted (fun a b => String.leb a b = true) (insert_sorted s l).
Proof.
  induction l as [|s' l IH]; intros Hs; simpl.
  - constructor; constructor.
  - inversion Hs as [|? ? Hs' Hall]; subst.
    destruct (String.ltb s' s) eqn:E.
    + constructor; [apply IH; assumption|].
      apply Forall_forall. intros x Hx. apply insert_sorted_In in Hx.
      destruct Hx as [->|Hx]; [now apply string_ltb_leb|].
      rewrite Forall_forall in Hall. now apply Hall.
    + apply string_ltb_false_leb in E.
      constructor; [assumption|].
      constructor; [assumption|].
      apply Forall_forall. intros x Hx. rewrite Forall_forall in Hall.
      eapply string_leb_trans; [exact E|now apply Hall].
Qed.

Lemma sort_strings_sorted l :
  StronglySorted (fun a b => String.leb a b = true) (sort_strings l).
Proof.
  induction l as [|s l IH]; simpl; [constructor|]. now apply insert_sorted_sorted.
Qed.

Lemma sorted_Permutation_eq : forall l1 l2 : list string,
  StronglySorted (fun a b => String.leb a b = true) l1 ->
  StronglySorted (fun a b => String.leb a b = true) l2 ->
  Permutation l1 l2 -> l1 = l2.
Proof.
  induction l1 as [|a l1 IH]; intros l2 H1 H2 Hp.
  - apply Permutation_nil in Hp. now subst.
  - destruct l2 as [|b l2].
    { apply Permutation_sym, Permutation_nil in Hp. discriminate. }
    inversion H1 as [|? ? H1' Ha]; subst. inversion H2 as [|? ? H2' Hb]; subst.
    assert (E : a = b).
    { assert (Hab : In a (b :: l2)).
      { eapply Permutation_in; [exact Hp|now left]. }
      assert (Hba : In b (a :: l1)).
      { eapply Permutation_in; [apply Permutation_sym; exact Hp|now left]. }
      destruct Hab as [->|Hab]; [reflexivity|].
      destruct Hba as [->|Hba]; [reflexivity|].
      rewrite Forall_forall in Ha, Hb.
      apply String.leb_antisym; [now apply Ha|now apply Hb]. }
    subst b. f_equal. apply IH; try assumption.
    eapply Permutation_cons_inv. exact Hp.
Qed.

Lemma sort_strings_permutation l1 l2 :
  Permutation l1 l2 -> sort_strings l1 = sort_strings l2.
Proof.
  intros Hp. apply sorted_Permutation_eq; try apply sort_strings_sorted.
  eapply perm_trans; [apply sort_strings_Permutation|].
  eapply perm_trans; [exact Hp|]. apply Permutation_sym, sort_strings_Permutation.
Qed.

Lemma filter_Permutation (A : Type) (f : A -> bool) (l1 l2 : list A) :
  Permutation l1 l2 -> Permutation (filter f l1) (filter f l2).
Proof.
  induction 1 as [|x l1 l2 _ IH|x y l|l1 l2 l3 _ IH1 _ IH2]; simpl.
  - constructor.
  - destruct (f x); [now constructor|assumption].
  - destruct (f x), (f y); try apply Permutation_refl. apply perm_swap.
  - eapply perm_trans; eassumption.
Qed.

Lemma checkSceneChange_classes st st' now mode classes classes' :
  lastAnalysisTime st = lastAnalysisTime st' ->
  lastObjectSet st = lastObjectSet st' ->
  sort_strings classes = sort_strings classes' ->
  snd (checkSceneChange st now mode classes) = snd (checkSceneChange st' now mode classes')
  /\
  lastObjectSet (fst (checkSceneChange st now mode classes))
  = lastObjectSet (fst (checkSceneChange st' now mode classes'))
  /\
  lastAnalysisTime (fst (checkSceneChange st now mode classes))
  = lastAnalysisTime (fst (checkSceneChange st' now mode classes')).
Proof.
  intros Ht Ho Es. unfold checkSceneChange. cbv zeta. rewrite <- Ht, <- Ho, <- Es.
  destruct (now - lastAnalysisTime st <? 2000)%Z; simpl; [auto|].
  destruct (negb _); simpl; auto.
Qed.

(** X11.  The scene check does not depend on the order in which a batch
    lists its detections: two worker results with the same detections in
    different orders give the same scene message (or none both), and record
    the same signature and the same time. *)
Theorem scene_check_ignores_detection_order Math_sqrt st now nowCheck mode
    predictions predictions' scaleFactor :
  wf st -> Permutation predictions predictions' ->
  let res :=
    handleWorkerPredictions Math_sqrt st now nowCheck mode predictions scaleFactor in
  let res' :=
    handleWorkerPredictions Math_sqrt st now nowCheck mode predictions' scaleFactor in
  snd res = snd res' /\
  lastObjectSet (fst res) = lastObjectSet (fst res') /\
  lastAnalysisTime (fst res) = lastAnalysisTime (fst res').
Proof.
  intros Hwf Hp res res'. subst res res'. unfold handleWorkerPredictions.
  destruct (isMovingFast st); [auto|]. cbv zeta.
  apply checkSceneChange_classes; try reflexivity.
  destruct (@associate_classes Math_sqrt st now predictions scaleFactor Hwf) as [E1 _].
  destruct (@associate_classes Math_sqrt st now predictions' scaleFactor Hwf) as [E2 _].
  rewrite E1, E2. apply sort_strings_permutation.
  apply Permutation_map, filter_Permutation. exact Hp.
Qed.

(** A person and a cup in both orders. *)
Lemma scene_check_ignores_detection_order_witness :
  let person := detection "person" 0.9 100 100 50 200 in
  let cup := detection "cup" 0.9 400 300 20 30 in
  let res := handleWorkerPredictions sqrt_fixed initialState 5000 5000 AUTO
                                     [person; cup] (Fin 1) in
  let res' := handleWorkerPredictions sqrt_fixed initialState 5000 5000 AUTO
                                      [cup; person] (Fin 1) in
  (wf initialState /\ Permutation [person; cup] [cup; person]) /\
  snd res = Some (Dynamics "CUP x1, PERSON x1") /\
  snd res = snd res' /\
  lastObjectSet (fst res) = lastObjectSet (fst res') /\
  lastAnalysisTime (fst res) = lastAnalysisTime (fst res').
Proof.
  intros person cup res res'.
  assert (Hp : Permutation [person; cup] [cup; person]) by apply perm_swap.
  split; [exact (conj wf_initialState Hp)|].
  split; [vm_compute; reflexivity|].
  exact (@scene_check_ignores_detection_order sqrt_fixed initialState 5000 5000 AUTO
           [person; cup] [cup; person] (Fin 1) wf_initialState Hp).
Defined.

(* ------------------------------------------------------------------ *)
(** ** When the scanning placeholder is sent *)

Lemma setOwn_not_nil c v counts : setOwn c v counts <> [].
Proof.
  destruct counts as [|[k w] counts]; simpl; [discriminate|].
  destruct (String.eqb k c); discriminate.
Qed.

(** Counting a class leaves the object without own property only when the
    class is [__proto__]. *)
Lemma count_add_nil c counts :
  count_add c counts = [] <-> c = "__proto__"%string /\ counts = [].
Proof.
  unfold count_add.
  destruct (String.eqb_spec c "__proto__") as [->|Hne].
  - split; [auto|]. now intros [_ ->].
  - split.
    + intros E. now apply setOwn_not_nil in E.
    + intros [E _]. contradiction.
Qed.

Lemma count_classes_nil classes :
  count_classes classes = [] <-> Forall (fun c => c = "__proto__"%string) classes.
Proof.
  unfold count_classes.
  assert (H : forall l acc,
             fold_left (fun counts c => count_add c counts) l acc = [] <->
             Forall (fun c => c = "__proto__"%string) l /\ acc = []).
  { induction l as [|c l IH]; intros acc; simpl.
    - split; [auto|]. now intros [_ ->].
    - rewrite IH, count_add_nil. split.
      + intros (Hl & Hc & Ha). split; [constructor; assumption|assumption].
      + intros (Hl & Ha). inversion Hl; subst. auto. }
  rewrite H. split; [now intros [? _]|auto].
Qed.

Lemma insertIndexed_not_nil e l : insertIndexed e l <> [].
Proof.
  destruct l as [|e' l]; simpl; [discriminate|].
  destruct (fst e' <? fst e)%N; discriminate.
Qed.

(** An object with an own property has an entry. *)
Lemma Object_entries_nil counts : Object_entries counts = [] <-> counts = [].
Proof.
  split; [|intros ->; reflexivity].
  destruct counts as [|kv counts]; [reflexivity|].
  unfold Object_entries, indexedEntries. cbn [fold_right filter].
  destruct (arrayIndex (fst kv)).
  - intros E. apply app_eq_nil in E. destruct E as [E _].
    apply map_eq_nil in E. now apply insertIndexed_not_nil in E.
  - intros E. apply app_eq_nil in E. destruct E as [_ E]. discriminate E.
Qed.

Lemma append_nil_l a b : (a ++ b)%string = EmptyString -> a = EmptyString /\ b = EmptyString.
Proof. destruct a; simpl; [auto|discriminate]. Qed.

Lemma summary_entry_not_empty kv : summary_entry kv <> EmptyString.
Proof.
  unfold summary_entry. intros E.
  apply append_nil_l in E. destruct E as [_ E]. discriminate E.
Qed.

(** The summary is empty exactly when no class but [__proto__] was
    counted. *)
Lemma sceneSummary_empty classes :
  sceneSummary classes = EmptyString
  <-> Forall (fun c => c = "__proto__"%string) classes.
Proof.
  rewrite <- count_classes_nil. unfold sceneSummary. split.
  - intros E. apply Object_entries_nil.
    destruct (Object_entries (count_classes classes)) as [|kv l]; [reflexivity|].
    exfalso. cbn [map String.concat] in E. destruct (map summary_entry l).
    + now apply summary_entry_not_empty in E.
    + apply append_nil_l in E. destruct E as [E _].
      now apply summary_entry_not_empty in E.
  - intros ->. reflexivity.
Qed.

Lemma sort_strings_Forall (P : string -> Prop) classes :
  Forall P (sort_strings classes) <-> Forall P classes.
Proof.
  split; apply Permutation_Forall;
    [apply sort_strings_Permutation|apply Permutation_sym, sort_strings_Permutation].
Qed.

(** X12.  The scanning placeholder is sent exactly when the summary is
    empty, and the summary is empty exactly when the counts object has no
    own property: [checkSceneChange] sends the placeholder if and only if
    every class it is handed is [__proto__], which the assignment to
    [counts] does not record (in particular when it is handed no class),
    at least 2000 ms after the recorded time, while the signature differs
    from the recorded one and the mode its closure holds is not
    [SILENT]. *)
Theorem scanning_is_sent_for_an_empty_summary st now mode classes :
  snd (checkSceneChange st now mode classes) = Some Scanning
  <-> Forall (fun c => c = "__proto__"%string) classes /\
      (2000 <= now - lastAnalysisTime st)%Z /\
      String.concat "," (sort_strings classes) <> lastObjectSet st /\
      mode <> SILENT.
Proof.
  unfold checkSceneChange. cbv zeta.
  destruct (now - lastAnalysisTime st <? 2000)%Z eqn:Et.
  { apply Z.ltb_lt in Et. cbn [snd]. split; [discriminate|]. intros (_ & H & _). lia. }
  apply Z.ltb_ge in Et.
  destruct (String.eqb (String.concat "," (sort_strings classes)) (lastObjectSet st))
    eqn:Es; cbn [negb snd].
  - apply String.eqb_eq in Es. split; [discriminate|].
    intros (_ & _ & Hne & _). contradiction.
  - apply String.eqb_neq in Es.
    destruct (String.eqb (sceneSummary (sort_strings classes)) EmptyString) eqn:Em.
    + apply String.eqb_eq in Em. apply (proj1 (sceneSummary_empty _)) in Em.
      apply (proj1 (sort_strings_Forall _ _)) in Em.
      assert (Hge : (2000 <= now - lastAnalysisTime st)%Z) by lia.
      destruct mode.
      * assert (Hm : AUTO <> SILENT) by discriminate.
        split; [intros _|reflexivity].
        exact (conj Em (conj Hge (conj Es Hm))).
      * assert (Hm : DETAILED <> SILENT) by discriminate.
        split; [intros _|reflexivity].
        exact (conj Em (conj Hge (conj Es Hm))).
      * split; [discriminate|]. intros (_ & _ & _ & H). congruence.
    + apply String.eqb_neq in Em.
      split.
      * destruct mode; discriminate.
      * intros (Hall & _). contradiction Em.
        apply (proj2 (sceneSummary_empty _)). now apply (proj2 (sort_strings_Forall _ _)).
Qed.

(** At start-up an empty batch sends nothing; after a person has been
    reported, an empty batch sends the placeholder. *)
Example scanning_sample :
  snd (runSample [resultAt 5000 []]) = [SceneOut None] /\
  snd (runSample [resultAt 5000 [detection "person" 0.9 100 100 50 200];
                  resultAt 7000 []])
  = [SceneOut (Some (Dynamics "PERSON x1")); SceneOut (Some Scanning)].
Proof. vm_compute. split; reflexivity. Qed.

(** A batch whose only class is [__proto__] is not an empty scene, yet it
    sends the placeholder too; a class that names an inherited method is
    counted by a string; and classes that are array indices are listed
    first, by index. *)
Example summary_samples :
  snd (checkSceneChange initialState 5000 AUTO ["__proto__"%string]) = Some Scanning /\
  sceneSummary ["constructor"; "constructor"]%string
  = "CONSTRUCTOR xfunction Object() { [native code] }11"%string /\
  sceneSummary (sort_strings ["cup"; "10"; "9"; "cup"]%string)
  = "9 x1, 10 x1, CUP x2"%string.
Proof. vm_compute. repeat split; reflexivity. Qed.

(* ================================================================== *)
(** * More on the geometry *)
(* ================================================================== *)









(* ------------------------------------------------------------------ *)
(** ** Depth against box height *)

Lemma screenHeightFraction_value (vW vH sW sH : Q) :
  (0 < vW)%Q -> (0 < vH)%Q -> (0 < sW)%Q -> (0 < sH)%Q ->
  exists c,
    (0 < c)%Q /\
    forall b0 b1 b2 h,
      screenHeightFraction
        {| box0 := Fin b0; box1 := Fin b1; box2 := Fin b2; box3 := Fin h |}
        (Fin vW) (Fin vH) (Fin sW) (Fin sH) = Fin (h * c / sH).
Proof.
  intros HvW HvH HsW HsH.
  destruct (renderRect_finite HvW HvH HsW HsH) as (rW & rH & oX & oY & E & HrH).
  exists (rH / vH)%Q. split; [now apply Qdiv_pos|].
  intros b0 b1 b2 h. unfold screenHeightFraction. rewrite E.
  cbn [box3]. fin_arith. reflexivity.
Qed.

(** X15.  A taller box is never estimated farther away: for two finite
    boxes of the same class, one that does not name an inherited property,
    seen with the same camera, video and viewport (finite positive
    dimensions, positive finite [tan (FOV / 2)]), of positive heights
    [h' <= h], the depth estimated for the box of height [h] is at most the
    one estimated for the box of height [h'], wherever the boxes are and
    however wide. *)
Theorem taller_box_is_never_estimated_farther Math_tan camera_fov cls
    (b0 b1 b2 h b0' b1' b2' h' vW vH sW sH t : Q) :
  inheritedClass cls = false ->
  (0 < vW)%Q -> (0 < vH)%Q -> (0 < sW)%Q -> (0 < sH)%Q ->
  tanHalfFov Math_tan camera_fov = Fin t -> (0 < t)%Q ->
  (0 < h')%Q -> (h' <= h)%Q ->
  exists d d',
    vz (calculate3DPosition Math_tan camera_fov
          {| box0 := Fin b0; box1 := Fin b1; box2 := Fin b2; box3 := Fin h |} cls
          (Fin vW) (Fin vH) (Fin sW) (Fin sH)) = Fin (- d) /\
    vz (calculate3DPosition Math_tan camera_fov
          {| box0 := Fin b0'; box1 := Fin b1'; box2 := Fin b2'; box3 := Fin h' |} cls
          (Fin vW) (Fin vH) (Fin sW) (Fin sH)) = Fin (- d') /\
    (1.5 <= d)%Q /\ (d <= d')%Q /\ (d' <= 50)%Q.
Proof.
  intros Hcls HvW HvH HsW HsH HT Ht Hh' Hle.
  destruct (getRealWorldHeight_table cls Hcls) as [_ (rh & Hrh & Hrhpos)].
  destruct (@screenHeightFraction_value vW vH sW sH HvW HvH HsW HsH) as (c & Hc & Hf).
  assert (Hh : (0 < h)%Q) by lra.
  assert (Hpos : forall x, (0 < x)%Q -> (0 < x * c / sH)%Q).
  { intros x Hx. apply Qdiv_pos; [|assumption]. now apply Qmult_lt_0_compat. }
  pose proof (Hpos h Hh) as Hfpos. pose proof (Hpos h' Hh') as Hfpos'.
  set (f := (h * c / sH)%Q) in *. set (f' := (h' * c / sH)%Q) in *.
  assert (Hff : (f' <= f)%Q).
  { unfold f, f'. apply Qmult_le_compat_r.
    - apply Qmult_le_compat_r; lra.
    - apply Qlt_le_weak, Qinv_lt_0_compat. assumption. }
  assert (H2t : (0 < 2 * t)%Q) by lra.
  assert (Hraw : forall a0 a1 a2 x,
             (0 < x * c / sH)%Q ->
             vz (calculate3DPosition Math_tan camera_fov
                   {| box0 := Fin a0; box1 := Fin a1; box2 := Fin a2; box3 := Fin x |}
                   cls (Fin vW) (Fin vH) (Fin sW) (Fin sH))
             = (- clampDepth (Fin (rh / (x * c / sH) / (2 * t))))%js).
  { intros a0 a1 a2 x Hx.
    rewrite calculate3DPosition_eq. cbv zeta. cbn [vz].
    unfold rawDepth. rewrite Hrh, Hf, HT. cbn [mul].
    rewrite (div_Fin rh (Qpos_neq0 Hx)). fin_arith. reflexivity. }
  rewrite (Hraw b0 b1 b2 h Hfpos), (Hraw b0' b1' b2' h' Hfpos').
  fold f f'.
  destruct (clampDepth_Fin (rh / f / (2 * t))) as (d & -> & Hr & Hin & Hlo & Hhi).
  destruct (clampDepth_Fin (rh / f' / (2 * t))) as (d' & -> & Hr' & Hin' & Hlo' & Hhi').
  exists d, d'. split; [reflexivity|]. split; [reflexivity|].
  set (z := (rh / f / (2 * t))%Q) in *. set (z' := (rh / f' / (2 * t))%Q) in *.
  assert (Nf : ~ (f == 0)%Q) by now apply Qpos_neq0.
  assert (Nf' : ~ (f' == 0)%Q) by now apply Qpos_neq0.
  assert (Nt : ~ (t == 0)%Q) by now apply Qpos_neq0.
  assert (Hz' : (0 < z')%Q).
  { unfold z'. apply Qdiv_pos; [|lra]. now apply Qdiv_pos. }
  assert (Ez : (z * f == z' * f')%Q) by (unfold z, z'; field; auto).
  assert (Hzz : (z <= z')%Q).
  { apply (proj1 (Qmult_le_r z z' f Hfpos)). rewrite Ez.
    apply (proj2 (Qmult_le_l f' f z' Hz')). exact Hff. }
  split; [lra|]. split; [|lra].
  destruct (Qlt_le_dec z 1.5) as [A|A]; [specialize (Hlo (Qlt_le_weak _ _ A)); lra|].
  destruct (Qlt_le_dec 50 z') as [B|B]; [specialize (Hhi' (Qlt_le_weak _ _ B)); lra|].
  assert (Hin1 : (1.5 <= z <= 50)%Q) by lra.
  assert (Hin2 : (1.5 <= z' <= 50)%Q) by lra.
  specialize (Hin Hin1). specialize (Hin' Hin2). lra.
Qed.

(** A person box 300 high against one 200 high, elsewhere in the frame. *)
Lemma taller_box_is_never_estimated_farther_witness :
  (inheritedClass "person" = false /\ (0 < 1280)%Q /\ (0 < 720)%Q /\
   tanHalfFov tan_lambert (Fin 75) = Fin (sampleTan (Fin 75)) /\
   (0 < sampleTan (Fin 75))%Q /\ (0 < 200)%Q /\ (200 <= 300)%Q) /\
  exists d d',
    vz (calculate3DPosition tan_lambert (Fin 75) (boxOf 100 100 50 300) "person"
                            (Fin 1280) (Fin 720) (Fin 1280) (Fin 720)) = Fin (- d) /\
    vz (calculate3DPosition tan_lambert (Fin 75) (boxOf 700 50 90 200) "person"
                            (Fin 1280) (Fin 720) (Fin 1280) (Fin 720)) = Fin (- d') /\
    (1.5 <= d)%Q /\ (d <= d')%Q /\ (d' <= 50)%Q.
Proof.
  assert (Hc : inheritedClass "person" = false) by reflexivity.
  assert (H1 : (0 < 1280)%Q) by reflexivity.
  assert (H2 : (0 < 720)%Q) by reflexivity.
  assert (H3 : tanHalfFov tan_lambert (Fin 75) = Fin (sampleTan (Fin 75)))
    by (vm_compute; reflexivity).
  assert (H4 : (0 < sampleTan (Fin 75))%Q) by (vm_compute; reflexivity).
  assert (H5 : (0 < 200)%Q) by reflexivity.
  assert (H6 : (200 <= 300)%Q) by (vm_compute; discriminate).
  exact (conj (conj Hc (conj H1 (conj H2 (conj H3 (conj H4 (conj H5 H6))))))
              (@taller_box_is_never_estimated_farther tan_lambert (Fin 75) "person"
                 100 100 50 300 700 50 90 200 1280 720 1280 720 (sampleTan (Fin 75))
                 Hc H1 H2 H1 H2 H3 H4 H5 H6)).
Defined.

(* ================================================================== *)
(** * Adaptive cadence and analysis scale *)
(* ================================================================== *)

(** X16.  The box smoothing factor follows the network: after
    [updateNetworkStats] the processing interval exceeds 300 ms, which is
    what makes a matched box move by [0.5] of the gap instead of [0.4],
    exactly on a mobile device whose connection reports a downlink below 5
    (Mbit/s); never on a desktop, never without connection information, and
    never when the downlink is not a number. *)
Theorem box_smoothing_speeds_up_on_slow_mobile_links isMobile downlink networkQuality :
  (snd (updateNetworkStats isMobile downlink networkQuality) >? Fin 300)%js
  = match downlink with
    | Some down => isMobile && (down <? Fin 5)%js
    | None => false
    end.
Proof.
  unfold updateNetworkStats. cbv zeta.
  destruct downlink as [down|]; [|destruct isMobile; reflexivity].
  destruct down as [d| | |]; try (destruct isMobile; reflexivity).
  cbn [ltb].
  destruct (Qltb d 2) eqn:E2; destruct (Qltb d 5) eqn:E5; q_bools;
    try (destruct isMobile; reflexivity).
  lra.
Qed.

(** The interval and the factor on a mobile device at 3 Mbit/s and on a
    desktop at 1 Mbit/s. *)
Example cadence_sample :
  let mobile := updateNetworkStats true (Some (Fin 3)) (Fin 1) in
  let desktop := updateNetworkStats false (Some (Fin 1)) (Fin 1) in
  eqb (snd mobile) (Fin 450) = true /\ fst mobile = Fin 0.6 /\
  eqb (snd desktop) (Fin 300) = true /\ fst desktop = Fin 0.3 /\
  (snd mobile >? Fin 300)%js = true /\ (snd desktop >? Fin 300)%js = false.
Proof. vm_compute. repeat split. Qed.


(** A 1280 wide video on a desktop with a poor connection is analysed 224
    wide; a box at the right half of the analysed image is scaled back to
    the right half of the video. *)
Example scale_factor_sample :
  let sf := frameScaleFactor (Fin 1280) false (Fin 0.3) in
  eqb (ANALYSIS_WIDTH false (Fin 0.3)) (Fin 224) = true /\
  eqb (box0 (scaleBox (boxOf 112 0 112 126) sf)) (Fin 640) = true /\
  eqb (box2 (scaleBox (boxOf 112 0 112 126) sf)) (Fin 640) = true.
Proof. vm_compute. repeat split. Qed.

(* ================================================================== *)
(** * Motion detection *)
(* ================================================================== *)

Lemma add_NaN_l x : (NaN + x)%js = NaN.
Proof. destruct x; reflexivity. Qed.

Lemma fold_diff_NaN centerData previous ks :
  fold_left (addDiff centerData previous) ks NaN = NaN.
Proof. induction ks as [|k ks IH]; simpl; [reflexivity|]. exact IH. Qed.

Lemma byte_diff_bound (a b : Byte.byte) :
  (0 <= Qabs (inject_Z (Z.of_N (Byte.to_N a)) + - inject_Z (Z.of_N (Byte.to_N b))) <= 255)%Q
  /\ (Byte.eqb a b = true ->
      (Qabs (inject_Z (Z.of_N (Byte.to_N a)) + - inject_Z (Z.of_N (Byte.to_N b))) == 0)%Q).
Proof.
  pose proof (Byte.to_N_bounded a) as Ha. pose proof (Byte.to_N_bounded b) as Hb.
  split.
  - split; [apply Qabs_nonneg|].
    apply Qabs_Qle_condition.
    rewrite <- inject_Z_opp, <- inject_Z_plus.
    change (- (255))%Q with (inject_Z (-255)). change 255%Q with (inject_Z 255).
    rewrite <- !Zle_Qle. lia.
  - intros E. apply Byte.byte_dec_bl in E. subst b.
    rewrite Qplus_opp_r. reflexivity.
Qed.

Lemma addDiff_Fin centerData previous q0 k :
  addDiff centerData previous (Fin q0) k
  = match nth_error centerData (16 * k), nth_error previous (16 * k) with
    | Some a, Some b =>
        Fin (q0 + Qabs (inject_Z (Z.of_N (Byte.to_N a))
                        + - inject_Z (Z.of_N (Byte.to_N b))))
    | _, _ => NaN
    end.
Proof.
  unfold addDiff, byteAt.
  destruct (nth_error centerData (16 * k)); destruct (nth_error previous (16 * k));
    reflexivity.
Qed.

Lemma fold_diff_bound centerData previous ks : forall q0,
  let changed k :=
    match nth_error centerData (16 * k), nth_error previous (16 * k) with
    | Some a, Some b => negb (Byte.eqb a b)
    | _, _ => true
    end in
  let r := fold_left (addDiff centerData previous) ks (Fin q0) in
  r = NaN \/
  exists q, r = Fin q /\
            (q0 <= q <= q0 + 255 * inject_Z (Z.of_nat (List.length (filter changed ks))))%Q.
Proof.
  induction ks as [|k ks IH]; intros q0 changed r; subst r;
    cbn [fold_left filter].
  - right. exists q0. split; [reflexivity|].
    change (inject_Z (Z.of_nat (List.length (@nil nat)))) with 0%Q. lra.
  - rewrite addDiff_Fin.
    assert (Hc : changed k
                 = match nth_error centerData (16 * k), nth_error previous (16 * k) with
                   | Some a, Some b => negb (Byte.eqb a b)
                   | _, _ => true
                   end) by reflexivity.
    destruct (nth_error centerData (16 * k)) as [a|];
      [destruct (nth_error previous (16 * k)) as [b|]|];
      try (left; apply fold_diff_NaN).
    destruct (byte_diff_bound a b) as [[Hlo Hhi] Hz].
    match goal with
    | |- context [fold_left _ ks (Fin ?q1)] => destruct (IH q1) as [H|(q & Hq & Hb)]
    end; [left; exact H|].
    right. exists q. split; [exact Hq|].
    cbv zeta in Hb. fold changed in Hb.
    rewrite Hc.
    destruct (Byte.eqb a b) eqn:E; cbn [negb].
    + specialize (Hz eq_refl). lra.
    + cbn [List.length]. rewrite Nat2Z.inj_succ, <- Z.add_1_r, inject_Z_plus.
      change (inject_Z 1) with 1%Q. lra.
Qed.

(** X18.  Motion is only reported for a large change: the patch is
    compared with the stored one on every sixteenth byte, and as long as at
    most 196 of the compared positions hold different bytes, the summed
    difference cannot exceed 50000; [detectMotion] then reports no motion
    and stores the patch as the new reference.  In particular an unchanged
    view never counts as motion. *)
Theorem small_changes_are_not_motion centerData previous :
  (List.length (changedSamples centerData previous) <= 196)%nat ->
  detectMotion (Some previous) centerData = (false, Some centerData).
Proof.
  intros Hn. unfold detectMotion, frameDiff.
  destruct (@fold_diff_bound centerData previous
              (seq 0 ((List.length centerData + 15) / 16)) 0) as [H|(q & Hq & Hb)].
  - cbv zeta in H. rewrite H. reflexivity.
  - cbv zeta in Hq, Hb. rewrite Hq. unfold gtb. cbn [ltb].
    fold (changedSamples centerData previous) in Hb.
    assert (Hle : (inject_Z (Z.of_nat (List.length (changedSamples centerData previous)))
                   <= 196)%Q).
    { change 196%Q with (inject_Z 196). rewrite <- Zle_Qle. lia. }
    destruct (Qltb 50000 q) eqn:E; q_bools; [lra|reflexivity].
Qed.

(** 196 compared positions going from 0 to 255: no motion; 197 of them:
    motion. *)
Lemma small_changes_are_not_motion_witness :
  let dark := repeat Byte.x00 3136 in
  let bright := repeat Byte.xff 3136 in
  (List.length (changedSamples bright dark) <= 196)%nat /\
  detectMotion (Some dark) bright = (false, Some bright).
Proof.
  intros dark bright.
  assert (H : (List.length (changedSamples bright dark) <= 196)%nat).
  { apply Nat.leb_le. vm_compute. reflexivity. }
  exact (conj H (@small_changes_are_not_motion bright dark H)).
Defined.

Example motion_threshold_sample :
  fst (detectMotion (Some (repeat Byte.x00 3152)) (repeat Byte.xff 3152)) = true /\
  eqb (frameDiff (repeat Byte.xff 3152) (repeat Byte.x00 3152)) (Fin 50235) = true.
Proof. vm_compute. split; reflexivity. Qed.

(** X19.  Once motion is reported the reference patch is not replaced, so
    the report repeats: if [detectMotion] reports motion for a patch, it
    leaves the stored patch as it was, and it reports motion again each
    time it is shown the same patch, however often. *)
Theorem motion_report_repeats_for_the_same_view previous centerData (n : nat) :
  fst (detectMotion (Some previous) centerData) = true ->
  let ref := Nat.iter n (fun r => snd (detectMotion r centerData)) (Some previous) in
  ref = Some previous /\ detectMotion ref centerData = (true, Some previous).
Proof.
  intros H ref. subst ref.
  assert (E : detectMotion (Some previous) centerData = (true, Some previous)).
  { unfold detectMotion in *.
    destruct (frameDiff centerData previous >? Fin 50000)%js; [reflexivity|].
    simpl in H. discriminate H. }
  induction n as [|n [IH1 IH2]]; simpl; [split; [reflexivity|exact E]|].
  rewrite IH1, E. simpl. split; [reflexivity|exact E].
Qed.

(** The camera turns from a dark view to a bright one and stays there:
    motion is still reported at the fifth look. *)
Lemma motion_report_repeats_for_the_same_view_witness :
  let dark := repeat Byte.x00 3200 in
  let bright := repeat Byte.xff 3200 in
  fst (detectMotion (Some dark) bright) = true /\
  let ref := Nat.iter 5 (fun r => snd (detectMotion r bright)) (Some dark) in
  ref = Some dark /\ detectMotion ref bright = (true, Some dark).
Proof.
  intros dark bright.
  assert (H : fst (detectMotion (Some dark) bright) = true) by (vm_compute; reflexivity).
  exact (conj H (@motion_report_repeats_for_the_same_view dark bright 5 H)).
Defined.

(* ================================================================== *)
(** * The worker *)
(* ================================================================== *)

(** ** Gestures *)

Lemma isFingerUp_None keypoints tipIdx dipIdx :
  isFingerUp keypoints tipIdx dipIdx = None
  <-> (List.length keypoints <= tipIdx)%nat \/ (List.length keypoints <= dipIdx)%nat.
Proof.
  unfold isFingerUp. rewrite <- !nth_error_None.
  destruct (nth_error keypoints tipIdx); destruct (nth_error keypoints dipIdx);
    split; try discriminate; try tauto; intros [H|H]; discriminate H.
Qed.

Lemma recognizeGesture_None keypoints :
  recognizeGesture keypoints = None <-> (List.length keypoints <= 20)%nat.
Proof.
  unfold recognizeGesture.
  destruct (isFingerUp keypoints 4 3) eqn:E1;
    [destruct (isFingerUp keypoints 8 6) eqn:E2;
     [destruct (isFingerUp keypoints 12 10) eqn:E3;
      [destruct (isFingerUp keypoints 16 14) eqn:E4;
       [destruct (isFingerUp keypoints 20 18) eqn:E5|]|]|]|].
  - split; [discriminate|]. intros H.
    assert (N : isFingerUp keypoints 20 18 = None) by (apply isFingerUp_None; lia).
    congruence.
  - apply isFingerUp_None in E5. split; [lia|reflexivity].
  - apply isFingerUp_None in E4. split; [lia|reflexivity].
  - apply isFingerUp_None in E3. split; [lia|reflexivity].
  - apply isFingerUp_None in E2. split; [lia|reflexivity].
  - apply isFingerUp_None in E1. split; [lia|reflexivity].
Qed.

(** X20.  The gesture is decided by which fingers are raised, a finger
    being raised when its tip lies above its joint in the image (smaller
    [y]); the five named gestures exclude one another, so the order of the
    tests does not matter: open palm is all five up, fist none, pointing the
    index alone among the four fingers and victory index and middle alone
    among them (the thumb not counting for these two), thumbs up the thumb
    alone, and everything else is unknown. *)
Theorem gesture_is_decided_by_the_raised_fingers keypoints thumb index middle ring pinky :
  isFingerUp keypoints 4 3 = Some thumb ->
  isFingerUp keypoints 8 6 = Some index ->
  isFingerUp keypoints 12 10 = Some middle ->
  isFingerUp keypoints 16 14 = Some ring ->
  isFingerUp keypoints 20 18 = Some pinky ->
  exists g,
    recognizeGesture keypoints = Some g /\
    (g = "OPEN PALM"%string
     <-> thumb = true /\ index = true /\ middle = true /\ ring = true /\ pinky = true) /\
    (g = "FIST"%string
     <-> thumb = false /\ index = false /\ middle = false /\ ring = false /\
         pinky = false) /\
    (g = "POINTING"%string
     <-> index = true /\ middle = false /\ ring = false /\ pinky = false) /\
    (g = "VICTORY"%string
     <-> index = true /\ middle = true /\ ring = false /\ pinky = false) /\
    (g = "THUMBS UP"%string
     <-> thumb = true /\ index = false /\ middle = false /\ ring = false /\
         pinky = false) /\
    (g = "OPEN PALM" \/ g = "FIST" \/ g = "POINTING" \/ g = "VICTORY" \/
     g = "THUMBS UP" \/ g = "UNKNOWN")%string.
Proof.
  intros E1 E2 E3 E4 E5. unfold recognizeGesture. rewrite E1, E2, E3, E4, E5.
  eexists. split; [reflexivity|].
  destruct thumb, index, middle, ring, pinky; cbn;
    repeat split; intros; try discriminate; try tauto;
    repeat match goal with H : _ /\ _ |- _ => destruct H end; try discriminate.
Qed.

(** The sample hand has index and middle finger raised. *)
Lemma gesture_is_decided_by_the_raised_fingers_witness :
  (isFingerUp victoryHand 4 3 = Some false /\
   isFingerUp victoryHand 8 6 = Some true /\
   isFingerUp victoryHand 12 10 = Some true /\
   isFingerUp victoryHand 16 14 = Some false /\
   isFingerUp victoryHand 20 18 = Some false) /\
  recognizeGesture victoryHand = Some "VICTORY"%string.
Proof.
  assert (H1 : isFingerUp victoryHand 4 3 = Some false) by reflexivity.
  assert (H2 : isFingerUp victoryHand 8 6 = Some true) by reflexivity.
  assert (H3 : isFingerUp victoryHand 12 10 = Some true) by reflexivity.
  assert (H4 : isFingerUp victoryHand 16 14 = Some false) by reflexivity.
  assert (H5 : isFingerUp victoryHand 20 18 = Some false) by reflexivity.
  split; [exact (conj H1 (conj H2 (conj H3 (conj H4 H5))))|].
  destruct (@gesture_is_decided_by_the_raised_fingers victoryHand false true true
              false false H1 H2 H3 H4 H5) as (g & Hg & _ & _ & _ & Hv & _).
  rewrite Hg. f_equal. apply Hv. repeat split.
Defined.

(* ------------------------------------------------------------------ *)
(** ** The box of a hand *)




(* ------------------------------------------------------------------ *)
(** ** What the worker posts *)

Lemma handPredictions_None hands :
  handPredictions hands = None
  <-> exists hand, In hand hands /\ (hand_score hand >? Fin 0.5)%js = true /\
                   (List.length (hand_keypoints hand) <= 20)%nat.
Proof.
  induction hands as [|hand hands IH]; cbn [handPredictions In].
  - split; [discriminate|]. intros (h & [] & _).
  - destruct (hand_score hand >? Fin 0.5)%js eqn:Es.
    + unfold handPrediction.
      destruct (recognizeGesture (hand_keypoints hand)) as [g|] eqn:Eg.
      * assert (Hlen : ~ (List.length (hand_keypoints hand) <= 20)%nat).
        { intros H. apply recognizeGesture_None in H. congruence. }
        destruct (hand_keypoints hand) as [|kp kps] eqn:Ek;
          [simpl in Hlen; lia|].
        cbv beta iota.
        destruct (handPredictions hands) as [ps|].
        -- split; [discriminate|]. intros (h & [<-|Hin] & Hs & Hl).
           ++ rewrite Ek in Hl. contradiction.
           ++ assert (F : Some ps = None) by (apply (proj2 IH); eauto).
              discriminate F.
        -- split; [|reflexivity]. intros _.
           destruct (proj1 IH eq_refl) as (h & Hin & Hs & Hl). eauto.
      * apply recognizeGesture_None in Eg.
        assert (R : match hand_keypoints hand with
                    | [] => None
                    | _ :: _ => @None Prediction
                    end = None) by (destruct (hand_keypoints hand); reflexivity).
        rewrite R. split; [|reflexivity]. intros _. exists hand. auto.
    + rewrite IH. split.
      * intros (h & Hin & Hs & Hl). eauto.
      * intros (h & [<-|Hin] & Hs & Hl); [congruence|eauto].
Qed.

(** X22.  One incomplete hand costs the whole frame: the worker posts no
    result at all, objects included, exactly when some hand that scores
    above [0.5] comes with fewer than 21 keypoints; otherwise it posts the
    forwarded objects followed by the hands. *)
Theorem incomplete_hand_drops_the_frame objects hands :
  collectPredictions objects hands = None
  <-> exists hand, In hand hands /\ (hand_score hand >? Fin 0.5)%js = true /\
                   (List.length (hand_keypoints hand) <= 20)%nat.
Proof.
  unfold collectPredictions. rewrite <- handPredictions_None.
  destruct (handPredictions hands); split; congruence.
Qed.

(** A person and a hand of five keypoints: nothing is posted; with the
    sample hand of 21 keypoints both are. *)
Example incomplete_hand_sample :
  let person := detection "person" 0.9 100 100 50 200 in
  let short := {| hand_score := Fin 0.8;
                  hand_keypoints := firstn 5 victoryHand |} in
  let full := {| hand_score := Fin 0.8; hand_keypoints := victoryHand |} in
  collectPredictions [person] [short] = None /\
  option_map (map (fun p => (pred_class p, pred_gesture p)))
             (collectPredictions [person] [full])
  = Some [("person", None); ("hand", Some "VICTORY")]%string.
Proof. vm_compute. split; reflexivity. Qed.

Lemma handPredictions_accepted hands : forall ps,
  handPredictions hands = Some ps ->
  Forall (fun p => accepted p = true /\ pred_class p = "hand"%string) ps.
Proof.
  induction hands as [|hand hands IH]; cbn [handPredictions]; intros ps E.
  - inversion E. constructor.
  - destruct (hand_score hand >? Fin 0.5)%js eqn:Es; [|now apply IH].
    destruct (handPrediction hand) as [p|] eqn:Ep; [|discriminate].
    destruct (handPredictions hands) as [ps'|]; [|discriminate].
    inversion E; subst. constructor; [|now apply IH].
    unfold handPrediction in Ep.
    destruct (hand_keypoints hand); [discriminate|].
    destruct (recognizeGesture _); [|discriminate].
    inversion Ep; subst. unfold accepted. simpl. split; [|reflexivity].
    unfold gtb in Es. destruct (hand_score hand) as [q| | |]; simpl in *;
      try discriminate; try reflexivity.
    q_bools. rewrite Bool.negb_true_iff. q_bools. lra.
Qed.

(** X23.  Of what the worker posts, the confidence floor of the component
    can only drop persons: every posted prediction either passes the floor
    of [0.2] or is of class person (which the worker forwards whatever its
    score); hands in particular always pass. *)
Theorem floor_only_drops_persons objects hands predictions :
  collectPredictions objects hands = Some predictions ->
  Forall (fun p => accepted p = true \/ pred_class p = "person"%string) predictions.
Proof.
  unfold collectPredictions.
  destruct (handPredictions hands) as [ps|] eqn:Eh; [|discriminate].
  intros E. inversion E; subst. clear E.
  pose proof (handPredictions_accepted hands Eh) as Hh.
  apply Forall_app; split.
  - apply Forall_forall. intros p Hp. apply filter_In in Hp. destruct Hp as [_ Hp].
    unfold workerForwards in Hp. apply Bool.orb_true_iff in Hp.
    destruct Hp as [Hp|Hp]; [right; now apply String.eqb_eq|left].
    unfold accepted, gtb in *. destruct (pred_score p) as [q| | |]; simpl in *;
      try discriminate; try reflexivity.
    q_bools. rewrite Bool.negb_true_iff. q_bools. lra.
  - eapply Forall_impl; [|exact Hh]. simpl. intros p [H _]. now left.
Qed.

(** A low-scoring person and a low-scoring cup: the worker lets the person
    through and the floor drops it. *)
Lemma floor_only_drops_persons_witness :
  let objects := [detection "person" 0.1 100 100 50 200;
                  detection "cup" 0.25 400 300 20 30;
                  detection "chair" 0.6 600 300 100 100] in
  let hands := [{| hand_score := Fin 0.8; hand_keypoints := victoryHand |}] in
  exists predictions,
    collectPredictions objects hands = Some predictions /\
    map pred_class predictions = ["person"; "chair"; "hand"]%string /\
    map accepted predictions = [false; true; true] /\
    Forall (fun p => accepted p = true \/ pred_class p = "person"%string) predictions.
Proof.
  intros objects hands.
  destruct (collectPredictions objects hands) as [predictions|] eqn:E;
    [|vm_compute in E; discriminate E].
  exists predictions. split; [reflexivity|].
  assert (E' : Some predictions = collectPredictions objects hands) by now rewrite E.
  split; [vm_compute in E'; inversion E'; reflexivity|].
  split; [vm_compute in E'; inversion E'; reflexivity|].
  exact (@floor_only_drops_persons objects hands predictions E).
Defined.

(* ================================================================== *)
(** * Zoom and labels *)
(* ================================================================== *)

(** ** Zoom and the field of view *)

Lemma clampZoom_cases level :
  (level = NaN /\ clampZoom level = NaN) \/
  exists l, clampZoom level = Fin l /\ (0.5 <= l <= 4)%Q.
Proof.
  unfold clampZoom, Math_max, Math_min.
  destruct level as [q| | |]; cbn [isNaN orb ltb].
  - right. destruct (Qltb q 4) eqn:E4; cbn [isNaN orb ltb].
    + destruct (Qltb 0.5 q) eqn:E5; q_bools; eexists; (split; [reflexivity|]); lra.
    + eexists. split; [reflexivity|]. q_bools. lra.
  - right. eexists. split; [reflexivity|]. lra.
  - right. eexists. split; [reflexivity|]. lra.
  - left. split; reflexivity.
Qed.

(** X24.  Whatever zoom level is asked for, the field of view the depth
    estimator works with stays in range: the level is clamped to
    [[0.5, 4]], so the camera's field of view [75 / level] is between 18.75
    and 150 degrees and the estimator uses it as it is, half of it being an
    angle strictly between 0 and a right angle; and when the level is not a
    number, the field of view is not one either and the estimator falls back
    to 75 degrees. *)
Theorem zoom_keeps_the_field_of_view_in_range level :
  let camera_fov := zoomFov (clampZoom level) in
  (exists l f a,
     clampZoom level = Fin l /\ (0.5 <= l <= 4)%Q /\
     camera_fov = Fin f /\ (18.75 <= f <= 150)%Q /\
     or_else camera_fov (Fin 75) = Fin f /\
     (degToRad (or_else camera_fov (Fin 75)) / Fin 2)%js = Fin a /\
     (0.16 < a < 1.31)%Q)
  \/
  (level = NaN /\ or_else camera_fov (Fin 75) = Fin 75).
Proof.
  intros camera_fov. subst camera_fov.
  destruct (clampZoom_cases level) as [[-> E]|(l & E & Hl)].
  - right. split; reflexivity.
  - left. rewrite E. unfold zoomFov.
    assert (Nl : ~ (l == 0)%Q) by (intros H; rewrite H in Hl; lra).
    assert (Hpos : (0 < l)%Q) by lra.
    rewrite (div_Fin 75 Nl).
    assert (Hf : (18.75 <= 75 / l <= 150)%Q).
    { split.
      - apply Qle_shift_div_l; [assumption|]. lra.
      - apply Qle_shift_div_r; [assumption|]. lra. }
    assert (Ht : or_else (Fin (75 / l)) (Fin 75) = Fin (75 / l)).
    { unfold or_else, truthy.
      destruct (Qeq_bool (75 / l) 0) eqn:Ez; [|reflexivity].
      apply Qeq_bool_iff in Ez. rewrite Ez in Hf. lra. }
    exists l, (75 / l)%Q. eexists.
    split; [reflexivity|]. split; [exact Hl|]. split; [reflexivity|].
    split; [exact Hf|]. split; [exact Ht|].
    rewrite Ht. unfold degToRad, Math_PI. fin_arith.
    split; [reflexivity|].
    set (f := (75 / l)%Q) in *.
    assert (Hk : (f * (3.141592653589793 / 180) / 2
                  == f * (3141592653589793 # 360000000000000000))%Q) by field.
    rewrite Hk. lra.
Qed.

(** Manual zoom from level 3.5 by +1 stops at 4, a field of view of 18.75
    degrees; from 0.6 by -1 it stops at 0.5, 150 degrees. *)
Example zoom_sample :
  eqb (handleManualZoom (Fin 3.5) (Fin 1)) (Fin 4) = true /\
  eqb (zoomFov (handleManualZoom (Fin 3.5) (Fin 1))) (Fin 18.75) = true /\
  eqb (handleManualZoom (Fin 0.6) (Fin (-1))) (Fin 0.5) = true /\
  eqb (zoomFov (handleManualZoom (Fin 0.6) (Fin (-1)))) (Fin 150) = true /\
  or_else (zoomFov (clampZoom NaN)) (Fin 75) = Fin 75.
Proof. vm_compute. repeat split. Qed.

(* ------------------------------------------------------------------ *)
(** ** The distance shown on a label *)

(** The distance shown on a label follows the measured one without
    overshooting: a label that shows nothing yet (its value is [0] or not a
    number) takes the measured distance at once; otherwise the shown value
    moves to a point between itself and the measured distance, and what
    separates it from the measured distance shrinks by a tenth. *)
Lemma label_distance_closes_a_tenth_of_the_gap displayDist (dist : Q) :
  (truthy displayDist = false -> smoothDisplayDist displayDist (Fin dist) = Fin dist)
  /\
  (forall d, displayDist = Fin d -> ~ (d == 0)%Q ->
     exists r,
       smoothDisplayDist displayDist (Fin dist) = Fin r /\
       ((d <= r <= dist)%Q \/ (dist <= r <= d)%Q) /\
       (r - dist == 0.9 * (d - dist))%Q).
Proof.
  unfold smoothDisplayDist. split.
  - intros ->. reflexivity.
  - intros d -> Hd. unfold truthy.
    destruct (Qeq_bool d 0) eqn:E; [apply Qeq_bool_iff in E; contradiction|].
    cbn [negb mul add]. eexists. split; [reflexivity|].
    split; [|ring].
    destruct (Qlt_le_dec d dist); [left|right]; lra.
Qed.

(** A fresh label at 8 m shows 8; one showing 10 moves to 9.8. *)
Example label_distance_sample :
  smoothDisplayDist (Fin 0) (Fin 8) = Fin 8 /\
  eqb (smoothDisplayDist (Fin 10) (Fin 8)) (Fin 9.8) = true /\
  eqb (labelScale (Fin 8)) (Fin (4 # 3)) = true /\
  eqb (labelScale (Fin 1.5)) (Fin 0.4) = true.
Proof. vm_compute. repeat split. Qed.

(* ------------------------------------------------------------------ *)
(** ** The colour of a label *)

(** X25.  The colour of a label depends on three things only: whether the
    object is selected, whether it is a hand, and whether lidar is
    available.  For every track of every state reached from start-up, and
    the object reported for it, the brackets are red exactly when the object
    is selected, else gold exactly when it is a hand, else cyan exactly
    with lidar, else green: the colour stored in the track never shows
    through as anything else. *)
Theorem label_colour_is_decided_by_selection_hand_and_lidar Math_sqrt Math_tan evs
    st now localObjects lidar :
  Forall (fun t =>
            labelColor t (toObject st now localObjects t) lidar
            = if selectedIn localObjects (id t) then 16711680%N
              else if String.eqb (class t) "hand" then 16766720%N
              else if lidar then 65535%N
              else 65280%N)
         (trackers (fst (run Math_sqrt Math_tan initialState evs))).
Proof.
  destruct (@run_pristine Math_sqrt Math_tan evs initialState (Forall_nil _)) as [H _].
  eapply Forall_impl; [|exact H]. simpl.
  intros t (_ & _ & _ & _ & _ & Hc). unfold labelColor. simpl. rewrite Hc.
  destruct (selectedIn localObjects (id t)); [reflexivity|].
  destruct (String.eqb (class t) "hand"); [reflexivity|].
  destruct lidar; reflexivity.
Qed.

(* ================================================================== *)
(** * Reported distances *)
(* ================================================================== *)

Lemma isFinite_inv x : isFinite x = true -> exists q, x = Fin q.
Proof. destruct x; try discriminate. eauto. Qed.

Lemma isPositive_inv x : isPositive x = true -> exists q, x = Fin q /\ (0 < q)%Q.
Proof. destruct x as [q| | |]; try discriminate. simpl. intros H. q_bools. eauto. Qed.

Lemma finiteBox_inv b :
  finiteBox b = true ->
  exists b0 b1 b2 b3,
    b = {| box0 := Fin b0; box1 := Fin b1; box2 := Fin b2; box3 := Fin b3 |}.
Proof.
  destruct b as [x0 x1 x2 x3]. unfold finiteBox. simpl.
  rewrite !Bool.andb_true_iff. intros [[[H0 H1] H2] H3].
  apply isFinite_inv in H0, H1, H2, H3.
  destruct H0 as [b0 ->], H1 as [b1 ->], H2 as [b2 ->], H3 as [b3 ->]. eauto.
Qed.

Lemma isModerate_isFinite x : isModerate x = true -> isFinite x = true.
Proof. destruct x; simpl; auto. Qed.

Lemma isPixels_isPositive x : isPixels x = true -> isPositive x = true.
Proof.
  destruct x as [q| | |]; simpl; try discriminate.
  rewrite Bool.andb_true_iff. intros [H _]. apply Qle_bool_imp_le in H.
  unfold Qltb. destruct (Qle_bool q 0) eqn:E; [|reflexivity].
  apply Qle_bool_imp_le in E. lra.
Qed.

Lemma isModerateTan_isPositive x : isModerateTan x = true -> isPositive x = true.
Proof.
  destruct x as [q| | |]; simpl; try discriminate.
  rewrite Bool.andb_true_iff. intros [H _]. apply Qle_bool_imp_le in H.
  unfold Qltb. destruct (Qle_bool q 0) eqn:E; [|reflexivity].
  apply Qle_bool_imp_le in E. lra.
Qed.

Lemma moderateBox_finiteBox b : moderateBox b = true -> finiteBox b = true.
Proof.
  unfold moderateBox, finiteBox. rewrite !Bool.andb_true_iff.
  intros [[[H0 H1] H2] H3]. auto using isModerate_isFinite.
Qed.

Lemma orderlyPrediction_inv p :
  orderlyPrediction p = true ->
  finiteBox (pred_bbox p) = true /\ inheritedClass (pred_class p) = false.
Proof.
  unfold orderlyPrediction. rewrite Bool.andb_true_iff, Bool.negb_true_iff.
  intros [Hb Hc]. split; [now apply moderateBox_finiteBox|exact Hc].
Qed.

Lemma placed_newTracker now lidar newId bbox scaleFactor pred :
  inheritedClass (pred_class pred) = false ->
  finiteBox bbox = true -> isFinite scaleFactor = true ->
  placed (newTracker now lidar newId (scaleBox bbox scaleFactor) pred).
Proof.
  intros Hcls Hb Hs. apply finiteBox_inv in Hb. destruct Hb as (b0 & b1 & b2 & b3 & ->).
  apply isFinite_inv in Hs. destruct Hs as [s ->].
  split; [exact Hcls|].
  split; [reflexivity|]. simpl. do 3 eexists. split; [reflexivity|]. lra.
Qed.

Lemma placed_matchUpdate now (f : Q) bbox scaleFactor pred t :
  finiteBox bbox = true -> isFinite scaleFactor = true ->
  placed t -> placed (matchUpdate now (Fin f) (scaleBox bbox scaleFactor) pred t).
Proof.
  intros Hb Hs (Hcls & Hl & Hp). apply finiteBox_inv in Hb, Hl.
  destruct Hb as (b0 & b1 & b2 & b3 & ->). destruct Hl as (l0 & l1 & l2 & l3 & El).
  apply isFinite_inv in Hs. destruct Hs as [s ->].
  split; [exact Hcls|].
  split; [|exact Hp]. simpl. rewrite El. reflexivity.
Qed.

Lemma processPrediction_placed Math_sqrt now interval lidar scaleFactor a pred :
  orderlyPrediction pred = true -> isFinite scaleFactor = true ->
  Forall placed (a_trackers a) ->
  Forall placed
         (a_trackers (processPrediction Math_sqrt now interval lidar scaleFactor a pred)).
Proof.
  intros Hop Hs Ha. apply orderlyPrediction_inv in Hop. destruct Hop as [Hb Hcls].
  unfold processPrediction. cbv zeta.
  destruct (pred_score pred <? Fin 0.2)%js; [assumption|].
  destruct (truthyId _) as [tid|].
  - destruct (Map_get (a_trackers a) tid) as [t|] eqn:Hg; [|assumption].
    cbn [a_trackers]. apply Forall_Map_set; [assumption|].
    apply Map_get_In in Hg. destruct Hg as [Hin _].
    rewrite Forall_forall in Ha.
    destruct (interval >? Fin 300)%js; apply placed_matchUpdate; auto.
  - cbn [a_trackers]. apply Forall_Map_set; [assumption|].
    apply placed_newTracker; assumption.
Qed.

Lemma fold_process_placed Math_sqrt now interval lidar scaleFactor predictions :
  isFinite scaleFactor = true ->
  forallb orderlyPrediction predictions = true ->
  forall a,
    Forall placed (a_trackers a) ->
    Forall placed
           (a_trackers (fold_left (processPrediction Math_sqrt now interval lidar
                                                     scaleFactor) predictions a)).
Proof.
  intros Hs. induction predictions as [|p ps IH]; intros Hb a Ha; simpl; [assumption|].
  simpl in Hb. apply Bool.andb_true_iff in Hb. destruct Hb as [Hp Hps].
  apply IH; [assumption|]. apply processPrediction_placed; assumption.
Qed.

Lemma placed_tick Math_tan st now videoW videoH width height t :
  isPositive (tanHalfFov Math_tan (fov st)) = true ->
  isPositive videoW = true -> isPositive videoH = true ->
  isPositive width = true -> isPositive height = true ->
  placed t ->
  placed (advanceTracker Math_tan st now videoW videoH width height t) /\
  placed (advanceScan (advanceTracker Math_tan st now videoW videoH width height t)).
Proof.
  intros Htan HvW HvH HsW HsH (Hcls & Hl & (x & y & z & Hc & Hz)).
  apply isPositive_inv in Htan, HvW, HvH, HsW, HsH.
  destruct Htan as (tq & Htan & Htpos). destruct HvW as (vW & -> & HvW).
  destruct HvH as (vH & -> & HvH). destruct HsW as (sW & -> & HsW).
  destruct HsH as (sH & -> & HsH).
  pose proof Hl as Hl'. apply finiteBox_inv in Hl'.
  destruct Hl' as (b0 & b1 & b2 & b3 & El).
  destruct (@calculate3DPosition_finite Math_tan (fov st) (class t) b0 b1 b2 b3
              vW vH sW sH tq Hcls HvW HvH HsW HsH Htan Htpos)
    as (rh & fq & nx & ny & d & _ & _ & _ & _ & _ & _ & _ & Hd & Hpos).
  cbv zeta in Hpos. rewrite <- El in Hpos.
  assert (P : placed (advanceTracker Math_tan st now (Fin vW) (Fin vH) (Fin sW) (Fin sH) t)).
  { split; [exact Hcls|].
    split; [exact Hl|]. unfold advanceTracker. cbv zeta. cbn [physics current].
    rewrite Hpos, Hc. cbn [vx vy vz].
    destruct (isMovingFast st); cbn [lerp add sub mul neg];
      do 3 eexists; (split; [reflexivity|]); lra. }
  split; [exact P|]. exact P.
Qed.

Lemma tick_fold_placed Math_tan st now videoW videoH width height localObjects :
  isPositive (tanHalfFov Math_tan (fov st)) = true ->
  isPositive videoW = true -> isPositive videoH = true ->
  isPositive width = true -> isPositive height = true ->
  forall trs k,
    Forall placed trs ->
    Forall placed (k_trackers k) ->
    Forall (fun o => exists x y z d,
              obj_position3D o = {| vx := Fin x; vy := Fin y; vz := Fin z |} /\
              (-50 <= z <= -1.5)%Q /\ obj_distance o = Fin d /\ (1.5 <= d <= 50)%Q)
           (nextLocalObjects k) ->
    let k' := fold_left (tickTracker Math_tan st now videoW videoH width height
                                     localObjects) trs k in
    Forall placed (k_trackers k') /\
    Forall (fun o => exists x y z d,
              obj_position3D o = {| vx := Fin x; vy := Fin y; vz := Fin z |} /\
              (-50 <= z <= -1.5)%Q /\ obj_distance o = Fin d /\ (1.5 <= d <= 50)%Q)
           (nextLocalObjects k').
Proof.
  intros Htan HvW HvH HsW HsH.
  induction trs as [|t trs IH]; intros k Ht Hk Ho; simpl; [split; assumption|].
  inversion Ht as [|? ? Hp Ht']; subst.
  destruct (@placed_tick Math_tan st now videoW videoH width height t
              Htan HvW HvH HsW HsH Hp) as [P1 P2].
  apply IH; [assumption| |]; unfold tickTracker; cbv zeta;
    destruct (evicts _ _); cbn [k_trackers nextLocalObjects removeTracker].
  - apply Forall_Map_delete. apply Forall_Map_set; assumption.
  - apply Forall_Map_set; assumption.
  - assumption.
  - apply Forall_app. split; [assumption|].
    constructor; [|constructor].
    destruct P2 as (_ & _ & (x & y & z & Hc & Hz)).
    exists x, y, z, (Qabs z). unfold toObject. cbn [obj_position3D obj_distance].
    rewrite Hc. cbn [vz Math_abs].
    split; [reflexivity|]. split; [exact Hz|]. split; [reflexivity|].
    rewrite Qabs_neg by lra. lra.
Qed.

Lemma step_placed Math_sqrt Math_tan st ev :
  orderly Math_tan ev = true ->
  isPositive (tanHalfFov Math_tan (fov st)) = true ->
  Forall placed (trackers st) ->
  isPositive (tanHalfFov Math_tan (fov (fst (step Math_sqrt Math_tan st ev)))) = true /\
  Forall placed (trackers (fst (step Math_sqrt Math_tan st ev))) /\
  Forall (fun o => exists x y z d,
            obj_position3D o = {| vx := Fin x; vy := Fin y; vz := Fin z |} /\
            (-50 <= z <= -1.5)%Q /\ obj_distance o = Fin d /\ (1.5 <= d <= 50)%Q)
         (outputObjects (snd (step Math_sqrt Math_tan st ev))).
Proof.
  intros Hev Htan Hp.
  destruct ev as [now nowCheck mode preds sf|now vw vh iw ih lo|m i l f].
  - unfold orderly in Hev. apply Bool.andb_true_iff in Hev. destruct Hev as [Hs Hb].
    apply isModerate_isFinite in Hs.
    unfold step.
    destruct (handleWorkerPredictions Math_sqrt st now nowCheck mode preds sf)
      as [st' msg] eqn:E.
    cbn [fst snd outputObjects].
    assert (Hst : st' = fst (handleWorkerPredictions Math_sqrt st now nowCheck mode
                                                     preds sf)) by now rewrite E.
    destruct (isMovingFast st) eqn:Hm.
    + unfold handleWorkerPredictions in Hst. rewrite Hm in Hst. subst st'.
      split; [exact Htan|]. split; [exact Hp|constructor].
    + destruct (handleWorkerPredictions_core Math_sqrt st now nowCheck mode preds sf Hm)
        as (Ht & _).
      assert (Hf : fov st' = fov st).
      { rewrite Hst. unfold handleWorkerPredictions. rewrite Hm. cbv zeta.
        match goal with
        | |- context [checkSceneChange ?s ?n ?md ?c] =>
            destruct (checkSceneChange_core s n md c) as (_ & _ & _ & _ & _ & _ & Hfov)
        end.
        exact Hfov. }
      rewrite Hf. split; [exact Htan|]. split; [|constructor].
      rewrite Hst, Ht. unfold associate. apply fold_process_placed; assumption.
  - unfold orderly in Hev. rewrite !Bool.andb_true_iff in Hev.
    destruct Hev as [[[HvW HvH] HsW] HsH].
    apply isPixels_isPositive in HvW, HvH, HsW, HsH.
    unfold step, updateVisualsAndPhysics. cbv zeta. cbn [fst snd outputObjects fov trackers].
    destruct (@tick_fold_placed Math_tan st now (or_else vw (Fin 1280))
                (or_else vh (Fin 720)) iw ih lo Htan HvW HvH HsW HsH (trackers st)
                {| k_trackers := trackers st; k_labels := labels st;
                   nextLocalObjects := [] |} Hp Hp (Forall_nil _)) as [H1 H2].
    split; [exact Htan|]. split; [exact H1|].
    apply Forall_forall. intros o Ho. apply (proj1 (sortObjects_In _ _)) in Ho.
    revert o Ho. apply Forall_forall. exact H2.
  - simpl in *. split; [now apply isModerateTan_isPositive|].
    split; [exact Hp|constructor].
Qed.

Lemma run_placed Math_sqrt Math_tan evs : forall st,
  forallb (orderly Math_tan) evs = true ->
  isPositive (tanHalfFov Math_tan (fov st)) = true ->
  Forall placed (trackers st) ->
  Forall (fun out =>
            Forall (fun o => exists x y z d,
                      obj_position3D o = {| vx := Fin x; vy := Fin y; vz := Fin z |} /\
                      (-50 <= z <= -1.5)%Q /\ obj_distance o = Fin d /\
                      (1.5 <= d <= 50)%Q)
                   (outputObjects out))
         (snd (run Math_sqrt Math_tan st evs)).
Proof.
  induction evs as [|ev evs IH]; intros st Hevs Htan Hp; cbn [run]; [constructor|].
  cbn [forallb] in Hevs. apply Bool.andb_true_iff in Hevs. destruct Hevs as [Hev Hevs].
  destruct (@step_placed Math_sqrt Math_tan st ev Hev Htan Hp) as (H1 & H2 & H3).
  destruct (step Math_sqrt Math_tan st ev) as [st1 o]. cbn [fst snd] in *.
  specialize (IH st1 Hevs H1 H2).
  destruct (run Math_sqrt Math_tan st1 evs) as [st2 os]. cbn [fst snd] in *.
  constructor; assumption.
Qed.

(** X26.  In an orderly environment every reported distance lies between
    1.5 and 50: if the tangent of half the field of view is between a
    thousandth and a thousand for the start-up field of view and for every
    one set later, the worker's boxes and scale factors are finite and at
    most a million in absolute value, no class of a prediction names an
    inherited property, and every frame comes with video and window
    dimensions between one pixel and a million, then every object of every
    output list has a finite position whose depth [z] is in [[-50, -1.5]]
    and a distance in [[1.5, 50]], from the first tick after the track was
    created. *)
Theorem reported_distance_stays_in_range Math_sqrt Math_tan evs :
  isModerateTan (tanHalfFov Math_tan (Fin 75)) = true ->
  forallb (orderly Math_tan) evs = true ->
  Forall (fun out =>
            Forall (fun o => exists x y z d,
                      obj_position3D o = {| vx := Fin x; vy := Fin y; vz := Fin z |} /\
                      (-50 <= z <= -1.5)%Q /\ obj_distance o = Fin d /\
                      (1.5 <= d <= 50)%Q)
                   (outputObjects out))
         (snd (run Math_sqrt Math_tan initialState evs)).
Proof.
  intros Htan Hevs.
  apply run_placed; [assumption|now apply isModerateTan_isPositive|constructor].
Qed.

(** With a class that names an inherited property the position is not a
    number from the first tick on. *)
Example inherited_class_sample :
  map (fun out => map (fun o => (obj_position3D o, obj_distance o)) (outputObjects out))
      (snd (runSample [resultAt 5000 [detection "constructor" 0.9 100 100 50 200];
                       frameAt 5016]))
  = [[]; [({| vx := NaN; vy := NaN; vz := NaN |}, NaN)]].
Proof. vm_compute. reflexivity. Qed.

(** A person and a degenerate cup, a change of zoom, and two ticks. *)
Lemma reported_distance_stays_in_range_witness :
  let evs := [resultAt 5000 [detection "person" 0.9 100 100 50 200;
                             detection "cup" 0.9 400 300 20 0];
              frameAt 5016;
              Environment false (Fin 200) false (Fin 37.5);
              frameAt 5032] in
  (isModerateTan (tanHalfFov tan_lambert (Fin 75)) = true /\
   forallb (orderly tan_lambert) evs = true) /\
  map (fun out => List.length (outputObjects out)) (snd (runSample evs))
  = [0; 2; 0; 2]%nat /\
  Forall (fun out =>
            Forall (fun o => exists x y z d,
                      obj_position3D o = {| vx := Fin x; vy := Fin y; vz := Fin z |} /\
                      (-50 <= z <= -1.5)%Q /\ obj_distance o = Fin d /\
                      (1.5 <= d <= 50)%Q)
                   (outputObjects out))
         (snd (run sqrt_fixed tan_lambert initialState evs)).
Proof.
  intros evs.
  assert (H1 : isModerateTan (tanHalfFov tan_lambert (Fin 75)) = true)
    by (vm_compute; reflexivity).
  assert (H2 : forallb (orderly tan_lambert) evs = true) by (vm_compute; reflexivity).
  split; [exact (conj H1 H2)|].
  split; [vm_compute; reflexivity|].
  exact (@reported_distance_stays_in_range sqrt_fixed tan_lambert evs H1 H2).
Defined.

(* ================================================================== *)
(** * Target selection *)
(* ================================================================== *)






